(** * URLtoFILE: the download job lifecycle of [app/app.py] and
      [app/utils/download_yt.py], embedded in Rocq.

    Python [str] values are modelled as [string] (the UTF-8 bytes of the
    text).  All markers the code searches for are ASCII, and a UTF-8 byte
    of a non-ASCII character is never an ASCII byte, so byte-wise search
    and replacement agree with Python's character-wise ones. *)

From stdpp Require Import gmap strings list pretty.
From Stdlib Require Import Ascii ZArith QArith Lia.

Local Open Scope string_scope.
Local Open Scope Z_scope.

(** ** Python string primitives with a fixed meaning *)

Module PyStr.

(** [needle in hay] *)
Fixpoint str_in (needle hay : string) : bool :=
  String.prefix needle hay ||
  match hay with
  | EmptyString => false
  | String _ rest => str_in needle rest
  end.

(** [s.replace(c, '')] for a one-character [c] *)
Fixpoint remove_char (c : ascii) (s : string) : string :=
  match s with
  | EmptyString => EmptyString
  | String a rest =>
      if Ascii.eqb a c then remove_char c rest else String a (remove_char c rest)
  end.

(** [str.upper] on ASCII text; the code applies it to the entries of
    [COMING_SOON_PLATFORMS] only, which are ASCII constants. *)
Definition upper_char (c : ascii) : ascii :=
  let n := nat_of_ascii c in
  if (97 <=? n)%nat && (n <=? 122)%nat then ascii_of_nat (n - 32) else c.

Fixpoint upper (s : string) : string :=
  match s with
  | EmptyString => EmptyString
  | String a rest => String (upper_char a) (upper rest)
  end.

(** ASCII instances of [str.lower] and [str.strip], used to run the model
    on concrete ASCII inputs. *)
Definition lower_char (c : ascii) : ascii :=
  let n := nat_of_ascii c in
  if (65 <=? n)%nat && (n <=? 90)%nat then ascii_of_nat (n + 32) else c.

Fixpoint ascii_lower (s : string) : string :=
  match s with
  | EmptyString => EmptyString
  | String a rest => String (lower_char a) (ascii_lower rest)
  end.

Definition is_space (c : ascii) : bool :=
  let n := nat_of_ascii c in
  ((9 <=? n)%nat && (n <=? 13)%nat) || ((28 <=? n)%nat && (n <=? 32)%nat).

Fixpoint lstrip (s : string) : string :=
  match s with
  | EmptyString => EmptyString
  | String a rest => if is_space a then lstrip rest else s
  end.

Fixpoint rstrip (s : string) : string :=
  match s with
  | EmptyString => EmptyString
  | String a rest =>
      match rstrip rest with
      | EmptyString => if is_space a then EmptyString else String a EmptyString
      | r => String a r
      end
  end.

Definition ascii_strip (s : string) : string := rstrip (lstrip s).

(** Index of the last occurrence of [c] in [s], as [s.rfind(c)]:
    [-1] when absent. *)
Fixpoint rfind_from (c : ascii) (s : string) (i : Z) (last : Z) : Z :=
  match s with
  | EmptyString => last
  | String a rest => rfind_from c rest (i + 1) (if Ascii.eqb a c then i else last)
  end.

Definition rfind (c : ascii) (s : string) : Z := rfind_from c s 0 (-1).

(** [s[:n]] and [s[n:]] for [0 <= n] *)
Definition take (n : Z) (s : string) : string := String.substring 0 (Z.to_nat n) s.
Definition drop (n : Z) (s : string) : string :=
  String.substring (Z.to_nat n) (String.length s - Z.to_nat n) s.

(** [s[-1:]], as an optional character. *)
Fixpoint last_char (s : string) : option ascii :=
  match s with
  | EmptyString => None
  | String a rest =>
      match last_char rest with
      | None => Some a
      | Some b => Some b
      end
  end.

End PyStr.

(** ** [os.path] on POSIX *)

Module OsPath.
Import PyStr.

(** [posixpath.join(a, b)] *)
Definition join (a b : string) : string :=
  if String.prefix "/" b then b
  else if String.eqb a "" || String.eqb (drop (Z.of_nat (String.length a) - 1) a) "/"
       then a ++ b
       else a ++ "/" ++ b.

(** [posixpath.basename(p)] *)
Definition basename (p : string) : string := drop (rfind "/" p + 1) p.

(** [genericpath._splitext(p, '/', None, '.')]: the extension starts at
    the last dot of the last path component, leading dots of that
    component not counted. *)
Fixpoint all_dots (s : string) : bool :=
  match s with
  | EmptyString => true
  | String a rest => Ascii.eqb a "." && all_dots rest
  end.

Definition splitext (p : string) : string * string :=
  let sepIndex := rfind "/" p in
  let dotIndex := rfind "." p in
  if (sepIndex <? dotIndex) &&
     negb (all_dots (String.substring (Z.to_nat (sepIndex + 1))
                                      (Z.to_nat (dotIndex - (sepIndex + 1))) p))
  then (take dotIndex p, drop dotIndex p)
  else (p, "").

End OsPath.

(** ** Values exchanged with the Python runtime and the collaborators *)

(** Exceptions.  [WebSocketDisconnect] and [HTTPException] are subclasses
    of [Exception]; every exception carries the text [str(e)] gives. *)
Inductive exn :=
| WebSocketDisconnect (text : string)
| HTTPException (status_code : Z) (detail : string)
| Exception (text : string).

(** [str(e)]; Starlette prints an [HTTPException] as [status: detail]. *)
Definition str_exn (e : exn) : string :=
  match e with
  | WebSocketDisconnect t => t
  | HTTPException c d => pretty c ++ ": " ++ d
  | Exception t => t
  end.

Inductive result (A : Type) :=
| Ok (a : A)
| Raise (e : exn).
Arguments Ok {A} a.
Arguments Raise {A} e.

(** JSON-like Python values; a [float] is modelled by the rational it
    denotes. *)
Inductive pyval :=
| PNone
| PBool (b : bool)
| PInt (z : Z)
| PFloat (q : Q)
| PStr (s : string).

(** A [dict] with string keys, in insertion order. *)
Definition pydict := list (string * pyval).

Fixpoint dict_get (k : string) (d : pydict) : option pyval :=
  match d with
  | [] => None
  | (k', v) :: rest => if String.eqb k' k then Some v else dict_get k rest
  end.

(** [d[k] = v] *)
Fixpoint dict_set (k : string) (v : pyval) (d : pydict) : pydict :=
  match d with
  | [] => [(k, v)]
  | (k', v') :: rest =>
      if String.eqb k' k then (k', v) :: rest else (k', v') :: dict_set k v rest
  end.

(** [d.update(kwargs)] *)
Definition dict_update (d kwargs : pydict) : pydict :=
  fold_left (fun acc kv => dict_set kv.1 kv.2 acc) kwargs d.

Definition opt_str (o : option string) : pyval :=
  match o with
  | Some s => PStr s
  | None => PNone
  end.

(** The metadata [extract_info] returns, as far as the code reads it:
    [info.get('title')] and [info.get('thumbnails')], a list of dicts
    read through [.get('url')]. *)
Record Thumbnail := { thumb_url : option string }.
Record Info := { info_title : option string; info_thumbnails : option (list Thumbnail) }.

(** The dict a progress hook receives: [d['status']] may be missing
    (KeyError), [d.get('_percent_str')] may be missing. *)
Record HookDict := { hook_status : option string; hook_percent_str : option string }.

(** The response of [requests.get(url, timeout=10, stream=True)]:
    [raise_for_status()] may raise, [iter_content] yields chunks (their
    lengths are kept) and may raise after them. *)
Record Response := {
  resp_status_error : option exn;
  resp_chunks : list N;
  resp_stream_error : option exn
}.

(** Entries of the file system: a regular file with its size in bytes,
    or a directory. *)
Inductive node :=
| File (size : N)
| Dir.

Record YdlOpts := {
  opt_format : string;
  opt_outtmpl : string;
  opt_preferredcodec : string;
  opt_preferredquality : string;
  opt_noplaylist : bool
}.

(** Origin of a message put on the connection: the request handler
    itself, or a coroutine a progress hook scheduled on the loop. *)
Inductive origin := Handler | Callback.

Global Instance origin_eq_dec : EqDecision origin.
Proof. solve_decision. Defined.

Record Delivery := {
  dl_origin : origin;
  dl_msg : pydict;
  dl_error : option exn   (* [None]: the message reached the client *)
}.

(** ** The environment

    Everything the two modules call but do not define: the Python
    runtime, the clock and the uuid generator, the client connection, the
    event loop, yt-dlp and requests.  Each is a function of what the code
    passes to it; the ones that are consulted repeatedly take the number
    of earlier consultations. *)
Record Env := {
  str_lower : string -> string;         (* str.lower *)
  str_strip : string -> string;         (* str.strip *)
  py_float : string -> option Q;        (* float(s); None: ValueError *)
  format_1f : Q -> string;              (* format(x, '.1f') *)
  round2 : Q -> Q;                      (* round(x, 2) *)
  uuid4 : nat -> string;                (* str(uuid.uuid4()), n-th call *)
  now_isoformat : nat -> string;        (* datetime.now().isoformat(), n-th call *)
  ws_accept_error : option exn;         (* ws.accept() *)
  ws_send_error : nat -> option exn;    (* n-th send attempt on the connection *)
  ws_close_error : option exn;          (* ws.close() *)
  loop_runs : nat -> nat;
    (* how many scheduled coroutines the loop runs while the handler is
       suspended in its n-th send *)
  ydl_extract_info : YdlOpts -> string -> result Info;
    (* ydl.extract_info(url, download=False) *)
  ydl_download : YdlOpts -> string -> gmap string node ->
                 list HookDict * gmap string node * result Info;
    (* ydl.extract_info(url, download=True): the hook calls it makes,
       the file system it leaves, its result *)
  ydl_prepare_filename : Info -> result string;
  requests_get : string -> result Response;
  open_wb_error : string -> option exn  (* open(path, 'wb') *)
}.

(** The two objects passed as [ws]: the Starlette connection, and the
    [MockWebSocket] of [api_download_url] whose [send_json] does nothing. *)
Inductive WebSocket := RealWS | MockWS.

Global Instance WebSocket_eq_dec : EqDecision WebSocket.
Proof. solve_decision. Defined.

(** ** The state of the process *)

Record World := {
  downloads : gmap string pydict;       (* download_manager.downloads *)
  active_connections : gset string;     (* keys of active_connections *)
  fs : gmap string node;
  ws_log : list Delivery;               (* send attempts on the connection, oldest first *)
  loop_queue : list (WebSocket * pydict); (* [ws.send_json(msg)] coroutines scheduled
                                             by run_coroutine_threadsafe, oldest first *)
  n_uuid : nat;
  n_clock : nat
}.

Definition set_downloads (f : gmap string pydict -> gmap string pydict) (w : World) : World :=
  {| downloads := f (downloads w); active_connections := active_connections w;
     fs := fs w; ws_log := ws_log w; loop_queue := loop_queue w;
     n_uuid := n_uuid w; n_clock := n_clock w |}.

Definition set_active_connections (f : gset string -> gset string) (w : World) : World :=
  {| downloads := downloads w; active_connections := f (active_connections w);
     fs := fs w; ws_log := ws_log w; loop_queue := loop_queue w;
     n_uuid := n_uuid w; n_clock := n_clock w |}.

Definition set_fs (f : gmap string node -> gmap string node) (w : World) : World :=
  {| downloads := downloads w; active_connections := active_connections w;
     fs := f (fs w); ws_log := ws_log w; loop_queue := loop_queue w;
     n_uuid := n_uuid w; n_clock := n_clock w |}.

Definition set_ws_log (f : list Delivery -> list Delivery) (w : World) : World :=
  {| downloads := downloads w; active_connections := active_connections w;
     fs := fs w; ws_log := f (ws_log w); loop_queue := loop_queue w;
     n_uuid := n_uuid w; n_clock := n_clock w |}.

Definition set_loop_queue (f : list (WebSocket * pydict) -> list (WebSocket * pydict))
    (w : World) : World :=
  {| downloads := downloads w; active_connections := active_connections w;
     fs := fs w; ws_log := ws_log w; loop_queue := f (loop_queue w);
     n_uuid := n_uuid w; n_clock := n_clock w |}.

Definition tick_uuid (w : World) : World :=
  {| downloads := downloads w; active_connections := active_connections w;
     fs := fs w; ws_log := ws_log w; loop_queue := loop_queue w;
     n_uuid := S (n_uuid w); n_clock := n_clock w |}.

Definition tick_clock (w : World) : World :=
  {| downloads := downloads w; active_connections := active_connections w;
     fs := fs w; ws_log := ws_log w; loop_queue := loop_queue w;
     n_uuid := n_uuid w; n_clock := S (n_clock w) |}.

(** ** Computations: state passing with exceptions

    A raised exception keeps the state reached so far, as in Python. *)
Definition M (A : Type) : Type := World -> result A * World.

Definition ret {A} (a : A) : M A := fun w => (Ok a, w).

Definition bind {A B} (m : M A) (k : A -> M B) : M B :=
  fun w =>
    match m w with
    | (Ok a, w') => k a w'
    | (Raise e, w') => (Raise e, w')
    end.

Definition raise {A} (e : exn) : M A := fun w => (Raise e, w).

(** [try: m  except Exception as e: h e] *)
Definition try_except {A} (m : M A) (h : exn -> M A) : M A :=
  fun w =>
    match m w with
    | (Ok a, w') => (Ok a, w')
    | (Raise e, w') => h e w'
    end.

(** [try: m  finally: f] *)
Definition try_finally {A} (m : M A) (f : M unit) : M A :=
  fun w =>
    match m w with
    | (r, w') =>
        match f w' with
        | (Ok _, w'') => (r, w'')
        | (Raise e, w'') => (Raise e, w'')
        end
    end.

Definition get_world : M World := fun w => (Ok w, w).
Definition modify (f : World -> World) : M unit := fun w => (Ok tt, f w).

Notation "x <- m ;; k" := (bind m (fun x => k))
  (at level 100, m at next level, right associativity, only parsing).
Notation "m ;;; k" := (bind m (fun _ => k))
  (at level 100, right associativity, only parsing).

Definition lift_result {A} (r : result A) : M A := fun w => (r, w).

Definition raise_if (o : option exn) : M unit :=
  match o with
  | Some e => raise e
  | None => ret tt
  end.

Section Runtime.
Context (E : Env).

(** *** File system *)

(** What a path names.  The file system keeps an entry under the path
    the code builds for it; besides, a path ending in [/] or [/.] names
    the directory before it, as [download/] and [download/.] name
    [download]. *)
Fixpoint dir_alias (path : string) : option string :=
  match path with
  | EmptyString => None
  | String a rest =>
      if Ascii.eqb a "/" && (String.eqb rest "" || String.eqb rest ".")
      then Some EmptyString
      else option_map (String a) (dir_alias rest)
  end.

Definition lookup_path (files : gmap string node) (path : string) : option node :=
  match files !! path with
  | Some entry => Some entry
  | None =>
      match dir_alias path with
      | Some folder =>
          match files !! folder with
          | Some Dir => Some Dir
          | _ => None
          end
      | None => None
      end
  end.

Definition os_path_exists (path : string) : M bool :=
  fun w => (Ok (bool_decide (is_Some (lookup_path (fs w) path))), w).

Definition os_makedirs (path : string) : M unit :=
  modify (set_fs (fun m => <[path := Dir]> m)).

Definition os_path_getsize (path : string) : M N :=
  fun w =>
    match lookup_path (fs w) path with
    | Some (File n) => (Ok n, w)
    | Some Dir => (Ok 4096%N, w)
    | None => (Raise (Exception ("[Errno 2] No such file or directory: '" ++ path ++ "'")), w)
    end.

Definition os_remove (path : string) : M unit :=
  fun w =>
    match lookup_path (fs w) path with
    | Some (File _) => (Ok tt, set_fs (fun m => delete path m) w)
    | Some Dir => (Raise (Exception ("[Errno 21] Is a directory: '" ++ path ++ "'")), w)
    | None => (Raise (Exception ("[Errno 2] No such file or directory: '" ++ path ++ "'")), w)
    end.

Definition os_path_isfile (path : string) : M bool :=
  fun w =>
    (Ok match lookup_path (fs w) path with
        | Some (File _) => true
        | _ => false
        end, w).

(** [os.listdir(path)]: the entries of a directory are those kept under
    [path/name] for a non-empty [name] without further [/].  The names
    come in the order of the map, which the code does not rely on. *)
Fixpoint strip_prefix (pre s : string) : option string :=
  match pre with
  | EmptyString => Some s
  | String a pre' =>
      match s with
      | String b s' => if Ascii.eqb a b then strip_prefix pre' s' else None
      | EmptyString => None
      end
  end.

Definition child_name (folder path : string) : option string :=
  match strip_prefix (folder ++ "/") path with
  | Some name =>
      if String.eqb name "" || PyStr.str_in "/" name then None else Some name
  | None => None
  end.

Definition os_listdir (path : string) : M (list string) :=
  fun w =>
    match lookup_path (fs w) path with
    | Some Dir =>
        let folder :=
          match fs w !! path with
          | Some _ => path
          | None => default path (dir_alias path)
          end in
        (Ok (omap (child_name folder) (map_to_list (fs w)).*1), w)
    | Some (File _) => (Raise (Exception ("[Errno 20] Not a directory: '" ++ path ++ "'")), w)
    | None => (Raise (Exception ("[Errno 2] No such file or directory: '" ++ path ++ "'")), w)
    end.

(** *** The connection and the event loop *)

Definition deliver (o : origin) (msg : pydict) (w : World) : World :=
  set_ws_log
    (fun l => (l ++ [{| dl_origin := o; dl_msg := msg;
                        dl_error := ws_send_error E (List.length l) |}])%list) w.

(** The loop runs [k] of the coroutines queued by
    [run_coroutine_threadsafe], oldest first.  Each is one [ws.send_json]:
    on the connection it is a send, on the mock it does nothing.  Nobody
    retrieves its result, so a failure is lost. *)
Fixpoint run_scheduled (k : nat) (w : World) : World :=
  match k with
  | O => w
  | S k' =>
      match loop_queue w with
      | [] => w
      | (ws, msg) :: queue =>
          let w1 := set_loop_queue (fun _ => queue) w in
          run_scheduled k'
            match ws with
            | RealWS => deliver Callback msg w1
            | MockWS => w1
            end
      end
  end.

(** [await ws.send_json(msg)]: the message is put on the connection; if
    that raises the handler gets the exception, otherwise the handler is
    suspended and the loop may run scheduled coroutines. *)
Definition send_json (ws : WebSocket) (msg : pydict) : M unit :=
  match ws with
  | MockWS => ret tt
  | RealWS =>
      fun w =>
        let n := List.length (ws_log w) in
        let w1 := deliver Handler msg w in
        match ws_send_error E n with
        | Some e => (Raise e, w1)
        | None => (Ok tt, run_scheduled (loop_runs E n) w1)
        end
  end.

(** [asyncio.run_coroutine_threadsafe(ws.send_json(msg), loop)]: the
    coroutine is put on the loop, whatever [ws] is. *)
Definition run_coroutine_threadsafe (ws : WebSocket) (msg : pydict) : M unit :=
  modify (set_loop_queue (fun q => (q ++ [(ws, msg)])%list)).

Definition uuid_uuid4 : M string :=
  fun w => (Ok (uuid4 E (n_uuid w)), tick_uuid w).

Definition datetime_now : M string :=
  fun w => (Ok (now_isoformat E (n_clock w)), tick_clock w).

Fixpoint for_each {A} (l : list A) (body : A -> M unit) : M unit :=
  match l with
  | [] => ret tt
  | x :: rest => body x ;;; for_each rest body
  end.

(** [ydl.extract_info(url, download=True)] with [hook] installed in
    [progress_hooks]. *)
Definition extract_info_download (opts : YdlOpts) (hook : HookDict -> M unit)
    (url : string) : M Info :=
  w <- get_world ;;
  let '(calls, fs', r) := ydl_download E opts url (fs w) in
  modify (set_fs (fun _ => fs')) ;;;
  for_each calls hook ;;;
  lift_result r.

End Runtime.

(** ** [app/utils/download_yt.py] *)

Module DownloadYt.
Import PyStr.

(** The nine characters of the class the regular expression matches:
    less-than, greater-than, colon, double quote (code 34), slash,
    backslash, bar, question mark, star. *)
Definition unsafe_chars : list ascii :=
  ["<"; ">"; ":"; "034"; "/"; "\"; "|"; "?"; "*"]%char.

Definition is_unsafe (c : ascii) : bool := existsb (Ascii.eqb c) unsafe_chars.

(** [re.sub] of that class by an underscore, over the whole string. *)
Fixpoint safe_filename (filename : string) : string :=
  match filename with
  | EmptyString => EmptyString
  | String c rest =>
      String (if is_unsafe c then "_"%char else c) (safe_filename rest)
  end.

Section DownloadAudio.
Context (E : Env).

Definition progress_msg (progress : pyval) (status : string) : pydict :=
  [("progress", progress); ("status", PStr status)].

Definition progress_hook (ws : WebSocket) (d : HookDict) : M unit :=
  match hook_status d with
  | None =>
      (* d['status'] raises KeyError('status') *)
      run_coroutine_threadsafe ws
        (progress_msg (PInt 0) ("Ошибка прогресса: " ++ "'status'"))
  | Some status =>
      if String.eqb status "downloading" then
        let percent_str :=
          str_strip E (remove_char "%" (default "0.0%" (hook_percent_str d))) in
        let percent := default 0%Q (py_float E percent_str) in
        run_coroutine_threadsafe ws (progress_msg (PFloat percent) "Загрузка...")
      else if String.eqb status "finished" then
        run_coroutine_threadsafe ws (progress_msg (PInt 95) "Конвертация в mp3...")
      else ret tt
  end.

Definition ydl_opts (out_folder : string) (max_filesize_mb : option Z) : YdlOpts :=
  {| opt_format :=
       match max_filesize_mb with
       | Some m =>
           if m =? 0 then "bestaudio/best"
           else "bestaudio[filesize<" ++ pretty m ++ "M]/best[filesize<" ++ pretty m ++ "M]"
       | None => "bestaudio/best"
       end;
     opt_outtmpl := OsPath.join out_folder "%(title)s.%(ext)s";
     opt_preferredcodec := "mp3";
     opt_preferredquality := "320";
     opt_noplaylist := true |}.

(** Lines 121-126: fetch the thumbnail and write it to [thumb_path]. *)
Definition fetch_thumbnail (url thumb_path : string) : M unit :=
  response <- lift_result (requests_get E url) ;;
  raise_if (resp_status_error response) ;;;
  raise_if (open_wb_error E thumb_path) ;;;
  modify (set_fs (fun m => <[thumb_path := File 0]> m)) ;;;
  modify (set_fs (fun m => <[thumb_path := File (foldr N.add 0%N (resp_chunks response))]> m)) ;;;
  raise_if (resp_stream_error response).

(** Lines 113-119: where the thumbnail goes. *)
Definition thumb_ext (thumb_url : string) : string :=
  if str_in "webp" (str_lower E thumb_url) then ".webp"
  else if str_in "png" (str_lower E thumb_url) then ".png"
  else ".jpg".

Definition thumbnail_path (out_folder title thumb_url : string) : string :=
  OsPath.join out_folder (title ++ "_thumbnail" ++ thumb_ext thumb_url).

(** Lines 102-133. *)
Definition download_thumbnail (ws : WebSocket) (out_folder title : string)
    (info : Info) : M (option string) :=
  let thumbnails := default [] (info_thumbnails info) in
  match last thumbnails with
  | Some t =>
      match thumb_url t with
      | Some url =>
          if String.eqb url "" then ret None
          else
            try_except
              (let thumb_path := thumbnail_path out_folder title url in
               fetch_thumbnail url thumb_path ;;;
               send_json E ws (progress_msg (PInt 95) "Миниатюра сохранена") ;;;
               ret (Some thumb_path))
              (fun e =>
                 send_json E ws
                   (progress_msg (PInt 95) ("Не удалось скачать обложку: " ++ str_exn e)) ;;;
                 ret None)
      | None => ret None
      end
  | None =>
      send_json E ws (progress_msg (PInt 95) "Миниатюра недоступна") ;;;
      ret None
  end.

Definition megabytes (size : N) : Q := (Z.of_N size # 1048576)%Q.

(** The message of lines 94-97. *)
Definition over_limit_msg (file_size_mb : Q) (max_filesize_mb : Z) : pydict :=
  progress_msg (PInt 0)
    ("Файл (" ++ format_1f E file_size_mb ++ " МБ) превышает лимит "
       ++ pretty max_filesize_mb ++ " МБ и был удален.").

Definition download_audio (url : string) (ws : WebSocket) (out_folder : string)
    (max_filesize_mb : option Z) : M (option string * option string) :=
  (present <- os_path_exists out_folder ;;
   if negb present then os_makedirs out_folder else ret tt) ;;;
  let opts := ydl_opts out_folder max_filesize_mb in
  try_except
    (send_json E ws (progress_msg (PInt 5) "Получение информации о видео...") ;;;
     info <- lift_result (ydl_extract_info E opts url) ;;
     let title := safe_filename (default "audio" (info_title info)) in
     send_json E ws (progress_msg (PInt 10) ("Начинаем скачивание: " ++ title)) ;;;
     info <- extract_info_download E opts (progress_hook ws) url ;;
     original_filename <- lift_result (ydl_prepare_filename E info) ;;
     let mp3_path := (OsPath.splitext original_filename).1 ++ ".mp3" in
     present <- os_path_exists mp3_path ;;
     if negb present then
       send_json E ws (progress_msg (PInt 0) "Ошибка: mp3 файл не был создан") ;;;
       ret (None, None)
     else
       let finish :=
         send_json E ws (progress_msg (PInt 90) "Скачивание миниатюры...") ;;;
         thumb_path <- download_thumbnail ws out_folder title info ;;
         send_json E ws (progress_msg (PInt 100) "Готово!") ;;;
         ret (Some mp3_path, thumb_path) in
       match max_filesize_mb with
       | Some m =>
           if m =? 0 then finish
           else
             size <- os_path_getsize mp3_path ;;
             let file_size_mb := megabytes size in
             if negb (Qle_bool file_size_mb (inject_Z m)) then
               os_remove mp3_path ;;;
               send_json E ws (over_limit_msg file_size_mb m) ;;;
               ret (None, None)
             else finish
       | None => finish
       end)
    (fun e =>
       send_json E ws (progress_msg (PInt 0) ("Ошибка: " ++ str_exn e)) ;;;
       ret (None, None)).

End DownloadAudio.
End DownloadYt.

(** ** [app/app.py] *)

Module App.
Import PyStr.

Definition DOWNLOAD_FOLDER : string := "download".
Definition STATIC_FOLDER : string := "static".
Definition MAX_FILE_SIZE_MB : Z := 50.
Definition SUPPORTED_PLATFORMS : list string := ["youtube"; "youtu.be"].
Definition COMING_SOON_PLATFORMS : list string := ["vk.com"; "soundcloud.com"; "spotify.com"].

(** A file to be sent back, as [FileResponse] gets it. *)
Record FileResponse := {
  fr_path : string;
  fr_filename : string;
  fr_media_type : string;
  fr_headers : pydict
}.

(** The JSON body of [POST /api/download/url]. *)
Record DownloadRequest := { req_url : option string; req_maxsize : option Z }.

Section Handlers.
Context (E : Env).

(** *** [DownloadManager] *)

Definition create_download_task (url : string) (maxsize : Z) : M string :=
  task_id <- uuid_uuid4 E ;;
  created_at <- datetime_now E ;;
  modify (set_downloads (fun m =>
    <[task_id := [("url", PStr url);
                  ("maxsize", PInt maxsize);
                  ("status", PStr "created");
                  ("progress", PInt 0);
                  ("created_at", PStr created_at);
                  ("mp3_path", PNone);
                  ("thumb_path", PNone);
                  ("error", PNone)]]> m)) ;;;
  ret task_id.

Definition update_download (task_id : string) (kwargs : pydict) : M unit :=
  w <- get_world ;;
  match downloads w !! task_id with
  | Some _ =>
      modify (set_downloads (fun m => alter (fun job => dict_update job kwargs) task_id m)) ;;;
      updated_at <- datetime_now E ;;
      modify (set_downloads (fun m =>
        alter (fun job => dict_set "updated_at" (PStr updated_at) job) task_id m))
  | None => ret tt
  end.

Definition get_download (task_id : string) : M (option pydict) :=
  w <- get_world ;;
  ret (downloads w !! task_id).

(** [get_download_status], lines 232-239: an unknown id (or an empty
    record, which is falsy) is answered with 404. *)
Definition get_download_status (task_id : string) : M pydict :=
  download <- get_download task_id ;;
  match download with
  | Some (field :: fields) => ret (field :: fields)
  | _ => raise (HTTPException 404 "Задача загрузки не найдена")
  end.

(** *** Platform classification *)

Definition is_supported_platform (url : string) : bool :=
  existsb (fun platform => str_in platform (str_lower E url)) SUPPORTED_PLATFORMS.

Definition is_coming_soon (url : string) : bool :=
  existsb (fun coming_soon => str_in coming_soon (str_lower E url)) COMING_SOON_PLATFORMS.

Definition get_platform_from_url (url : string) : string :=
  if existsb (fun platform => str_in platform (str_lower E url)) SUPPORTED_PLATFORMS
  then "YouTube"
  else
    match find (fun platform => str_in platform (str_lower E url)) COMING_SOON_PLATFORMS with
    | Some platform => upper platform
    | None => "Неизвестная платформа"
    end.

(** *** [websocket_download] *)

Definition size_error : string :=
  "Размер файла должен быть от 1 до " ++ pretty MAX_FILE_SIZE_MB ++ " МБ".

Definition coming_soon_msg (platform : string) : pydict :=
  [("error", PStr ("Поддержка " ++ platform ++ " скоро будет добавлена! 🚀"));
   ("coming_soon", PBool true);
   ("platform", PStr platform)].

Definition failed_text (maxsize : Z) : string :=
  "Не удалось скачать файл или он превышает " ++ pretty maxsize ++ " МБ".

(** [mp3_path and os.path.exists(mp3_path)] *)
Definition path_ready (path : option string) : M bool :=
  match path with
  | Some p => if String.eqb p "" then ret false else os_path_exists p
  | None => ret false
  end.

(** Lines 130-176: what the handler does once the job exists. *)
Definition download_and_report (url : string) (maxsize : Z) (platform task_id : string)
    : M unit :=
  send_json E RealWS
    [("status", PStr ("Начинаем загрузку с " ++ platform ++ "..."));
     ("progress", PInt 0);
     ("task_id", PStr task_id)] ;;;
  paths <- DownloadYt.download_audio E url RealWS DOWNLOAD_FOLDER (Some maxsize) ;;
  let '(mp3_path, thumb_path) := paths in
  ready <- path_ready mp3_path ;;
  if ready then
    let mp3 := default "" mp3_path in
    update_download task_id
      [("status", PStr "completed");
       ("progress", PInt 100);
       ("mp3_path", opt_str mp3_path);
       ("thumb_path", opt_str thumb_path)] ;;;
    size <- os_path_getsize mp3 ;;
    let response_data :=
      [("message", PStr "Загрузка завершена успешно! 🎵");
       ("download_url", PStr ("/api/file/" ++ OsPath.basename mp3));
       ("task_id", PStr task_id);
       ("file_size_mb", PFloat (round2 E (DownloadYt.megabytes size)))] in
    thumb_ready <- path_ready thumb_path ;;
    let response_data :=
      if thumb_ready
      then dict_set "thumbnail_url"
             (PStr ("/api/file/" ++ OsPath.basename (default "" thumb_path))) response_data
      else response_data in
    send_json E RealWS response_data
  else
    update_download task_id
      [("status", PStr "failed"); ("error", PStr (failed_text maxsize))] ;;;
    send_json E RealWS
      [("error", PStr (failed_text maxsize)); ("task_id", PStr task_id)].

(** The body of the [try] block, lines 101-176. *)
Definition websocket_download_body (connection_id url : string) (maxsize : Z) : M unit :=
  raise_if (ws_accept_error E) ;;;
  modify (set_active_connections (fun s => {[connection_id]} ∪ s)) ;;;
  if String.eqb url "" || String.eqb (str_strip E url) "" then
    send_json E RealWS [("error", PStr "URL не может быть пустым")]
  else if (maxsize <=? 0) || (MAX_FILE_SIZE_MB <? maxsize) then
    send_json E RealWS [("error", PStr size_error)]
  else
    let platform := get_platform_from_url url in
    if negb (is_supported_platform url) then
      if is_coming_soon url then send_json E RealWS (coming_soon_msg platform)
      else send_json E RealWS
             [("error", PStr "Неподдерживаемая платформа. Поддерживается только YouTube.")]
    else
      task_id <- create_download_task url maxsize ;;
      download_and_report url maxsize platform task_id.

(** [try: m  except: pass] *)
Definition swallow (m : M unit) : M unit := try_except m (fun _ => ret tt).

(** The [except] clauses, lines 178-185. *)
Definition on_error (e : exn) : M unit :=
  match e with
  | WebSocketDisconnect _ => ret tt
  | _ => swallow (send_json E RealWS [("error", PStr ("Произошла ошибка: " ++ str_exn e))])
  end.

(** The [finally] clause, lines 186-193. *)
Definition teardown (connection_id : string) : M unit :=
  modify (set_active_connections (fun s => s ∖ {[connection_id]})) ;;;
  swallow (raise_if (ws_close_error E)).

Definition websocket_download (url : string) (maxsize : Z) : M unit :=
  connection_id <- uuid_uuid4 E ;;
  try_finally
    (try_except (websocket_download_body connection_id url maxsize) on_error)
    (teardown connection_id).

(** *** [api_download_url] *)

Definition api_download_url (data : DownloadRequest) : M pydict :=
  let maxsize := default 15 (req_maxsize data) in
  match req_url data with
  | None => raise (HTTPException 400 "URL обязателен")
  | Some url =>
      if String.eqb url "" then raise (HTTPException 400 "URL обязателен")
      else if negb (is_supported_platform url) then
        let platform := get_platform_from_url url in
        if is_coming_soon url then ret (coming_soon_msg platform)
        else raise (HTTPException 400 "Неподдерживаемая платформа")
      else
        try_except
          (paths <- DownloadYt.download_audio E url MockWS DOWNLOAD_FOLDER (Some maxsize) ;;
           let '(mp3_path, thumb_path) := paths in
           ready <- path_ready mp3_path ;;
           if ready then
             let mp3 := default "" mp3_path in
             size <- os_path_getsize mp3 ;;
             let response_data :=
               [("message", PStr "Файл готов");
                ("download_url", PStr ("/api/file/" ++ OsPath.basename mp3));
                ("file_size_mb", PFloat (round2 E (DownloadYt.megabytes size)))] in
             thumb_ready <- path_ready thumb_path ;;
             ret (if thumb_ready
                  then dict_set "thumbnail_url"
                         (PStr ("/api/file/" ++ OsPath.basename (default "" thumb_path)))
                         response_data
                  else response_data)
           else
             raise (HTTPException 400
                      ("Файл слишком большой или произошла ошибка. Максимум "
                         ++ pretty maxsize ++ " МБ.")))
          (fun e => raise (HTTPException 500 (str_exn e)))
  end.

(** *** [serve_file] *)

Definition media_type_of (file_ext : string) : string :=
  if String.eqb file_ext ".mp3" then "audio/mpeg"
  else if String.eqb file_ext ".jpg" || String.eqb file_ext ".jpeg" then "image/jpeg"
  else if String.eqb file_ext ".png" then "image/png"
  else if String.eqb file_ext ".webp" then "image/webp"
  else "application/octet-stream".

Definition serve_file (file_name : string) : M FileResponse :=
  if str_in ".." file_name || str_in "/" file_name || str_in "\" file_name then
    raise (HTTPException 400 "Недопустимое имя файла")
  else
    let file_path := OsPath.join DOWNLOAD_FOLDER file_name in
    present <- os_path_exists file_path ;;
    if negb present then raise (HTTPException 404 "Файл не найден")
    else
      let file_ext := str_lower E (OsPath.splitext file_name).2 in
      ret {| fr_path := file_path;
             fr_filename := file_name;
             fr_media_type := media_type_of file_ext;
             fr_headers := [("Cache-Control", PStr "public, max-age=3600")] |}.

(** *** [get_stats] *)

(** [f.endswith(suffix)] *)
Definition endswith (suffix s : string) : bool :=
  (String.length suffix <=? String.length s)%nat &&
  String.eqb
    (String.substring (String.length s - String.length suffix) (String.length suffix) s)
    suffix.

(** [sum(os.path.getsize(os.path.join(DOWNLOAD_FOLDER, f)) for f in download_files)] *)
Fixpoint total_size (download_files : list string) (total : N) : M N :=
  match download_files with
  | [] => ret total
  | f :: rest =>
      size <- os_path_getsize (OsPath.join DOWNLOAD_FOLDER f) ;;
      total_size rest (total + size)%N
  end.

Definition get_stats : M pydict :=
  filenames <- os_listdir DOWNLOAD_FOLDER ;;
  let download_files := List.filter (endswith ".mp3") filenames in
  total <- total_size download_files 0%N ;;
  w <- get_world ;;
  ret [("total_downloads", PInt (Z.of_nat (List.length download_files)));
       ("total_size_mb", PFloat (round2 E (DownloadYt.megabytes total)));
       ("active_connections", PInt (Z.of_nat (size (active_connections w))));
       ("supported_platforms", PInt (Z.of_nat (List.length SUPPORTED_PLATFORMS)));
       ("coming_soon_platforms", PInt (Z.of_nat (List.length COMING_SOON_PLATFORMS)))].

(** *** [cleanup_old_files] *)

(** The loop of lines 348-352, [files_deleted] being the counter. *)
Fixpoint remove_files (filenames : list string) (files_deleted : nat) : M nat :=
  match filenames with
  | [] => ret files_deleted
  | filename :: rest =>
      let file_path := OsPath.join DOWNLOAD_FOLDER filename in
      is_file <- os_path_isfile file_path ;;
      if is_file then os_remove file_path ;;; remove_files rest (S files_deleted)
      else remove_files rest files_deleted
  end.

Definition cleanup_old_files : M pydict :=
  try_except
    (filenames <- os_listdir DOWNLOAD_FOLDER ;;
     files_deleted <- remove_files filenames 0 ;;
     ret [("message", PStr ("Удалено " ++ pretty files_deleted ++ " файлов"))])
    (fun e => raise (HTTPException 500 (str_exn e))).

End Handlers.
End App.

(** ** A concrete environment, to run the handlers *)

Module Demo.
Import PyStr.

(** [float] on the decimal strings yt-dlp prints, such as [12.5]:
    digits, an optional point, digits. *)
Definition digit_of (c : ascii) : option Z :=
  let n := nat_of_ascii c in
  if (48 <=? n)%nat && (n <=? 57)%nat then Some (Z.of_nat (n - 48)) else None.

Fixpoint parse_decimal (s : string) (num den : Z) (seen_digit after_point : bool) : option Q :=
  match s with
  | EmptyString => if seen_digit then Some (num # Z.to_pos den)%Q else None
  | String c rest =>
      if Ascii.eqb c "." then
        if after_point then None else parse_decimal rest num den seen_digit true
      else
        match digit_of c with
        | Some d =>
            parse_decimal rest (10 * num + d) (if after_point then 10 * den else den)
              true after_point
        | None => None
        end
  end.

Definition float_of_decimal (s : string) : option Q := parse_decimal s 0 1 false false.

Definition info : Info :=
  {| info_title := Some "My/Song:Title*";
     info_thumbnails := Some [{| thumb_url := Some "https://i.ytimg.com/vi/abc123/hq.webp" |}] |}.

(** An extractor that reports the given hook calls and leaves a file of
    [size] bytes at [download/My_Song_Title_.mp3]. *)
Definition env (send_error : nat -> option exn) (runs : nat -> nat)
    (calls : list HookDict) (size : N) : Env :=
  {| str_lower := ascii_lower;
     str_strip := ascii_strip;
     py_float := float_of_decimal;
     format_1f := fun _ => "?";
     round2 := fun q => q;
     uuid4 := fun n => "uuid-" ++ pretty n;
     now_isoformat := fun n => "t" ++ pretty n;
     ws_accept_error := None;
     ws_send_error := send_error;
     ws_close_error := None;
     loop_runs := runs;
     ydl_extract_info := fun _ _ => Ok info;
     ydl_download := fun _ _ files =>
       (calls, <["download/My_Song_Title_.mp3" := File size]> files, Ok info);
     ydl_prepare_filename := fun _ => Ok "download/My_Song_Title_.webm";
     requests_get := fun _ => Raise (Exception "timed out");
     open_wb_error := fun _ => None |}.

Definition world0 : World :=
  {| downloads := ∅; active_connections := ∅; fs := {["download" := Dir]};
     ws_log := []; loop_queue := []; n_uuid := 0; n_clock := 0 |}.

Definition always_delivered : nat -> option exn := fun _ => None.

(** A client that is gone from the [k]-th send on. *)
Definition gone_from (k : nat) : nat -> option exn :=
  fun n => if (k <=? n)%nat then Some (WebSocketDisconnect "") else None.
Definition run_all : nat -> nat := fun _ => 1000%nat.


(** The environment [E] with another extractor, and with another
    thumbnail server. *)
Definition with_extractor (E : Env)
    (extract : YdlOpts -> string -> result Info)
    (download : YdlOpts -> string -> gmap string node ->
                list HookDict * gmap string node * result Info) : Env :=
  {| str_lower := str_lower E; str_strip := str_strip E; py_float := py_float E;
     format_1f := format_1f E; round2 := round2 E; uuid4 := uuid4 E;
     now_isoformat := now_isoformat E; ws_accept_error := ws_accept_error E;
     ws_send_error := ws_send_error E; ws_close_error := ws_close_error E;
     loop_runs := loop_runs E;
     ydl_extract_info := extract;
     ydl_download := download;
     ydl_prepare_filename := ydl_prepare_filename E;
     requests_get := requests_get E; open_wb_error := open_wb_error E |}.

Definition with_requests (E : Env) (get : string -> result Response) : Env :=
  {| str_lower := str_lower E; str_strip := str_strip E; py_float := py_float E;
     format_1f := format_1f E; round2 := round2 E; uuid4 := uuid4 E;
     now_isoformat := now_isoformat E; ws_accept_error := ws_accept_error E;
     ws_send_error := ws_send_error E; ws_close_error := ws_close_error E;
     loop_runs := loop_runs E;
     ydl_extract_info := ydl_extract_info E;
     ydl_download := ydl_download E;
     ydl_prepare_filename := ydl_prepare_filename E;
     requests_get := get; open_wb_error := open_wb_error E |}.

End Demo.

(** ** Observations on a run *)

(** The [progress] value of a message, as a rational. *)
Definition progress_of (msg : pydict) : option Q :=
  match dict_get "progress" msg with
  | Some (PInt z) => Some (inject_Z z)
  | Some (PFloat q) => Some q
  | _ => None
  end.

(** The messages that reached the client, oldest first. *)
Definition delivered (log : list Delivery) : list Delivery :=
  filter (fun d => dl_error d = None) log.



Definition job_status (w : World) (task_id : string) : option pyval :=
  job ← downloads w !! task_id; dict_get "status" job.

Definition job_field (w : World) (task_id field : string) : option pyval :=
  job ← downloads w !! task_id; dict_get field job.

(** The send attempts the handler itself made, oldest first. *)
Definition handler_log (w : World) : list Delivery :=
  filter (fun d => dl_origin d = Handler) (ws_log w).

Definition handler_msgs (w : World) : list pydict := dl_msg <$> handler_log w.








(** A connection that has just been opened. *)
Definition fresh_connection (w : World) : Prop :=
  ws_log w = [] ∧ loop_queue w = [].

(** The client stays connected: no send on the connection fails. *)
Definition connection_alive (E : Env) : Prop := ∀ n, ws_send_error E n = None.

(** A request the streaming endpoint accepts: the connection is
    established, the url is not blank, the size is within 1..50 and the
    url names a supported platform. *)
Definition accepted_request (E : Env) (url : string) (maxsize : Z) : Prop :=
  ws_accept_error E = None ∧
  (String.eqb url "" || String.eqb (str_strip E url) "") = false ∧
  1 ≤ maxsize ≤ App.MAX_FILE_SIZE_MB ∧
  App.is_supported_platform E url = true.

(** The record [create_download_task] stores. *)
Definition new_job (url : string) (maxsize : Z) (created_at : string) : pydict :=
  [("url", PStr url); ("maxsize", PInt maxsize); ("status", PStr "created");
   ("progress", PInt 0); ("created_at", PStr created_at); ("mp3_path", PNone);
   ("thumb_path", PNone); ("error", PNone)].

(** The state in which an accepted request starts its download: the
    connection is registered and the job is stored. *)
Definition job_created (E : Env) (url : string) (maxsize : Z) (w : World) : World :=
  set_downloads
    (fun m => <[uuid4 E (S (n_uuid w)) := new_job url maxsize (now_isoformat E (n_clock w))]> m)
    (tick_clock (tick_uuid
       (set_active_connections (fun s => {[uuid4 E (n_uuid w)]} ∪ s) (tick_uuid w)))).

(** What a run after the creation of job [task_id] keeps true of the job
    store: the ids are those present at that point, and the other jobs are
    as they were. *)
Definition same_jobs (task_id : string) (d0 : gmap string pydict)
    (d : gmap string pydict) : Prop :=
  dom d = dom d0 ∧ ∀ other, other ≠ task_id → d !! other = d0 !! other.

(** The file system [download_audio] hands to the extractor: the one it
    was called in, with the output folder made if it was missing. *)
Definition ensure_dir (folder : string) (files : gmap string node) : gmap string node :=
  if bool_decide (is_Some (lookup_path files folder)) then files
  else <[folder := Dir]> files.

Definition files_at_download (folder : string) (w : World) : gmap string node :=
  ensure_dir folder (fs w).


(** Thumbnail retrieval fails: the metadata lists no thumbnail, the last
    one has no url, the request raises (connection error, timeout), the
    status is an error, the file cannot be opened, or the body breaks
    off. *)
Definition thumbnail_fails (E : Env) (out_folder title : string) (info : Info) : Prop :=
  match last (default [] (info_thumbnails info)) with
  | None => True
  | Some t =>
      match thumb_url t with
      | None => True
      | Some url =>
          url = "" ∨
          match requests_get E url with
          | Raise _ => True
          | Ok response =>
              is_Some (resp_status_error response) ∨
              is_Some (open_wb_error E (DownloadYt.thumbnail_path E out_folder title url)) ∨
              is_Some (resp_stream_error response)
          end
      end
  end.

(** A progress message of the thumbnail step: 95 with a status text. *)
Definition thumbnail_note (msg : pydict) : Prop :=
  ∃ text, msg = DownloadYt.progress_msg (PInt 95) text.

(** The part of the state a run with a live connection is followed by:
    the files, the job store and the messages the handler has sent. *)
Definition at_state (files : gmap string node) (jobs : gmap string pydict)
    (msgs : list pydict) (w : World) : Prop :=
  fs w = files ∧ downloads w = jobs ∧ handler_msgs w = msgs.

(** From a state satisfying [P], [m] returns [a] in a state satisfying
    [Q]; or raises [e] in such a state. *)
Definition runs_to {A} (m : M A) (P : World -> Prop) (a : A) (Q : World -> Prop) : Prop :=
  ∀ w, P w → ∃ w', m w = (Ok a, w') ∧ Q w'.

Definition raises_to {A} (m : M A) (P : World -> Prop) (e : exn) (Q : World -> Prop) : Prop :=
  ∀ w, P w → ∃ w', m w = (Raise e, w') ∧ Q w'.

(** ** Specifications of computations

    [triple P m Q X]: from a state satisfying [P], [m] either returns [a]
    in a state satisfying [Q a] or raises [e] in a state satisfying
    [X e]. *)
Definition post {A} (Q : A -> World -> Prop) (X : exn -> World -> Prop)
    (r : result A * World) : Prop :=
  match r with
  | (Ok a, w) => Q a w
  | (Raise e, w) => X e w
  end.

Definition triple {A} (P : World -> Prop) (m : M A)
    (Q : A -> World -> Prop) (X : exn -> World -> Prop) : Prop :=
  ∀ w, P w → post Q X (m w).

(** [m] keeps the state invariant [I], whatever its outcome. *)
Definition keeps {A} (I : World -> Prop) (m : M A) : Prop :=
  ∀ w, I w → I (m w).2.

(** [m] leaves the component [f] of the state as it was, whatever its
    outcome. *)
Definition frames {A T} (f : World -> T) (m : M A) : Prop :=
  ∀ w, f (m w).2 = f w.

(** Components that neither the connection nor the file system can
    change: the job store, the connection registry, the counters. *)
Definition ignores_io {T} (f : World -> T) : Prop :=
  (∀ g w, f (set_ws_log g w) = f w) ∧
  (∀ g w, f (set_loop_queue g w) = f w) ∧
  (∀ g w, f (set_fs g w) = f w).

(** [m] returns: it raises from no state. *)
Definition returns {A} (m : M A) : Prop :=
  ∀ w, ∃ a w', m w = (Ok a, w').

(** The status of a job that has reached the end of its life. *)
Definition terminal_status (status : option pyval) : Prop :=
  status = Some (PStr "completed") ∨ status = Some (PStr "failed").

(** The keyword arguments [update_download] is called with never name
    one of the fields fixed at creation. *)
Definition keeps_identity (kwargs : pydict) : Prop :=
  dict_get "url" (reverse kwargs) = None ∧
  dict_get "maxsize" (reverse kwargs) = None ∧
  dict_get "created_at" (reverse kwargs) = None.

(** The job [task_id] is stored with the given url, size and creation
    time. *)
Definition job_identity (task_id url : string) (maxsize : Z) (created_at : string)
    (d : gmap string pydict) : Prop :=
  ∃ job,
    d !! task_id = Some job ∧
    dict_get "url" job = Some (PStr url) ∧
    dict_get "maxsize" job = Some (PInt maxsize) ∧
    dict_get "created_at" job = Some (PStr created_at).

(** The size [os.path.getsize] reports for an entry, and what it means
    for an entry to respect the limit [download_audio] was given (no
    limit, or 0, switches the check off). *)
Definition node_size (entry : node) : N :=
  match entry with
  | File n => n
  | Dir => 4096%N
  end.

Definition within_size_limit (max_filesize_mb : option Z) (entry : node) : Prop :=
  match max_filesize_mb with
  | Some m => m = 0 ∨ (DownloadYt.megabytes (node_size entry) <= inject_Z m)%Q
  | None => True
  end.

(** What a pair returned by [download_audio] looks like in the state it
    is returned in. *)
Definition audio_result_ok (max_filesize_mb : option Z)
    (r : option string * option string) (w : World) : Prop :=
  (r.1 = None → r.2 = None) ∧
  (∀ p, r.1 = Some p →
        (∃ root, p = root ++ ".mp3") ∧
        ∃ entry, fs w !! p = Some entry ∧ within_size_limit max_filesize_mb entry) ∧
  (∀ t, r.2 = Some t → ∃ n, fs w !! t = Some (File n)).

(** The job store and the files agree on job [task_id]: if the job is
    completed, its [mp3_path] names an entry that is there, ends in
    [.mp3] and is within the limit of [maxsize] megabytes. *)
Definition completed_has_file (task_id : string) (maxsize : Z)
    (st : gmap string pydict * gmap string node) : Prop :=
  (st.1 !! task_id ≫= dict_get "status") = Some (PStr "completed") →
  ∃ p entry,
    (st.1 !! task_id ≫= dict_get "mp3_path") = Some (PStr p) ∧
    (∃ root, p = root ++ ".mp3") ∧
    st.2 !! p = Some entry ∧
    within_size_limit (Some maxsize) entry.

(** A file kept directly in [folder], and the size of the entry kept
    under [name] in the download folder. *)
Definition file_in (folder : string) (files : gmap string node) (path : string) : bool :=
  match child_name folder path, files !! path with
  | Some _, Some (File _) => true
  | _, _ => false
  end.

Definition size_in_downloads (files : gmap string node) (name : string) : N :=
  default 0%N (node_size <$> files !! ("download/" ++ name)).

(** The last message of the handler is the verdict on job [task_id],
    and says what the job store says: a download link to the stored
    [mp3_path] when the job is completed, the error stored with the job
    when it is failed. *)
Definition verdict_agrees (task_id : string) (maxsize : Z) (w : World) : Prop :=
  ∃ msg,
    last (handler_msgs w) = Some msg ∧
    dict_get "task_id" msg = Some (PStr task_id) ∧
    ((job_field w task_id "status" = Some (PStr "completed") ∧
      dict_get "error" msg = None ∧
      ∃ p, job_field w task_id "mp3_path" = Some (PStr p) ∧
           dict_get "download_url" msg = Some (PStr ("/api/file/" ++ OsPath.basename p))) ∨
     (job_field w task_id "status" = Some (PStr "failed") ∧
      dict_get "download_url" msg = None ∧
      dict_get "error" msg = Some (PStr (App.failed_text maxsize)) ∧
      job_field w task_id "error" = Some (PStr (App.failed_text maxsize)))).

(** The queue of the loop has grown from [base] by coroutines of the
    mock connection only. *)
Definition mock_only_since (base queue : list (WebSocket * pydict)) : Prop :=
  ∃ queued, queue = (base ++ queued)%list ∧ Forall (fun c => c.1 = MockWS) queued.

(** ** Proofs *)

Section TripleRules.
Context {A B : Type}.
Implicit Types (P : World -> Prop) (X : exn -> World -> Prop).

Lemma triple_ret P (a : A) (Q : A -> World -> Prop) X :
  (∀ w, P w → Q a w) → triple P (ret a) Q X.
Proof. intros H w Hw. by apply H. Qed.

Lemma triple_raise P (e : exn) (Q : A -> World -> Prop) X :
  (∀ w, P w → X e w) → triple P (raise e) Q X.
Proof. intros H w Hw. by apply H. Qed.

Lemma triple_bind P (m : M A) (k : A -> M B) (R : A -> World -> Prop)
    (Q : B -> World -> Prop) X :
  triple P m R X → (∀ a, triple (R a) (k a) Q X) → triple P (bind m k) Q X.
Proof.
  intros Hm Hk w Hw. specialize (Hm w Hw). unfold bind, post in *.
  destruct (m w) as [[a|e] w']; [by apply Hk | done].
Qed.

Lemma triple_try_except P (m : M A) (h : exn -> M A) (Q : A -> World -> Prop)
    (X' X : exn -> World -> Prop) :
  triple P m Q X' → (∀ e, triple (X' e) (h e) Q X) → triple P (try_except m h) Q X.
Proof.
  intros Hm Hh w Hw. specialize (Hm w Hw). unfold try_except, post in *.
  destruct (m w) as [[a|e] w']; [done | by apply Hh].
Qed.

Lemma triple_conseq (P P' : World -> Prop) (m : M A) (Q Q' : A -> World -> Prop)
    (X X' : exn -> World -> Prop) :
  triple P' m Q' X' →
  (∀ w, P w → P' w) → (∀ a w, Q' a w → Q a w) → (∀ e w, X' e w → X e w) →
  triple P m Q X.
Proof.
  intros Hm HP HQ HX w Hw. specialize (Hm w (HP w Hw)). unfold post in *.
  destruct (m w) as [[a|e] w']; auto.
Qed.

Lemma triple_try_finally P (m : M A) (fin : M unit) (Q Q' : A -> World -> Prop)
    (X X' : exn -> World -> Prop) :
  triple P m Q' X' →
  (∀ a, triple (Q' a) fin (fun _ => Q a) X) →
  (∀ e, triple (X' e) fin (fun _ => X e) X) →
  triple P (try_finally m fin) Q X.
Proof.
  intros Hm Hok Hraise w Hw. specialize (Hm w Hw). unfold try_finally, post in *.
  destruct (m w) as [[a|e] w'].
  - specialize (Hok a w' Hm). by destruct (fin w') as [[[]|e'] w''].
  - specialize (Hraise e w' Hm). by destruct (fin w') as [[[]|e'] w''].
Qed.

Lemma triple_frame {T} (f : World -> T) (I : T -> Prop) P (m : M A)
    (Q : A -> World -> Prop) X :
  triple P m Q X → frames f m →
  triple (fun w => P w ∧ I (f w)) m
         (fun a w => Q a w ∧ I (f w)) (fun e w => X e w ∧ I (f w)).
Proof.
  intros Hm Hf w [Hw HI]. specialize (Hm w Hw). specialize (Hf w). unfold post in *.
  destruct (m w) as [[a|e] w']; simpl in *; by rewrite Hf.
Qed.

Lemma keeps_ret I (a : A) : keeps I (ret a).
Proof. by intros w Hw. Qed.

Lemma keeps_raise I (e : exn) : keeps I (raise (A := A) e).
Proof. by intros w Hw. Qed.

Lemma keeps_lift_result I (r : result A) : keeps I (lift_result r).
Proof. by intros w Hw. Qed.

Lemma keeps_bind I (m : M A) (k : A -> M B) :
  keeps I m → (∀ a, keeps I (k a)) → keeps I (bind m k).
Proof.
  intros Hm Hk w Hw. specialize (Hm w Hw). unfold bind.
  destruct (m w) as [[a|e] w'] eqn:Heq; simpl in *; [by apply Hk | done].
Qed.

Lemma keeps_try_except I (m : M A) (h : exn -> M A) :
  keeps I m → (∀ e, keeps I (h e)) → keeps I (try_except m h).
Proof.
  intros Hm Hh w Hw. specialize (Hm w Hw). unfold try_except.
  destruct (m w) as [[a|e] w'] eqn:Heq; simpl in *; [done | by apply Hh].
Qed.

Lemma keeps_try_finally I (m : M A) (f : M unit) :
  keeps I m → keeps I f → keeps I (try_finally m f).
Proof.
  intros Hm Hf w Hw. specialize (Hm w Hw). unfold try_finally.
  destruct (m w) as [r w'] eqn:Heq; simpl in *.
  specialize (Hf w' Hm). destruct (f w') as [[[]|e] w'']; done.
Qed.

Lemma keeps_triple I (m : M A) :
  keeps I m → triple I m (fun _ => I) (fun _ => I).
Proof.
  intros Hm w Hw. specialize (Hm w Hw). unfold post.
  by destruct (m w) as [[a|e] w'].
Qed.

End TripleRules.

(** *** Paths: aliases of directories, and the audio file and the
    thumbnail having different paths *)

Section Paths.
Import PyStr DownloadYt.

Lemma append_cons a (s t : string) : String a s ++ t = String a (s ++ t).
Proof. reflexivity. Qed.

Lemma append_assoc (s t u : string) : (s ++ t) ++ u = s ++ (t ++ u).
Proof. induction s as [|a s IH]; [done|]. by rewrite !append_cons, IH. Qed.

Lemma last_char_app (s t : string) :
  t ≠ "" → last_char (s ++ t) = last_char t.
Proof.
  intros Ht. induction s as [|a s IH]; [done|].
  rewrite append_cons. simpl. rewrite IH.
  destruct t as [|b t]; [done|]. simpl. by destruct (last_char t).
Qed.

Lemma append_nonempty (s t : string) : t ≠ "" → s ++ t ≠ "".
Proof. intros Ht. destruct s; [done|]. by rewrite append_cons. Qed.

Lemma join_suffix (a b : string) : ∃ p, OsPath.join a b = p ++ b.
Proof.
  unfold OsPath.join. destruct (String.prefix "/" b); [by exists ""|].
  destruct (_ || _); [by exists a|].
  exists (a ++ "/"). by rewrite append_assoc.
Qed.

Lemma mp3_not_thumbnail E (root out_folder title url : string) :
  root ++ ".mp3" ≠ thumbnail_path E out_folder title url.
Proof.
  intros Heq. apply (f_equal last_char) in Heq.
  rewrite last_char_app in Heq by done.
  unfold thumbnail_path in Heq.
  destruct (join_suffix out_folder (title ++ "_thumbnail" ++ thumb_ext E url)) as [p Hp].
  rewrite Hp, <- !append_assoc in Heq.
  unfold thumb_ext in Heq.
  repeat case_match; by rewrite last_char_app in Heq.
Qed.

Lemma dir_alias_last (path folder : string) :
  dir_alias path = Some folder →
  last_char path = Some "/"%char ∨ last_char path = Some "."%char.
Proof.
  revert folder. induction path as [|a rest IH]; intros folder; simpl; [done|].
  destruct (Ascii.eqb a "/" && (String.eqb rest "" || String.eqb rest ".")) eqn:Hhere.
  - intros _. apply andb_true_iff in Hhere as [Ha Hrest]. apply Ascii.eqb_eq in Ha as ->.
    apply orb_true_iff in Hrest as [Hr|Hr]; apply String.eqb_eq in Hr as ->; simpl; auto.
  - destruct (dir_alias rest) as [d|] eqn:Hd; [|done]. intros _.
    destruct (IH d eq_refl) as [Hl|Hl]; rewrite Hl; auto.
Qed.

(** A path with an extension is no alias of a directory. *)
Lemma dir_alias_ext (s ext : string) :
  ext ≠ "" → last_char ext ≠ Some "/"%char → last_char ext ≠ Some "."%char →
  dir_alias (s ++ ext) = None.
Proof.
  intros Hne Hslash Hdot. destruct (dir_alias (s ++ ext)) as [d|] eqn:Hd; [|done].
  apply dir_alias_last in Hd. rewrite last_char_app in Hd by done. by destruct Hd.
Qed.

Lemma dir_alias_mp3 (root : string) : dir_alias (root ++ ".mp3") = None.
Proof. by apply dir_alias_ext. Qed.

Lemma dir_alias_thumbnail E (out_folder title url : string) :
  dir_alias (thumbnail_path E out_folder title url) = None.
Proof.
  unfold thumbnail_path.
  destruct (join_suffix out_folder (title ++ "_thumbnail" ++ thumb_ext E url)) as [p ->].
  rewrite <- !append_assoc. unfold thumb_ext.
  repeat case_match; by apply dir_alias_ext.
Qed.

Lemma slash_free_cons (a : ascii) (s : string) :
  str_in "/" (String a s) = false → a ≠ "/"%char ∧ str_in "/" s = false.
Proof.
  intros H.
  change (str_in "/" (String a s)) with (String.prefix "/" (String a s) || str_in "/" s) in H.
  apply orb_false_iff in H as [Ha Hs]. split; [|done].
  intros ->. assert (String.prefix "/" (String "/" s) = true) as Ht; [|congruence].
  apply String.prefix_correct. simpl. by destruct s.
Qed.

Lemma dir_alias_slash_free (s : string) : str_in "/" s = false → dir_alias s = None.
Proof.
  induction s as [|a s IH]; [done|]. intros H.
  apply slash_free_cons in H as [Ha Hs]. simpl.
  destruct (Ascii.eqb_spec a "/"); [done|]. simpl. by rewrite IH.
Qed.

Lemma dir_alias_app_slash (pre name : string) :
  str_in "/" pre = false →
  dir_alias (pre ++ String "/" name) =
  if String.eqb name "" || String.eqb name "." then Some pre
  else option_map (fun d => pre ++ String "/" d) (dir_alias name).
Proof.
  induction pre as [|a pre IH]; intros Hpre.
  - change ("" ++ String "/" name) with (String "/" name). simpl.
    destruct (String.eqb name "" || String.eqb name "."); [done|].
    by destruct (dir_alias name).
  - apply slash_free_cons in Hpre as [Ha Hpre]. rewrite append_cons. simpl.
    destruct (Ascii.eqb_spec a "/"); [done|]. simpl. rewrite IH by done.
    destruct (String.eqb name "" || String.eqb name "."); [done|].
    by destruct (dir_alias name).
Qed.

(** In the download folder the only aliases are the empty name and the
    dot, which name the folder itself. *)
Lemma dir_alias_download_child (name : string) :
  str_in "/" name = false →
  dir_alias ("download/" ++ name) =
  if String.eqb name "" || String.eqb name "." then Some "download" else None.
Proof.
  intros Hname. change ("download/" ++ name) with ("download" ++ String "/" name).
  rewrite dir_alias_app_slash by done.
  destruct (String.eqb name "" || String.eqb name "."); [done|].
  by rewrite dir_alias_slash_free.
Qed.

Lemma lookup_path_Some (files : gmap string node) path entry :
  files !! path = Some entry → lookup_path files path = Some entry.
Proof. intros H. unfold lookup_path. by rewrite H. Qed.

Lemma lookup_path_plain (files : gmap string node) path :
  dir_alias path = None → lookup_path files path = files !! path.
Proof. intros H. unfold lookup_path. rewrite H. by destruct (files !! path). Qed.

Lemma lookup_path_mp3 (files : gmap string node) root :
  lookup_path files (root ++ ".mp3") = files !! (root ++ ".mp3").
Proof. apply lookup_path_plain, dir_alias_mp3. Qed.

Lemma lookup_path_download (files : gmap string node) :
  lookup_path files "download" = files !! "download".
Proof. by apply lookup_path_plain. Qed.

Lemma lookup_path_download_child (files : gmap string node) name :
  str_in "/" name = false → name ≠ "" → name ≠ "." →
  lookup_path files ("download/" ++ name) = files !! ("download/" ++ name).
Proof.
  intros Hs Hne Hdot. apply lookup_path_plain. rewrite dir_alias_download_child by done.
  destruct (String.eqb_spec name ""); [done|]. by destruct (String.eqb_spec name ".").
Qed.

End Paths.

(** *** Filename sanitization *)

Section SafeFilename.
Import DownloadYt.

Lemma is_unsafe_spec (c : ascii) : is_unsafe c = bool_decide (c ∈ unsafe_chars).
Proof.
  unfold is_unsafe. induction unsafe_chars as [|x l IH]; [done|].
  simpl. rewrite IH. destruct (Ascii.eqb_spec c x) as [->|Hne].
  - symmetry. apply bool_decide_eq_true. left.
  - simpl. apply bool_decide_ext. rewrite elem_of_cons. tauto.
Qed.

Lemma underscore_safe : is_unsafe "_" = false.
Proof. reflexivity. Qed.

Lemma safe_filename_length (s : string) :
  String.length (safe_filename s) = String.length s.
Proof. induction s as [|c s IH]; simpl; congruence. Qed.

Lemma safe_filename_get (s : string) (i : nat) :
  String.get i (safe_filename s) =
  (fun c => if is_unsafe c then "_"%char else c) <$> String.get i s.
Proof.
  revert i. induction s as [|c s IH]; intros i; [done|].
  destruct i as [|i]; simpl; [done | apply IH].
Qed.

(** C7: [safe_filename] maps each of the nine characters
    [< > : double-quote / \ | ? *] to an underscore and every other
    character to itself, position by position; the title
    [My/Song:Title*] becomes [My_Song_Title_]. *)
Theorem safe_filename_replaces_unsafe :
  (∀ c, is_unsafe c =
        bool_decide (c ∈ ["<"; ">"; ":"; "034"; "/"; "\"; "|"; "?"; "*"]%char)) ∧
  (∀ s, String.length (safe_filename s) = String.length s) ∧
  (∀ s i, String.get i (safe_filename s) =
          (fun c => if is_unsafe c then "_"%char else c) <$> String.get i s) ∧
  safe_filename "My/Song:Title*" = "My_Song_Title_".
Proof.
  split; [exact is_unsafe_spec|].
  split; [exact safe_filename_length|].
  split; [exact safe_filename_get | reflexivity].
Qed.

(** C10: [safe_filename] is idempotent, and none of the nine characters
    [< > : double-quote / \ | ? *] occurs at any position of its
    output. *)
Theorem safe_filename_idempotent (s : string) :
  safe_filename (safe_filename s) = safe_filename s ∧
  ∀ i c, String.get i (safe_filename s) = Some c →
         c ∉ ["<"; ">"; ":"; "034"; "/"; "\"; "|"; "?"; "*"]%char.
Proof.
  split.
  - induction s as [|c s IH]; [done|]. simpl. rewrite IH. f_equal.
    destruct (is_unsafe c) eqn:Hc; [done | by rewrite Hc].
  - intros i c Hget. rewrite safe_filename_get in Hget.
    destruct (String.get i s) as [c0|]; [|done]. simpl in Hget. injection Hget as <-.
    assert (is_unsafe (if is_unsafe c0 then "_"%char else c0) = false) as Hsafe.
    { destruct (is_unsafe c0) eqn:Hc; [reflexivity | exact Hc]. }
    rewrite is_unsafe_spec in Hsafe. by apply bool_decide_eq_false in Hsafe.
Qed.

End SafeFilename.

(** *** Artifact retrieval *)

Section ServeFile.
Import PyStr App.

Lemma str_in_prefix (needle hay : string) :
  str_in needle hay = false → String.prefix needle hay = false.
Proof. destruct hay; simpl; intros H; apply orb_false_iff in H; by destruct H. Qed.

Lemma join_download (name : string) :
  str_in "/" name = false → OsPath.join DOWNLOAD_FOLDER name = "download/" ++ name.
Proof.
  intros H. unfold OsPath.join. by rewrite (str_in_prefix _ _ H).
Qed.

(** C8: a file name containing [..], [/] or [\] is refused with status
    400 whatever the file system holds, and the state is untouched; so
    what is served is always what the path of that name directly inside
    the download folder names, for a name free of the three: the entry
    kept there, or the folder itself for the empty name and the dot. *)
Theorem serve_file_rejects_traversal (E : Env) (file_name : string) (w : World)
    (Hbad : str_in ".." file_name = true ∨ str_in "/" file_name = true
            ∨ str_in "\" file_name = true) :
  serve_file E file_name w = (Raise (HTTPException 400 "Недопустимое имя файла"), w) ∧
  (∀ name w1 r w2,
     serve_file E name w1 = (Ok r, w2) →
     fr_path r = "download/" ++ name ∧ is_Some (lookup_path (fs w1) (fr_path r)) ∧
     (name ≠ "" → name ≠ "." → is_Some (fs w1 !! fr_path r)) ∧
     str_in ".." name = false ∧ str_in "/" name = false ∧ str_in "\" name = false).
Proof.
  split.
  - unfold serve_file.
    destruct Hbad as [-> | [-> | ->]]; by rewrite ?orb_true_r.
  - intros name w1 r w2. unfold serve_file.
    destruct (str_in ".." name) eqn:H1; [done|].
    destruct (str_in "/" name) eqn:H2; [done|].
    destruct (str_in "\" name) eqn:H3; [done|].
    unfold bind, os_path_exists. rewrite (join_download _ H2). cbn [orb].
    case_bool_decide as Hex; simpl; [|done].
    intros [= <- <-]. simpl. split; [done|]. split; [done|]. split; [|done].
    intros Hne Hdot. by rewrite <- lookup_path_download_child.
Qed.

Lemma serve_file_rejects_traversal_witness :
  serve_file (Demo.env Demo.always_delivered Demo.run_all [] 0) "../../etc/passwd" Demo.world0
  = (Raise (HTTPException 400 "Недопустимое имя файла"), Demo.world0).
Proof.
  apply (serve_file_rejects_traversal _ "../../etc/passwd" Demo.world0).
  left. reflexivity.
Defined.

End ServeFile.

(** *** Components of the state a computation leaves alone *)

Section Frames.
Context {A B T : Type} (f : World -> T).

Lemma frames_ret (a : A) : frames f (ret a).
Proof. by intros w. Qed.

Lemma frames_raise (e : exn) : frames f (raise (A := A) e).
Proof. by intros w. Qed.

Lemma frames_lift_result (r : result A) : frames f (lift_result r).
Proof. by intros w. Qed.

Lemma frames_raise_if (o : option exn) : frames f (raise_if o).
Proof. by destruct o; intros w. Qed.

Lemma frames_get_world : frames f get_world.
Proof. by intros w. Qed.

Lemma frames_modify (g : World -> World) :
  (∀ w, f (g w) = f w) → frames f (modify g).
Proof. intros H w. apply H. Qed.

Lemma frames_bind (m : M A) (k : A -> M B) :
  frames f m → (∀ a, frames f (k a)) → frames f (bind m k).
Proof.
  intros Hm Hk w. specialize (Hm w). unfold bind.
  destruct (m w) as [[a|e] w']; simpl in *; [by rewrite Hk | done].
Qed.

Lemma frames_try_except (m : M A) (h : exn -> M A) :
  frames f m → (∀ e, frames f (h e)) → frames f (try_except m h).
Proof.
  intros Hm Hh w. specialize (Hm w). unfold try_except.
  destruct (m w) as [[a|e] w']; simpl in *; [done | by rewrite Hh].
Qed.

Lemma frames_try_finally (m : M A) (fin : M unit) :
  frames f m → frames f fin → frames f (try_finally m fin).
Proof.
  intros Hm Hf w. specialize (Hm w). unfold try_finally.
  destruct (m w) as [r w']; simpl in *. specialize (Hf w').
  destruct (fin w') as [[[]|e] w'']; simpl in *; congruence.
Qed.

Lemma frames_for_each (l : list B) (body : B -> M unit) :
  (∀ x, frames f (body x)) → frames f (for_each l body).
Proof.
  intros Hb. induction l as [|x l IH]; simpl.
  - by intros w.
  - intros w. unfold bind. specialize (Hb x w).
    destruct (body x w) as [[[]|e] w']; simpl in *; [by rewrite IH | done].
Qed.

Lemma frames_compose {U} (g : T -> U) (m : M A) :
  frames f m → frames (fun w => g (f w)) m.
Proof. intros H w. by rewrite H. Qed.

Lemma frames_keeps (I : T -> Prop) (m : M A) :
  frames f m → keeps (fun w => I (f w)) m.
Proof. intros H w Hw. by rewrite H. Qed.

End Frames.

Section FramesPrimitives.
Context (E : Env).

(** Delivering messages touches the connection log and the loop queue
    only. *)
Lemma run_scheduled_frames {T} (f : World -> T) :
  (∀ g w, f (set_ws_log g w) = f w) → (∀ g w, f (set_loop_queue g w) = f w) →
  ∀ k w, f (run_scheduled E k w) = f w.
Proof.
  intros Hlog Hq. induction k as [|k IH]; intros w; simpl; [done|].
  destruct (loop_queue w) as [|[[|] msg] queue]; [done|..]; rewrite IH.
  - unfold deliver. by rewrite Hlog, Hq.
  - apply Hq.
Qed.

Lemma send_json_frames {T} (f : World -> T) ws msg :
  (∀ g w, f (set_ws_log g w) = f w) → (∀ g w, f (set_loop_queue g w) = f w) →
  frames f (send_json E ws msg).
Proof.
  intros Hlog Hq w. destruct ws; simpl; [|done].
  destruct (ws_send_error E _); simpl.
  - apply Hlog.
  - rewrite run_scheduled_frames by done. apply Hlog.
Qed.

Lemma run_coroutine_threadsafe_frames {T} (f : World -> T) ws msg :
  (∀ g w, f (set_loop_queue g w) = f w) →
  frames f (run_coroutine_threadsafe ws msg).
Proof. intros Hq w. apply Hq. Qed.

Lemma os_path_exists_frames {T} (f : World -> T) path : frames f (os_path_exists path).
Proof. by intros w. Qed.

Lemma os_path_getsize_frames {T} (f : World -> T) path : frames f (os_path_getsize path).
Proof. intros w. unfold os_path_getsize. by repeat case_match. Qed.

Lemma os_remove_frames {T} (f : World -> T) path :
  (∀ g w, f (set_fs g w) = f w) → frames f (os_remove path).
Proof. intros Hfs w. unfold os_remove. repeat case_match; simpl; auto. Qed.

Lemma os_makedirs_frames {T} (f : World -> T) path :
  (∀ g w, f (set_fs g w) = f w) → frames f (os_makedirs path).
Proof. intros Hfs w. apply Hfs. Qed.

Lemma progress_hook_frames {T} (f : World -> T) ws d :
  (∀ g w, f (set_loop_queue g w) = f w) →
  frames f (DownloadYt.progress_hook E ws d).
Proof.
  intros Hq. unfold DownloadYt.progress_hook.
  repeat case_match; auto using run_coroutine_threadsafe_frames, frames_ret.
Qed.

Lemma extract_info_download_frames {T} (f : World -> T) opts ws url :
  (∀ g w, f (set_fs g w) = f w) → (∀ g w, f (set_loop_queue g w) = f w) →
  frames f (extract_info_download E opts (DownloadYt.progress_hook E ws) url).
Proof.
  intros Hfs Hq. unfold extract_info_download.
  apply frames_bind; [apply frames_get_world|]. intros w0.
  destruct (ydl_download E opts url (fs w0)) as [[calls files] r].
  apply frames_bind; [by apply frames_modify|]. intros _.
  apply frames_bind; [|intros _; apply frames_lift_result].
  apply frames_for_each. intros d. by apply progress_hook_frames.
Qed.

End FramesPrimitives.

Lemma downloads_ignores_io : ignores_io downloads.
Proof. done. Qed.

Ltac frames_step :=
  match goal with
  | |- forall _, _ => intro
  | |- frames _ (match ?x with _ => _ end) => destruct x
  | |- frames _ (ret _) => apply frames_ret
  | |- frames _ (raise _) => apply frames_raise
  | |- frames _ (lift_result _) => apply frames_lift_result
  | |- frames _ (raise_if _) => apply frames_raise_if
  | |- frames _ get_world => apply frames_get_world
  | |- frames _ (os_path_exists _) => apply os_path_exists_frames
  | |- frames _ (os_path_getsize _) => apply os_path_getsize_frames
  | |- frames _ (os_remove _) => apply os_remove_frames
  | |- frames _ (os_makedirs _) => apply os_makedirs_frames
  | |- frames _ (send_json _ _ _) => apply send_json_frames
  | |- frames _ (run_coroutine_threadsafe _ _) => apply run_coroutine_threadsafe_frames
  | |- frames _ (extract_info_download _ _ _ _) => apply extract_info_download_frames
  | |- frames _ (modify _) => apply frames_modify
  | |- frames _ (bind _ _) => apply frames_bind
  | |- frames _ (try_except _ _) => apply frames_try_except
  | |- frames _ (try_finally _ _) => apply frames_try_finally
  | |- _ => solve [auto]
  end.

Ltac solve_frames := repeat frames_step.

Section FramesDownloadAudio.
Context (E : Env) {T : Type} (f : World -> T) (Hf : ignores_io f).

Lemma download_thumbnail_frames ws out_folder title info :
  frames f (DownloadYt.download_thumbnail E ws out_folder title info).
Proof.
  destruct Hf as (Hlog & Hq & Hfs).
  unfold DownloadYt.download_thumbnail, DownloadYt.fetch_thumbnail. solve_frames.
Qed.

Lemma download_audio_frames url ws out_folder max_filesize_mb :
  frames f (DownloadYt.download_audio E url ws out_folder max_filesize_mb).
Proof.
  pose proof download_thumbnail_frames as Hthumb.
  destruct Hf as (Hlog & Hq & Hfs).
  unfold DownloadYt.download_audio. solve_frames.
Qed.

End FramesDownloadAudio.

(** *** The job store *)

Section JobStore.
Import App.
Context (E : Env).

Lemma path_ready_frames {T} (f : World -> T) path : frames f (path_ready path).
Proof. unfold path_ready. solve_frames. Qed.

Lemma api_download_url_frames {T} (f : World -> T) data :
  ignores_io f → frames f (api_download_url E data).
Proof.
  intros Hf. pose proof (download_audio_frames E f Hf) as Haudio.
  pose proof (@path_ready_frames T f) as Hready.
  destruct Hf as (Hlog & Hq & Hfs).
  unfold api_download_url. solve_frames.
Qed.

Lemma same_jobs_alter task_id d0 d g :
  same_jobs task_id d0 d → same_jobs task_id d0 (alter g task_id d).
Proof.
  intros [Hdom Hother]. split.
  - by rewrite dom_alter_L.
  - intros other Hne. rewrite lookup_alter_ne by done. by apply Hother.
Qed.

Lemma update_download_keeps task_id d0 kwargs :
  keeps (fun w => same_jobs task_id d0 (downloads w)) (update_download E task_id kwargs).
Proof.
  intros w Hw. unfold update_download, bind, get_world.
  destruct (downloads w !! task_id); simpl; [|done].
  by do 2 apply same_jobs_alter.
Qed.

Lemma download_and_report_keeps url maxsize platform task_id d0 :
  keeps (fun w => same_jobs task_id d0 (downloads w))
        (download_and_report E url maxsize platform task_id).
Proof.
  unfold download_and_report.
  repeat
    match goal with
    | |- forall _, _ => intro
    | |- keeps _ (match ?x with _ => _ end) => destruct x
    | |- keeps _ (bind _ _) => apply keeps_bind
    | |- keeps _ (update_download _ _ _) => apply update_download_keeps
    | |- keeps _ (send_json _ _ _) =>
        apply (frames_keeps downloads); by apply send_json_frames
    | |- keeps _ (DownloadYt.download_audio _ _ _ _ _) =>
        apply (frames_keeps downloads); by apply download_audio_frames
    | |- keeps _ (path_ready _) => apply (frames_keeps downloads), path_ready_frames
    | |- keeps _ (os_path_getsize _) =>
        apply (frames_keeps downloads), os_path_getsize_frames
    end.
Qed.

End JobStore.

(** *** The streaming handler up to the creation of the job *)

Section Accepted.
Import App.
Context (E : Env).

Lemma try_bind_ok {A} (m : M A) (k : A -> M unit) h fin w a w' :
  m w = (Ok a, w') →
  try_finally (try_except (bind m k) h) fin w = try_finally (try_except (k a) h) fin w'.
Proof. intros H. unfold try_finally, try_except, bind. by rewrite H. Qed.

Lemma websocket_download_accepted url maxsize w :
  accepted_request E url maxsize →
  websocket_download E url maxsize w =
  try_finally
    (try_except
       (download_and_report E url maxsize (get_platform_from_url E url)
          (uuid4 E (S (n_uuid w))))
       (on_error E))
    (teardown E (uuid4 E (n_uuid w)))
    (job_created E url maxsize w).
Proof.
  intros (Haccept & Hurl & Hsize & Hplatform).
  unfold websocket_download, websocket_download_body.
  rewrite Haccept, Hurl, Hplatform.
  replace ((maxsize <=? 0) || (MAX_FILE_SIZE_MB <? maxsize)) with false
    by (unfold MAX_FILE_SIZE_MB in *; lia).
  reflexivity.
Qed.

Lemma on_error_frames {T} (f : World -> T) e :
  ignores_io f → frames f (on_error E e).
Proof.
  intros (Hlog & Hq & Hfs). unfold on_error, swallow.
  destruct e; solve_frames.
Qed.

Lemma teardown_frames {T} (f : World -> T) cid :
  (∀ g w, f (set_active_connections g w) = f w) → frames f (teardown E cid).
Proof. intros Hac. unfold teardown, swallow. solve_frames. Qed.

End Accepted.

(** *** One job per request *)

Section OneJob.
Import App.

(** C2 (as amended): an accepted request on the streaming endpoint
    inserts exactly one record into the job store, under the id drawn
    for it: afterwards the store holds that id and the ids it held
    before, one more record than before when the id is new, and every
    other record as it was.  The plain endpoint leaves the job store
    unchanged for every request. *)
Theorem one_job_per_streaming_request (E : Env) (url : string) (maxsize : Z) (w : World)
    (Hreq : accepted_request E url maxsize)
    (Hnew : downloads w !! uuid4 E (S (n_uuid w)) = None) :
  let task_id := uuid4 E (S (n_uuid w)) in
  let w' := (websocket_download E url maxsize w).2 in
  dom (downloads w') = {[task_id]} ∪ dom (downloads w) ∧
  size (downloads w') = S (size (downloads w)) ∧
  (∀ other, other ≠ task_id → downloads w' !! other = downloads w !! other) ∧
  (∀ data w0, downloads (api_download_url E data w0).2 = downloads w0).
Proof.
  intros task_id w'.
  assert (same_jobs task_id (downloads (job_created E url maxsize w)) (downloads w'))
    as [Hdom Hother].
  { subst w'. rewrite websocket_download_accepted by done.
    apply (keeps_try_finally (fun w => same_jobs task_id _ (downloads w))); [| |done].
    - apply keeps_try_except; [apply download_and_report_keeps|].
      intros e. apply (frames_keeps downloads), on_error_frames, downloads_ignores_io.
    - by apply (frames_keeps downloads), teardown_frames. }
  simpl in Hdom, Hother. fold task_id in Hdom, Hother.
  rewrite dom_insert_L in Hdom.
  split; [done|]. split; [|split].
  - rewrite <- (size_dom (downloads w')), Hdom.
    rewrite size_union by (apply disjoint_singleton_l, not_elem_of_dom, Hnew).
    by rewrite size_singleton, size_dom.
  - intros other Hne. rewrite Hother by done. by apply lookup_insert_ne.
  - intros data w0. apply api_download_url_frames, downloads_ignores_io.
Qed.

Lemma one_job_per_streaming_request_witness :
  let E := Demo.env Demo.always_delivered Demo.run_all [] 1000 in
  size (downloads (websocket_download E "https://youtu.be/abc123" 15 Demo.world0).2) = 1%nat.
Proof.
  intros E.
  apply (one_job_per_streaming_request E "https://youtu.be/abc123" 15 Demo.world0).
  - repeat split; reflexivity || (unfold MAX_FILE_SIZE_MB; lia).
  - reflexivity.
Defined.

(** The claim as stated fails on the plain endpoint: an accepted request
    is served, and the job store stays empty. *)
Lemma plain_endpoint_creates_no_job :
  let E := Demo.env Demo.always_delivered Demo.run_all [] 1000 in
  let run := api_download_url E
               {| req_url := Some "https://youtu.be/abc123"; req_maxsize := Some 15 |}
               Demo.world0 in
  accepted_request E "https://youtu.be/abc123" 15 ∧
  (∃ body, run.1 = Ok body ∧
           dict_get "download_url" body = Some (PStr "/api/file/My_Song_Title_.mp3")) ∧
  size (downloads run.2) = 0%nat.
Proof.
  intros E run. split; [|split].
  - repeat split; reflexivity || (unfold MAX_FILE_SIZE_MB; lia).
  - eexists. split; [vm_compute; reflexivity | reflexivity].
  - vm_compute. reflexivity.
Qed.

End OneJob.

(** *** Unsupported platforms *)

Section Unsupported.
Import PyStr App.

Lemma run_scheduled_empty E k w : loop_queue w = [] → run_scheduled E k w = w.
Proof. intros H. destruct k; simpl; [done | by rewrite H]. Qed.

Lemma bind_ok {A B} (m : M A) (k : A -> M B) w a w' :
  m w = (Ok a, w') → bind m k w = k a w'.
Proof. intros H. unfold bind. by rewrite H. Qed.

Lemma bind_raise {A B} (m : M A) (k : A -> M B) w e w' :
  m w = (Raise e, w') → bind m k w = (Raise e, w').
Proof. intros H. unfold bind. by rewrite H. Qed.

Lemma send_json_fresh E msg w :
  fresh_connection w →
  send_json E RealWS msg w =
  (match ws_send_error E 0 with Some e => Raise e | None => Ok tt end,
   deliver E Handler msg w).
Proof.
  intros [Hlog Hqueue]. unfold send_json. rewrite Hlog. simpl.
  destruct (ws_send_error E 0); [done|].
  by rewrite run_scheduled_empty.
Qed.

Lemma run_scheduled_log E k w : ∃ l, ws_log (run_scheduled E k w) = (ws_log w ++ l)%list.
Proof.
  revert w. induction k as [|k IH]; intros w; simpl.
  - exists []. by rewrite app_nil_r.
  - destruct (loop_queue w) as [|[[|] msg] queue].
    + exists []. by rewrite app_nil_r.
    + destruct (IH (deliver E Callback msg (set_loop_queue (fun _ => queue) w))) as (l & ->).
      simpl. eexists. by rewrite <- app_assoc.
    + destruct (IH (set_loop_queue (fun _ => queue) w)) as (l & ->). by exists l.
Qed.

Lemma send_json_log E ws msg w :
  ∃ l, ws_log (send_json E ws msg w).2 = (ws_log w ++ l)%list.
Proof.
  destruct ws; simpl.
  - destruct (ws_send_error E _); simpl.
    + by eexists.
    + destruct (run_scheduled_log E (loop_runs E (length (ws_log w)))
                  (deliver E Handler msg w)) as (l & ->).
      simpl. eexists. by rewrite <- app_assoc.
  - exists []. by rewrite app_nil_r.
Qed.

Lemma on_error_log E e w : ∃ l, ws_log (on_error E e w).2 = (ws_log w ++ l)%list.
Proof.
  assert (∀ msg, ∃ l, ws_log (swallow (send_json E RealWS msg) w).2 = (ws_log w ++ l)%list)
    as Hswallow.
  { intros msg. unfold swallow, try_except.
    destruct (send_json_log E RealWS msg w) as (l & Hl).
    destruct (send_json E RealWS msg w) as [[[]|e'] w']; simpl in *; by exists l. }
  destruct e; simpl; [exists []; by rewrite app_nil_r | apply Hswallow..].
Qed.

Lemma find_existsb {A} (f : A -> bool) (l : list A) :
  existsb f l = true → ∃ x, find f l = Some x ∧ x ∈ l ∧ f x = true.
Proof.
  induction l as [|a l IH]; simpl; [done|].
  destruct (f a) eqn:Ha; simpl.
  - intros _. exists a. split; [done|]. split; [left | done].
  - intros H. destruct (IH H) as (x & Hx & Hin & Hfx).
    exists x. split; [done|]. split; [by right | done].
Qed.

(** A handler run that answers an accepted connection with one message
    and stops: the job store is untouched and the message comes first on
    the connection. *)
Lemma single_answer E msg cid w :
  fresh_connection w →
  let w' := (try_finally
               (try_except
                  (raise_if None ;;;
                   modify (set_active_connections (fun s => {[cid]} ∪ s)) ;;;
                   send_json E RealWS msg) (on_error E))
               (teardown E cid) (tick_uuid w)).2 in
  downloads w' = downloads w ∧
  head (ws_log w') =
    Some {| dl_origin := Handler; dl_msg := msg; dl_error := ws_send_error E 0 |} ∧
  (ws_send_error E 0 = None → length (ws_log w') = 1%nat).
Proof.
  intros Hfresh w'. pose proof Hfresh as [Hlog Hqueue]. split.
  - subst w'.
    change (downloads w) with (downloads (tick_uuid w)).
    apply frames_try_finally; [|by apply teardown_frames].
    apply frames_try_except; [|intros e; by apply on_error_frames].
    pose proof (send_json_frames E downloads RealWS msg) as Hsend.
    solve_frames.
  - subst w'. unfold try_finally, try_except.
    rewrite (bind_ok _ _ _ tt (tick_uuid w)) by done.
    rewrite (bind_ok _ _ _ tt
               (set_active_connections (fun s => {[cid]} ∪ s) (tick_uuid w))) by done.
    rewrite send_json_fresh by done.
    destruct (ws_send_error E 0) as [e|] eqn:Hsend.
    + match goal with
      | |- context [on_error E e ?w0] =>
          destruct (on_error_log E e w0) as (l & Hl);
          destruct (on_error E e w0) as [r1 w1]
      end.
      pose proof (teardown_frames E ws_log cid (fun _ _ => eq_refl) w1) as Hfin.
      destruct (teardown E cid w1) as [[[]|e'] w3];
        simpl in Hl, Hfin |- *; rewrite Hfin, Hl, Hlog; simpl; rewrite Hsend; done.
    + match goal with
      | |- context [teardown E cid ?w0] =>
          pose proof (teardown_frames E ws_log cid (fun _ _ => eq_refl) w0) as Hfin;
          destruct (teardown E cid w0) as [[[]|e'] w3]
      end; simpl in Hfin |- *; rewrite Hfin, Hlog; simpl; rewrite Hsend; done.
Qed.

(** C5: an accepted connection with a valid request whose url matches no
    supported platform gets one answer and no job.  When the url carries
    a coming-soon marker the answer has [coming_soon: true] and the
    upper-cased marker as [platform]; otherwise it is the generic
    unsupported-platform error. *)
Theorem unsupported_platform_response (E : Env) (url : string) (maxsize : Z) (w : World)
    (Hfresh : fresh_connection w)
    (Haccept : ws_accept_error E = None)
    (Hurl : (String.eqb url "" || String.eqb (str_strip E url) "") = false)
    (Hsize : 1 ≤ maxsize ≤ MAX_FILE_SIZE_MB)
    (Hnot : is_supported_platform E url = false) :
  let w' := (websocket_download E url maxsize w).2 in
  downloads w' = downloads w ∧
  ∃ response,
    head (ws_log w') =
      Some {| dl_origin := Handler; dl_msg := response; dl_error := ws_send_error E 0 |} ∧
    (ws_send_error E 0 = None → length (ws_log w') = 1%nat) ∧
    if is_coming_soon E url then
      ∃ platform,
        platform ∈ COMING_SOON_PLATFORMS ∧
        str_in platform (str_lower E url) = true ∧
        response = coming_soon_msg (upper platform) ∧
        dict_get "coming_soon" response = Some (PBool true) ∧
        dict_get "platform" response = Some (PStr (upper platform))
    else
      response =
        [("error", PStr "Неподдерживаемая платформа. Поддерживается только YouTube.")].
Proof.
  intros w'. subst w'.
  unfold websocket_download, websocket_download_body.
  rewrite Haccept, Hurl, Hnot.
  replace ((maxsize <=? 0) || (MAX_FILE_SIZE_MB <? maxsize)) with false
    by (unfold MAX_FILE_SIZE_MB in *; lia).
  unfold get_platform_from_url. unfold is_supported_platform in Hnot. rewrite Hnot.
  cbn [negb].
  pose proof (fun msg cid => single_answer E msg cid w Hfresh) as Hrun.
  destruct Hfresh as [Hlog Hqueue].
  unfold bind at 1. unfold uuid_uuid4 at 1. cbv beta iota.
  destruct (is_coming_soon E url) eqn:Hsoon.
  - destruct (find_existsb _ _ Hsoon) as (platform & Hfind & Hin & Hmatch).
    rewrite Hfind.
    destruct (Hrun (coming_soon_msg (upper platform)) (uuid4 E (n_uuid w)))
      as (Hd & Hhead & Hlen).
    split; [exact Hd|]. eexists. split; [exact Hhead|]. split; [exact Hlen|].
    exists platform. done.
  - destruct (Hrun [("error", PStr "Неподдерживаемая платформа. Поддерживается только YouTube.")]
                (uuid4 E (n_uuid w))) as (Hd & Hhead & Hlen).
    split; [exact Hd|]. eexists. split; [exact Hhead|]. split; [exact Hlen|]. done.
Qed.

(** The streaming endpoint refuses a size outside 1..50 (or a blank url)
    with one error message and creates no job. *)
Lemma streaming_rejects_size_out_of_range (E : Env) (url : string) (maxsize : Z) (w : World) :
  fresh_connection w → ws_accept_error E = None →
  maxsize < 1 ∨ MAX_FILE_SIZE_MB < maxsize →
  let w' := (websocket_download E url maxsize w).2 in
  downloads w' = downloads w ∧
  ∃ text,
    head (ws_log w') =
      Some {| dl_origin := Handler; dl_msg := [("error", PStr text)];
              dl_error := ws_send_error E 0 |}.
Proof.
  intros Hfresh Haccept Hsize w'. subst w'.
  unfold websocket_download, websocket_download_body. rewrite Haccept.
  replace ((maxsize <=? 0) || (MAX_FILE_SIZE_MB <? maxsize)) with true
    by (unfold MAX_FILE_SIZE_MB in *; lia).
  unfold bind at 1. unfold uuid_uuid4 at 1. cbv beta iota.
  destruct (String.eqb url "" || String.eqb (str_strip E url) "");
    match goal with
    | |- context [send_json E RealWS ?msg] =>
        destruct (single_answer E msg (uuid4 E (n_uuid w)) w Hfresh) as (Hd & Hhead & _)
    end; (split; [exact Hd | eexists; exact Hhead]).
Qed.

End Unsupported.

Section UnsupportedExamples.
Import App.

Lemma unsupported_platform_response_witness :
  let E := Demo.env Demo.always_delivered Demo.run_all [] 1000 in
  let w' := (websocket_download E "https://vk.com/video1" 15 Demo.world0).2 in
  downloads w' = downloads Demo.world0 ∧
  ∃ response,
    head (ws_log w') =
      Some {| dl_origin := Handler; dl_msg := response; dl_error := None |} ∧
    dict_get "coming_soon" response = Some (PBool true) ∧
    dict_get "platform" response = Some (PStr "VK.COM").
Proof.
  intros E w'.
  destruct (unsupported_platform_response E "https://vk.com/video1" 15 Demo.world0)
    as (Hd & response & Hhead & _ & Hsoon).
  - done.
  - reflexivity.
  - reflexivity.
  - unfold MAX_FILE_SIZE_MB. lia.
  - reflexivity.
  - split; [exact Hd|]. exists response. split; [exact Hhead|].
    change (is_coming_soon E "https://vk.com/video1") with true in Hsoon.
    destruct Hsoon as (platform & Hin & Hmatch & -> & Hc & Hp).
    split; [exact Hc|]. rewrite Hp.
    apply list_elem_of_In in Hin. simpl in Hin.
    destruct Hin as [<- | [<- | [<- | []]]]; [reflexivity | discriminate..].
Defined.

(** The code on [https://vk.com/video1]: one message, no job. *)
Example vk_request :
  let E := Demo.env Demo.always_delivered Demo.run_all [] 1000 in
  let w' := (websocket_download E "https://vk.com/video1" 15 Demo.world0).2 in
  dl_msg <$> ws_log w' =
    [[("error", PStr "Поддержка VK.COM скоро будет добавлена! 🚀");
      ("coming_soon", PBool true); ("platform", PStr "VK.COM")]] ∧
  size (downloads w') = 0%nat.
Proof. split; vm_compute; reflexivity. Qed.

End UnsupportedExamples.

(** *** Computations that cannot raise *)

Section Returns.
Context {A B : Type}.

Lemma returns_ret (a : A) : returns (ret a).
Proof. intros w. by eexists _, _. Qed.

Lemma returns_modify g : returns (modify g).
Proof. intros w. by eexists _, _. Qed.

Lemma returns_get_world : returns get_world.
Proof. intros w. by eexists _, _. Qed.

Lemma returns_bind (m : M A) (k : A -> M B) :
  returns m → (∀ a, returns (k a)) → returns (bind m k).
Proof.
  intros Hm Hk w. destruct (Hm w) as (a & w' & Hmw).
  unfold bind. rewrite Hmw. apply Hk.
Qed.

(** A [try] whose handler returns, returns. *)
Lemma returns_try_except (m : M A) (h : exn -> M A) :
  (∀ e, returns (h e)) → returns (try_except m h).
Proof.
  intros Hh w. unfold try_except.
  destruct (m w) as [[a|e] w']; [by eexists _, _ | apply Hh].
Qed.

Lemma returns_os_path_exists path : returns (os_path_exists path).
Proof. intros w. by eexists _, _. Qed.

Lemma returns_os_makedirs path : returns (os_makedirs path).
Proof. intros w. by eexists _, _. Qed.

Lemma returns_send_json E ws msg :
  ws = MockWS ∨ connection_alive E → returns (send_json E ws msg).
Proof.
  intros Hws w. destruct ws; simpl; [|by eexists _, _].
  destruct Hws as [|Halive]; [done|]. rewrite Halive. by eexists _, _.
Qed.

Lemma returns_frames_triple {T} (f : World -> T) (I : T -> Prop) (m : M A) :
  returns m → frames f m →
  triple (fun w => I (f w)) m (fun _ w => I (f w)) (fun _ _ => False).
Proof.
  intros Hret Hframes w Hw. destruct (Hret w) as (a & w' & Hm).
  specialize (Hframes w). rewrite Hm in *. simpl in *. by rewrite Hframes.
Qed.

End Returns.

Section DownloadAudioReturns.
Context (E : Env).

(** With a live connection (or the mock one) [download_audio] always
    returns a pair: every exception inside is caught at line 138 and
    reported. *)
Lemma download_audio_returns url ws out_folder max_filesize_mb :
  ws = MockWS ∨ connection_alive E →
  returns (DownloadYt.download_audio E url ws out_folder max_filesize_mb).
Proof.
  intros Hws. unfold DownloadYt.download_audio.
  apply returns_bind.
  - apply returns_bind; [apply returns_os_path_exists|].
    intros []; [apply returns_ret | apply returns_os_makedirs].
  - intros _. apply returns_try_except. intros e.
    apply returns_bind; [by apply returns_send_json | intros _; apply returns_ret].
Qed.

End DownloadAudioReturns.

(** *** Job records *)

Section Dicts.

Lemma dict_get_set_eq k v d : dict_get k (dict_set k v d) = Some v.
Proof.
  induction d as [|[k' v'] d IH]; simpl.
  - by rewrite String.eqb_refl.
  - destruct (String.eqb k' k) eqn:Hk; simpl; by rewrite Hk.
Qed.

Lemma dict_get_set_ne k k' v d : k ≠ k' → dict_get k (dict_set k' v d) = dict_get k d.
Proof.
  intros Hne. induction d as [|[k0 v0] d IH]; simpl.
  - destruct (String.eqb_spec k' k); [congruence | done].
  - destruct (String.eqb_spec k0 k') as [->|Hk0]; simpl.
    + destruct (String.eqb_spec k' k); [congruence | done].
    + by rewrite IH.
Qed.

Lemma dict_update_cons d k v rest :
  dict_update d ((k, v) :: rest) = dict_update (dict_set k v d) rest.
Proof. reflexivity. Qed.

Lemma dict_update_nil d : dict_update d [] = d.
Proof. reflexivity. Qed.

End Dicts.

Ltac dict_simpl :=
  rewrite ?dict_update_cons, ?dict_update_nil;
  repeat first [rewrite dict_get_set_eq | rewrite dict_get_set_ne by done].

Section Terminal.
Import App.
Context (E : Env).

Lemma update_download_lookup task_id kwargs w job :
  downloads w !! task_id = Some job →
  update_download E task_id kwargs w =
  (Ok tt,
   set_downloads
     (fun m => <[task_id := dict_set "updated_at" (PStr (now_isoformat E (n_clock w)))
                              (dict_update job kwargs)]> m)
     (tick_clock w)).
Proof.
  intros Hjob. unfold update_download, bind, get_world. rewrite Hjob.
  unfold modify, datetime_now. f_equal.
  destruct w as [d ac files log queue nu nc]. simpl in *.
  unfold set_downloads, tick_clock. simpl. f_equal.
  apply map_eq. intros i. destruct (decide (i = task_id)) as [->|Hne].
  - by rewrite lookup_insert_eq, !lookup_alter_eq, Hjob.
  - by rewrite lookup_insert_ne, !lookup_alter_ne.
Qed.

Lemma update_download_returns task_id kwargs : returns (update_download E task_id kwargs).
Proof.
  intros w. unfold update_download, bind, get_world.
  destruct (downloads w !! task_id); by eexists _, _.
Qed.

Lemma job_field_updated task_id kwargs w job field :
  downloads w !! task_id = Some job →
  field ≠ "updated_at" →
  job_field (update_download E task_id kwargs w).2 task_id field
  = dict_get field (dict_update job kwargs).
Proof.
  intros Hjob Hfield. rewrite (update_download_lookup _ _ _ _ Hjob).
  unfold job_field. simpl. rewrite lookup_insert_eq. simpl.
  by rewrite dict_get_set_ne.
Qed.


Lemma returns_path_ready path : returns (path_ready path).
Proof.
  intros w. destruct path as [p|]; simpl; [|by eexists _, _].
  destruct (String.eqb p ""); by eexists _, _.
Qed.

(** Lines 144-176 put the job in a terminal state before anything else
    can fail. *)
Lemma download_and_report_terminal url maxsize platform task_id :
  connection_alive E →
  triple (fun w => is_Some (downloads w !! task_id))
         (download_and_report E url maxsize platform task_id)
         (fun _ w => terminal_status (job_status w task_id))
         (fun _ w => terminal_status (job_status w task_id)).
Proof.
  intros Halive. unfold download_and_report.
  pose (P := fun d : gmap string pydict => is_Some (d !! task_id)).
  pose (T := fun d : gmap string pydict =>
               terminal_status (d !! task_id ≫= dict_get "status")).
  assert (∀ {A} (m : M A), returns m → frames downloads m →
            triple (fun w => P (downloads w)) m
                   (fun _ w => P (downloads w)) (fun _ _ => False)) as Hpre.
  { intros A m Hret Hfr. by apply (returns_frames_triple downloads P). }
  assert (∀ {A} (m : M A), frames downloads m →
            triple (fun w => T (downloads w)) m
                   (fun _ w => T (downloads w)) (fun _ w => T (downloads w))) as Hpost.
  { intros A m Hfr. by apply (keeps_triple (fun w => T (downloads w))), (frames_keeps downloads T). }
  match goal with
  | |- triple _ ?m _ _ =>
      change (triple (fun w => P (downloads w)) m
                (fun _ w => T (downloads w)) (fun _ w => T (downloads w)))
  end.
  eapply triple_bind.
  { eapply triple_conseq; [apply Hpre | by auto..].
    - apply returns_send_json; auto.
    - by apply send_json_frames. }
  intros ?. eapply triple_bind.
  { eapply triple_conseq; [apply Hpre | by auto..].
    - apply download_audio_returns; auto.
    - apply download_audio_frames, downloads_ignores_io. }
  intros [mp3_path thumb_path]. eapply triple_bind.
  { eapply triple_conseq; [apply Hpre | by auto..].
    - apply returns_path_ready.
    - apply path_ready_frames. }
  intros ready.
  assert (∀ kwargs status,
    status = "completed" ∨ status = "failed" →
    dict_get "status" (dict_update [] kwargs) = Some (PStr status) →
    (∀ job, dict_get "status" (dict_update job kwargs) = Some (PStr status)) →
    triple (fun w => P (downloads w)) (update_download E task_id kwargs)
           (fun _ w => T (downloads w)) (fun _ w => T (downloads w))) as Hupdate.
  { intros kwargs status Hstatus _ Hkw w [job Hjob]. unfold post.
    destruct (update_download_returns task_id kwargs w) as ([] & w' & Hw').
    pose proof (job_field_updated task_id kwargs w job "status" Hjob) as Hfield.
    rewrite Hw' in *. simpl in Hfield. unfold T, terminal_status.
    change (downloads w' !! task_id ≫= dict_get "status")
      with (job_field w' task_id "status").
    rewrite Hfield, Hkw by done. destruct Hstatus as [-> | ->]; auto. }
  destruct ready.
  - eapply triple_bind.
    { apply (Hupdate _ "completed"); [by left | done |]. intros job. by dict_simpl. }
    intros ?. apply Hpost.
    pose proof (@path_ready_frames _ downloads) as Hready.
    pose proof (send_json_frames E downloads RealWS) as Hsend.
    solve_frames.
  - eapply triple_bind.
    { apply (Hupdate _ "failed"); [by right | done |]. intros job. by dict_simpl. }
    intros ?. apply Hpost. by apply send_json_frames.
Qed.

(** With a live connection the streaming handler leaves the job of an
    accepted request completed or failed. *)
Lemma streaming_job_terminal_when_alive url maxsize w :
  accepted_request E url maxsize → connection_alive E →
  terminal_status
    (job_status (websocket_download E url maxsize w).2 (uuid4 E (S (n_uuid w)))).
Proof.
  intros Hreq Halive. rewrite websocket_download_accepted by done.
  set (task_id := uuid4 E (S (n_uuid w))).
  pose (T := fun d : gmap string pydict =>
               terminal_status (d !! task_id ≫= dict_get "status")).
  assert (triple (fun w0 => w0 = job_created E url maxsize w)
            (try_finally
               (try_except
                  (download_and_report E url maxsize (get_platform_from_url E url) task_id)
                  (on_error E))
               (teardown E (uuid4 E (n_uuid w))))
            (fun _ w' => T (downloads w')) (fun _ w' => T (downloads w'))) as Hrun.
  { eapply triple_try_finally.
    - eapply triple_try_except.
      + eapply triple_conseq; [by apply download_and_report_terminal | | by auto..].
        intros w0 ->. simpl. fold task_id. by rewrite lookup_insert_eq.
      + intros e. apply (keeps_triple (fun w => T (downloads w))).
        apply (frames_keeps downloads T), on_error_frames, downloads_ignores_io.
    - intros ?. apply (keeps_triple (fun w => T (downloads w))).
      by apply (frames_keeps downloads T), teardown_frames.
    - intros ?. apply (keeps_triple (fun w => T (downloads w))).
      by apply (frames_keeps downloads T), teardown_frames. }
  specialize (Hrun _ eq_refl). unfold post in Hrun.
  by destruct (try_finally _ _ _) as [[[]|e] w'].
Qed.

End Terminal.

(** *** Runs of the code that leave a claim of the specification unmet *)

Section Runs.
Import App.

(** C1: the code on an accepted request whose client goes away.  When
    the first message after the creation of the job cannot be sent (line
    130), or when the client leaves during the download (the sends of
    lines 100 and 139 fail), the handler returns, the job still has status
    [created], and no terminal message has been produced. *)
Theorem disconnect_leaves_job_created :
  let run (k : nat) :=
    websocket_download (Demo.env (Demo.gone_from k) Demo.run_all [] 1000)
      "https://youtu.be/abc123" 15 Demo.world0 in
  accepted_request (Demo.env (Demo.gone_from 0) Demo.run_all [] 1000)
    "https://youtu.be/abc123" 15 ∧
  (run 0%nat).1 = Ok tt ∧
  job_status (run 0%nat).2 "uuid-1" = Some (PStr "created") ∧
  delivered (ws_log (run 0%nat).2) = [] ∧
  (run 3%nat).1 = Ok tt ∧
  job_status (run 3%nat).2 "uuid-1" = Some (PStr "created") ∧
  fs (run 3%nat).2 !! "download/My_Song_Title_.mp3" = Some (File 1000) ∧
  omap (dict_get "progress") (dl_msg <$> delivered (ws_log (run 3%nat).2))
    = [PInt 0; PInt 5; PInt 10] ∧
  omap (dict_get "error") (dl_msg <$> delivered (ws_log (run 3%nat).2)) = [].
Proof.
  intros run. split.
  - repeat split; reflexivity || (unfold MAX_FILE_SIZE_MB; lia).
  - repeat (split; [vm_compute; reflexivity|]). vm_compute. reflexivity.
Qed.

(** C3: the code on [POST /api/download/url] with [maxsize] outside
    1..50.  With 100 the request is served and a 60 MB file is offered;
    with 0 no limit applies at all. *)
Theorem plain_endpoint_accepts_any_size :
  let E := Demo.env Demo.always_delivered Demo.run_all [] (60 * 1048576) in
  let run (maxsize : Z) :=
    api_download_url E
      {| req_url := Some "https://youtu.be/abc123"; req_maxsize := Some maxsize |}
      Demo.world0 in
  (∃ body, (run 100).1 = Ok body ∧
           dict_get "download_url" body = Some (PStr "/api/file/My_Song_Title_.mp3") ∧
           dict_get "file_size_mb" body = Some (PFloat (DownloadYt.megabytes (60 * 1048576)))) ∧
  fs (run 100).2 !! "download/My_Song_Title_.mp3" = Some (File (60 * 1048576)) ∧
  (∃ body, (run 0).1 = Ok body ∧
           dict_get "download_url" body = Some (PStr "/api/file/My_Song_Title_.mp3")) ∧
  fs (run 0).2 !! "download/My_Song_Title_.mp3" = Some (File (60 * 1048576)).
Proof.
  intros E run. split; [|split; [|split]].
  - eexists. split; [vm_compute; reflexivity|]. split; reflexivity.
  - vm_compute. reflexivity.
  - eexists. split; [vm_compute; reflexivity|]. reflexivity.
  - vm_compute. reflexivity.
Qed.

End Runs.

(** *** Following one run *)

Section RunsRules.
Context {A B : Type}.
Implicit Types (P Q R : World -> Prop).

Lemma runs_ret P (a : A) : runs_to (ret a) P a P.
Proof. intros w Hw. by exists w. Qed.

Lemma runs_lift_ok P (r : result A) (a : A) : r = Ok a → runs_to (lift_result r) P a P.
Proof. intros -> w Hw. by exists w. Qed.

Lemma raises_lift P (r : result A) (e : exn) : r = Raise e → raises_to (lift_result r) P e P.
Proof. intros -> w Hw. by exists w. Qed.

Lemma runs_raise_if_none P : runs_to (raise_if None) P tt P.
Proof. intros w Hw. by exists w. Qed.

Lemma raises_raise_if P e : raises_to (raise_if (Some e)) P e P.
Proof. intros w Hw. by exists w. Qed.

Lemma runs_bind (m : M A) (k : A -> M B) P R Q a b :
  runs_to m P a R → runs_to (k a) R b Q → runs_to (bind m k) P b Q.
Proof.
  intros Hm Hk w Hw. destruct (Hm w Hw) as (w1 & Hmw & Hw1).
  destruct (Hk w1 Hw1) as (w2 & Hkw & Hw2). exists w2.
  unfold bind. by rewrite Hmw.
Qed.

Lemma raises_bind_l (m : M A) (k : A -> M B) P Q e :
  raises_to m P e Q → raises_to (bind m k) P e Q.
Proof.
  intros Hm w Hw. destruct (Hm w Hw) as (w1 & Hmw & Hw1). exists w1.
  unfold bind. by rewrite Hmw.
Qed.

Lemma raises_bind_r (m : M A) (k : A -> M B) P R Q a e :
  runs_to m P a R → raises_to (k a) R e Q → raises_to (bind m k) P e Q.
Proof.
  intros Hm Hk w Hw. destruct (Hm w Hw) as (w1 & Hmw & Hw1).
  destruct (Hk w1 Hw1) as (w2 & Hkw & Hw2). exists w2.
  unfold bind. by rewrite Hmw.
Qed.

Lemma runs_try_ok (m : M A) (h : exn -> M A) P Q a :
  runs_to m P a Q → runs_to (try_except m h) P a Q.
Proof.
  intros Hm w Hw. destruct (Hm w Hw) as (w1 & Hmw & Hw1). exists w1.
  unfold try_except. by rewrite Hmw.
Qed.

Lemma runs_try_caught (m : M A) (h : exn -> M A) P R Q e a :
  raises_to m P e R → runs_to (h e) R a Q → runs_to (try_except m h) P a Q.
Proof.
  intros Hm Hh w Hw. destruct (Hm w Hw) as (w1 & Hmw & Hw1).
  destruct (Hh w1 Hw1) as (w2 & Hhw & Hw2). exists w2.
  unfold try_except. by rewrite Hmw.
Qed.

Lemma runs_conseq (m : M A) P P' Q Q' a :
  runs_to m P' a Q' → (∀ w, P w → P' w) → (∀ w, Q' w → Q w) → runs_to m P a Q.
Proof.
  intros Hm HP HQ w Hw. destruct (Hm w (HP w Hw)) as (w1 & Hmw & Hw1).
  exists w1. auto.
Qed.

End RunsRules.

Section RunsPrimitives.
Context (E : Env) (Halive : connection_alive E).
Implicit Types (F : gmap string node) (D : gmap string pydict) (L : list pydict).

Lemma run_scheduled_handler_log k w :
  handler_log (run_scheduled E k w) = handler_log w.
Proof.
  revert w. induction k as [|k IH]; intros w; simpl; [done|].
  destruct (loop_queue w) as [|[[|] msg] queue]; [done|..]; rewrite IH; [|done].
  unfold handler_log. simpl.
  rewrite filter_app, filter_cons_False, filter_nil by done. apply app_nil_r.
Qed.

Lemma runs_send_json F D L msg :
  runs_to (send_json E RealWS msg) (at_state F D L) tt (at_state F D (L ++ [msg])).
Proof.
  intros w (Hfs & Hd & Hl). eexists. simpl. rewrite Halive. split; [done|].
  split; [|split].
  - by rewrite run_scheduled_frames.
  - by rewrite run_scheduled_frames.
  - unfold handler_msgs in *. rewrite run_scheduled_handler_log.
    unfold handler_log. simpl.
    rewrite filter_app, filter_cons_True, filter_nil by done.
    by rewrite fmap_app, <- Hl.
Qed.

Lemma runs_os_path_exists F D L path :
  runs_to (os_path_exists path) (at_state F D L)
          (bool_decide (is_Some (lookup_path F path))) (at_state F D L).
Proof. intros w Hw. exists w. split; [|done]. destruct Hw as (<- & _). done. Qed.

Lemma runs_os_path_getsize F D L path size :
  F !! path = Some (File size) →
  runs_to (os_path_getsize path) (at_state F D L) size (at_state F D L).
Proof.
  intros Hpath w Hw. exists w. split; [|done]. destruct Hw as (<- & _).
  unfold os_path_getsize. by rewrite (lookup_path_Some _ _ _ Hpath).
Qed.

Lemma runs_os_remove F D L path size :
  F !! path = Some (File size) →
  runs_to (os_remove path) (at_state F D L) tt (at_state (delete path F) D L).
Proof.
  intros Hpath w (<- & Hd & Hl). eexists.
  unfold os_remove. rewrite (lookup_path_Some _ _ _ Hpath). split; [done|]. by split.
Qed.

Lemma runs_ensure_dir F D L folder :
  runs_to (present <- os_path_exists folder ;;
           if negb present then os_makedirs folder else ret tt)
          (at_state F D L) tt (at_state (ensure_dir folder F) D L).
Proof.
  intros w (<- & Hd & Hl). unfold bind, os_path_exists, ensure_dir.
  case_bool_decide; simpl; eexists; (split; [done|]); by split.
Qed.

Lemma for_each_hooks_at ws calls F D L :
  runs_to (for_each calls (DownloadYt.progress_hook E ws)) (at_state F D L) tt (at_state F D L).
Proof.
  assert (∀ d w, ∃ w', DownloadYt.progress_hook E ws d w = (Ok tt, w') ∧
                       fs w' = fs w ∧ downloads w' = downloads w ∧ ws_log w' = ws_log w)
    as Hhook.
  { intros d w. unfold DownloadYt.progress_hook.
    repeat case_match; by eexists. }
  induction calls as [|d calls IH]; simpl.
  - apply runs_ret.
  - eapply runs_bind; [|apply IH].
    intros w (Hfs & Hd & Hl). destruct (Hhook d w) as (w' & Hrun & Hfs' & Hd' & Hlog').
    exists w'. split; [done|]. unfold at_state, handler_msgs, handler_log.
    by rewrite Hfs', Hd', Hlog'.
Qed.

Lemma runs_extract_info_download opts ws url F D L calls F' info :
  ydl_download E opts url F = (calls, F', Ok info) →
  runs_to (extract_info_download E opts (DownloadYt.progress_hook E ws) url)
          (at_state F D L) info (at_state F' D L).
Proof.
  intros Hdl w Hw. unfold extract_info_download.
  unfold bind at 1. unfold get_world. destruct Hw as (Hfs & Hd & Hl).
  rewrite Hfs, Hdl.
  eapply (runs_bind _ _ (fun w0 => w0 = w) (at_state F' D L)); [| |done].
  - intros w0 ->. eexists. split; [done|]. by split.
  - eapply runs_bind; [apply for_each_hooks_at | by apply runs_lift_ok].
Qed.

End RunsPrimitives.

(** *** An artifact over the size limit *)

Section Oversize.
Import App DownloadYt.
Context (E : Env) (Halive : connection_alive E).

Lemma over_limit (size : N) (m : Z) :
  (inject_Z m < megabytes size)%Q → Qle_bool (megabytes size) (inject_Z m) = false.
Proof.
  intros Hlt. destruct (Qle_bool _ _) eqn:Hle; [|done].
  apply Qle_bool_iff in Hle. by apply Qlt_not_le in Hlt.
Qed.

Lemma download_audio_oversize url out_folder m F D L info1 calls F1 info2 fname size :
  m ≠ 0 →
  ydl_extract_info E (ydl_opts out_folder (Some m)) url = Ok info1 →
  ydl_download E (ydl_opts out_folder (Some m)) url (ensure_dir out_folder F)
    = (calls, F1, Ok info2) →
  ydl_prepare_filename E info2 = Ok fname →
  F1 !! ((OsPath.splitext fname).1 ++ ".mp3") = Some (File size) →
  (inject_Z m < megabytes size)%Q →
  runs_to (download_audio E url RealWS out_folder (Some m))
    (at_state F D L) (None, None)
    (at_state (delete ((OsPath.splitext fname).1 ++ ".mp3") F1) D
       (L ++ [progress_msg (PInt 5) "Получение информации о видео...";
              progress_msg (PInt 10)
                ("Начинаем скачивание: " ++ safe_filename (default "audio" (info_title info1)));
              over_limit_msg E (megabytes size) m])).
Proof.
  intros Hm Hinfo Hdl Hname Hmp3 Hover. unfold download_audio.
  eapply runs_bind; [apply runs_ensure_dir|].
  apply runs_try_ok.
  eapply runs_bind; [by apply runs_send_json|].
  eapply runs_bind; [by apply runs_lift_ok|].
  eapply runs_bind; [by apply runs_send_json|].
  eapply runs_bind; [by eapply runs_extract_info_download, Hdl|].
  eapply runs_bind; [by apply runs_lift_ok|].
  eapply runs_bind; [apply runs_os_path_exists|].
  rewrite bool_decide_eq_true_2 by (rewrite lookup_path_mp3, Hmp3; eauto). cbn [negb].
  replace (m =? 0) with false by lia.
  eapply runs_bind; [by eapply runs_os_path_getsize|].
  rewrite over_limit by done. cbn [negb].
  eapply runs_bind; [by eapply runs_os_remove|].
  eapply runs_bind; [by apply runs_send_json|].
  eapply runs_conseq; [apply runs_ret | done |].
  intros w. by rewrite <- !app_assoc.
Qed.

End Oversize.

(** *** The handler after [download_audio] has returned *)

Section Report.
Import App DownloadYt.
Context (E : Env) (Halive : connection_alive E).

Lemma runs_exists_pre {A X} (m : M A) (P : X -> World -> Prop) a Q :
  (∀ x, runs_to m (P x) a Q) → runs_to m (fun w => ∃ x, P x w) a Q.
Proof. intros H w [x Hx]. by apply (H x). Qed.

Lemma runs_try_finally {A} (m : M A) (fin : M unit) P R Q a :
  runs_to m P a R → runs_to fin R tt Q → runs_to (try_finally m fin) P a Q.
Proof.
  intros Hm Hfin w Hw. destruct (Hm w Hw) as (w1 & Hmw & Hw1).
  destruct (Hfin w1 Hw1) as (w2 & Hfw & Hw2). exists w2.
  unfold try_finally. by rewrite Hmw, Hfw.
Qed.

Lemma runs_teardown cid F D L :
  runs_to (teardown E cid) (at_state F D L) tt (at_state F D L).
Proof.
  intros w Hw. unfold teardown, swallow, try_except, bind, modify.
  destruct (ws_close_error E); eexists; (split; [done|]); exact Hw.
Qed.

Lemma runs_update_download task_id kwargs F D L job :
  D !! task_id = Some job →
  runs_to (update_download E task_id kwargs) (at_state F D L) tt
    (fun w => ∃ ts,
       at_state F (<[task_id := dict_set "updated_at" (PStr ts) (dict_update job kwargs)]> D)
         L w).
Proof.
  intros Hjob w (Hfs & <- & Hl). eexists.
  split; [by apply update_download_lookup|]. by eexists.
Qed.

Lemma runs_path_ready_none F D L :
  runs_to (path_ready None) (at_state F D L) false (at_state F D L).
Proof. apply runs_ret. Qed.

Lemma runs_path_ready_file F D L path entry :
  path ≠ "" → F !! path = Some entry →
  runs_to (path_ready (Some path)) (at_state F D L) true (at_state F D L).
Proof.
  intros Hne Hpath. unfold path_ready.
  destruct (String.eqb_spec path ""); [done|].
  rewrite <- (bool_decide_eq_true_2 (is_Some (lookup_path F path)))
    by (rewrite (lookup_path_Some _ _ _ Hpath); eauto).
  apply runs_os_path_exists.
Qed.

(** [download_audio] gave no audio path: the job is marked failed and the
    failure is the last message (lines 167-176). *)
Lemma download_and_report_failed url maxsize platform task_id F D L F' L' job thumb :
  D !! task_id = Some job →
  runs_to (download_audio E url RealWS DOWNLOAD_FOLDER (Some maxsize))
    (at_state F D
       (L ++ [[("status", PStr ("Начинаем загрузку с " ++ platform ++ "..."));
               ("progress", PInt 0); ("task_id", PStr task_id)]])%list)
    (None, thumb) (at_state F' D L') →
  runs_to (download_and_report E url maxsize platform task_id) (at_state F D L) tt
    (fun w =>
       fs w = F' ∧
       handler_msgs w =
         (L' ++ [[("error", PStr (failed_text maxsize)); ("task_id", PStr task_id)]])%list ∧
       job_field w task_id "status" = Some (PStr "failed") ∧
       job_field w task_id "error" = Some (PStr (failed_text maxsize)) ∧
       job_field w task_id "mp3_path" = dict_get "mp3_path" job).
Proof.
  intros Hjob Haudio. unfold download_and_report.
  eapply runs_bind; [by apply runs_send_json|].
  eapply runs_bind; [exact Haudio|]. cbv beta iota.
  eapply runs_bind; [apply runs_path_ready_none|]. cbv iota.
  eapply runs_bind; [by apply runs_update_download|].
  apply runs_exists_pre. intros ts.
  eapply runs_conseq; [by apply runs_send_json | done |].
  intros w (Hfs & Hd & Hl). split; [done|]. split; [done|].
  unfold job_field. rewrite Hd, lookup_insert_eq. simpl.
  repeat split; by dict_simpl.
Qed.

Lemma runs_pure_pre {A} (m : M A) (P : World -> Prop) (φ : Prop) a Q :
  (φ → runs_to m P a Q) → runs_to m (fun w => P w ∧ φ) a Q.
Proof. intros H w [Hw Hφ]. by apply H. Qed.

(** [download_audio] gave the path of a file that is there and no
    thumbnail: the job is marked completed with the audio path, and the
    success payload is the last message (lines 144-165). *)
Lemma download_and_report_completed url maxsize platform task_id F D L job mp3 size
    (Φ : list pydict -> Prop) :
  D !! task_id = Some job →
  mp3 ≠ "" →
  runs_to (download_audio E url RealWS DOWNLOAD_FOLDER (Some maxsize))
    (at_state F D
       (L ++ [[("status", PStr ("Начинаем загрузку с " ++ platform ++ "..."));
               ("progress", PInt 0); ("task_id", PStr task_id)]])%list)
    (Some mp3, None)
    (fun w => ∃ F' L', at_state F' D L' w ∧ (F' !! mp3 = Some (File size) ∧ Φ L')) →
  runs_to (download_and_report E url maxsize platform task_id) (at_state F D L) tt
    (fun w =>
       ∃ L', Φ L' ∧
       fs w !! mp3 = Some (File size) ∧
       handler_msgs w =
         (L' ++ [[("message", PStr "Загрузка завершена успешно! 🎵");
                  ("download_url", PStr ("/api/file/" ++ OsPath.basename mp3));
                  ("task_id", PStr task_id);
                  ("file_size_mb", PFloat (round2 E (megabytes size)))]])%list ∧
       job_field w task_id "status" = Some (PStr "completed") ∧
       job_field w task_id "progress" = Some (PInt 100) ∧
       job_field w task_id "mp3_path" = Some (PStr mp3) ∧
       job_field w task_id "thumb_path" = Some PNone ∧
       job_field w task_id "error" = dict_get "error" job).
Proof.
  intros Hjob Hne Haudio. unfold download_and_report.
  eapply runs_bind; [by apply runs_send_json|].
  eapply runs_bind; [exact Haudio|]. cbv beta iota.
  apply runs_exists_pre. intros F'. apply runs_exists_pre. intros L'.
  apply runs_pure_pre. intros [Hmp3 HL'].
  eapply runs_bind; [by eapply runs_path_ready_file|]. cbv iota.
  eapply runs_bind; [by apply runs_update_download|].
  apply runs_exists_pre. intros ts.
  eapply runs_bind; [by eapply runs_os_path_getsize|].
  eapply runs_bind; [apply runs_path_ready_none|]. cbv iota.
  eapply runs_conseq; [by apply runs_send_json | done |].
  intros w (Hfs & Hd & Hl). exists L'. split; [done|].
  split; [by rewrite Hfs|]. split; [done|].
  unfold job_field. rewrite Hd, lookup_insert_eq. simpl.
  repeat split; by dict_simpl.
Qed.

(** The whole handler on an accepted request, once its download part is
    known to run to the end. *)
Lemma accepted_run_result url maxsize w (Q : World -> Prop) :
  accepted_request E url maxsize →
  runs_to (download_and_report E url maxsize (get_platform_from_url E url)
             (uuid4 E (S (n_uuid w))))
    (at_state (fs w)
       (<[uuid4 E (S (n_uuid w)) := new_job url maxsize (now_isoformat E (n_clock w))]>
          (downloads w))
       (handler_msgs w))
    tt Q →
  (∀ g w0, Q w0 → Q (set_active_connections g w0)) →
  (websocket_download E url maxsize w).1 = Ok tt ∧
  Q (websocket_download E url maxsize w).2.
Proof.
  intros Hreq Hrun HQ. rewrite websocket_download_accepted by done.
  destruct (Hrun (job_created E url maxsize w)) as (w1 & Hw1 & HQ1); [done|].
  unfold try_finally, try_except. rewrite Hw1.
  unfold teardown, swallow, try_except, bind, modify.
  destruct (ws_close_error E); simpl; auto.
Qed.

End Report.

(** *** Size enforcement *)

Section SizeEnforcement.
Import App DownloadYt.

(** X25: when the extractor leaves an audio file larger than [maxsize]
    megabytes and the client stays connected, the file is removed,
    [download_audio] returns no audio path, and the job ends failed with
    [mp3_path] unset; the failure is the last message of the handler. *)
Theorem oversize_artifact_fails_job (E : Env) (url : string) (maxsize : Z) (w : World)
    (info1 info2 : Info) (calls : list HookDict) (files : gmap string node)
    (fname : string) (size : N)
    (Hreq : accepted_request E url maxsize)
    (Halive : connection_alive E)
    (Hinfo : ydl_extract_info E (ydl_opts DOWNLOAD_FOLDER (Some maxsize)) url = Ok info1)
    (Hdl : ydl_download E (ydl_opts DOWNLOAD_FOLDER (Some maxsize)) url
             (files_at_download DOWNLOAD_FOLDER w) = (calls, files, Ok info2))
    (Hname : ydl_prepare_filename E info2 = Ok fname)
    (Hmp3 : files !! ((OsPath.splitext fname).1 ++ ".mp3") = Some (File size))
    (Hover : (inject_Z maxsize < megabytes size)%Q) :
  let mp3_path := (OsPath.splitext fname).1 ++ ".mp3" in
  let task_id := uuid4 E (S (n_uuid w)) in
  (∃ w1, download_audio E url RealWS DOWNLOAD_FOLDER (Some maxsize) w = (Ok (None, None), w1) ∧
         fs w1 !! mp3_path = None) ∧
  let w' := (websocket_download E url maxsize w).2 in
  fs w' !! mp3_path = None ∧
  job_field w' task_id "status" = Some (PStr "failed") ∧
  job_field w' task_id "mp3_path" = Some PNone ∧
  last (handler_msgs w') =
    Some [("error", PStr (failed_text maxsize)); ("task_id", PStr task_id)].
Proof.
  intros mp3_path task_id.
  assert (maxsize ≠ 0) as Hnz by (destruct Hreq as (_ & _ & ? & _); lia).
  pose proof (fun D L =>
    download_audio_oversize E Halive url DOWNLOAD_FOLDER maxsize (fs w) D L
      info1 calls files info2 fname size Hnz Hinfo Hdl Hname Hmp3 Hover) as Haudio.
  split.
  - destruct (Haudio (downloads w) (handler_msgs w) w) as (w1 & Hw1 & Hfs & _); [done|].
    exists w1. split; [done|]. rewrite Hfs. apply lookup_delete_eq.
  - edestruct (accepted_run_result E url maxsize w) as [_ Hfinal]; [done| | |].
    + eapply download_and_report_failed; [done | apply lookup_insert_eq | apply Haudio].
    + intros g w0 Hw0. exact Hw0.
    + cbv beta in Hfinal. destruct Hfinal as (Hfs & Hmsgs & Hstatus & _ & Hpath).
      split; [|split; [|split]].
      * rewrite Hfs. apply lookup_delete_eq.
      * exact Hstatus.
      * exact Hpath.
      * rewrite Hmsgs. apply last_snoc.
Qed.

End SizeEnforcement.

Section SizeEnforcementWitness.
Import App DownloadYt.

Lemma oversize_artifact_fails_job_witness :
  let E := Demo.env Demo.always_delivered Demo.run_all [] (20 * 1048576) in
  let w' := (websocket_download E "https://youtu.be/abc123" 15 Demo.world0).2 in
  fs w' !! "download/My_Song_Title_.mp3" = None ∧
  job_field w' "uuid-1" "status" = Some (PStr "failed") ∧
  job_field w' "uuid-1" "mp3_path" = Some PNone.
Proof.
  intros E w'.
  destruct (oversize_artifact_fails_job E "https://youtu.be/abc123" 15 Demo.world0
              Demo.info Demo.info []
              (<["download/My_Song_Title_.mp3" := File (20 * 1048576)]> (fs Demo.world0))
              "download/My_Song_Title_.webm" (20 * 1048576))
    as [_ (Hfile & Hstatus & Hpath & _)].
  - repeat split; reflexivity || (unfold MAX_FILE_SIZE_MB; lia).
  - intros n. reflexivity.
  - reflexivity.
  - vm_compute. reflexivity.
  - reflexivity.
  - apply lookup_insert_eq.
  - reflexivity.
  - split; [exact Hfile | split; [exact Hstatus | exact Hpath]].
Defined.

(** C6: the code on an oversized artifact whose client is gone.  The
    extractor leaves a 20 MB file for a limit of 15 and the client
    leaves before the over-limit message of line 94 can be sent.  The
    file is removed, but [download_audio] raises instead of returning no
    path (the send of line 139 fails as well), and the handler returns
    with the job still [created]: it is not marked failed and no error
    reaches the client. *)
Theorem oversize_disconnect_leaves_job_created :
  let size := (20 * 1048576)%N in
  let run :=
    websocket_download (Demo.env (Demo.gone_from 3) Demo.run_all [] size)
      "https://youtu.be/abc123" 15 Demo.world0 in
  accepted_request (Demo.env (Demo.gone_from 3) Demo.run_all [] size)
    "https://youtu.be/abc123" 15 ∧
  (inject_Z 15 < megabytes size)%Q ∧
  (download_audio (Demo.env (Demo.gone_from 2) Demo.run_all [] size)
     "https://youtu.be/abc123" RealWS DOWNLOAD_FOLDER (Some 15) Demo.world0).1
    = Raise (WebSocketDisconnect "") ∧
  run.1 = Ok tt ∧
  fs run.2 !! "download/My_Song_Title_.mp3" = None ∧
  job_status run.2 "uuid-1" = Some (PStr "created") ∧
  omap (dict_get "progress") (dl_msg <$> delivered (ws_log run.2))
    = [PInt 0; PInt 5; PInt 10] ∧
  omap (dict_get "error") (dl_msg <$> delivered (ws_log run.2)) = [].
Proof.
  intros size run. split.
  - repeat split; reflexivity || (unfold MAX_FILE_SIZE_MB; lia).
  - repeat (split; [vm_compute; reflexivity|]). vm_compute. reflexivity.
Qed.

End SizeEnforcementWitness.


(** *** A thumbnail that cannot be fetched *)

Section ThumbnailFails.
Import App DownloadYt.
Context (E : Env) (Halive : connection_alive E).

Lemma runs_set_fs g F D L :
  runs_to (modify (set_fs g)) (at_state F D L) tt (at_state (g F) D L).
Proof. intros w (<- & Hd & Hl). eexists. split; [done|]. by split. Qed.

(** The failure of lines 121-126, and the files it leaves. *)
Lemma fetch_thumbnail_raises url thumb_path F D L :
  match requests_get E url with
  | Raise _ => True
  | Ok response =>
      is_Some (resp_status_error response) ∨
      is_Some (open_wb_error E thumb_path) ∨
      is_Some (resp_stream_error response)
  end →
  ∃ e, raises_to (fetch_thumbnail E url thumb_path) (at_state F D L) e
         (fun w => ∃ F', at_state F' D L w ∧ ∀ p, p ≠ thumb_path → F' !! p = F !! p).
Proof.
  intros Hfail. unfold fetch_thumbnail.
  destruct (requests_get E url) as [response|e] eqn:Hget.
  - destruct (resp_status_error response) as [e|] eqn:Hstatus.
    { exists e. eapply raises_bind_r; [by apply runs_lift_ok|].
      apply raises_bind_l. rewrite Hstatus.
      intros w Hw. exists w. split; [done|]. by exists F. }
    destruct (open_wb_error E thumb_path) as [e|] eqn:Hopen.
    { exists e. eapply raises_bind_r; [by apply runs_lift_ok|].
      rewrite Hstatus. eapply raises_bind_r; [apply runs_raise_if_none|].
      apply raises_bind_l.
      intros w Hw. exists w. split; [done|]. by exists F. }
    destruct (resp_stream_error response) as [e|] eqn:Hstream.
    { exists e. eapply raises_bind_r; [by apply runs_lift_ok|].
      rewrite Hstatus, Hstream. eapply raises_bind_r; [apply runs_raise_if_none|].
      eapply raises_bind_r; [apply runs_raise_if_none|].
      eapply raises_bind_r; [apply runs_set_fs|].
      eapply raises_bind_r; [apply runs_set_fs|].
      intros w Hw. exists w. split; [done|]. eexists. split; [exact Hw|].
      intros p Hp. by rewrite !lookup_insert_ne. }
    destruct Hfail as [[? [=]] | [[? [=]] | [? [=]]]].
  - exists e. apply raises_bind_l.
    intros w Hw. exists w. split; [done|]. by exists F.
Qed.

Lemma download_thumbnail_fails out_folder title info F D L :
  thumbnail_fails E out_folder title info →
  runs_to (download_thumbnail E RealWS out_folder title info) (at_state F D L) None
    (fun w => ∃ F' note,
       at_state F' D (L ++ note) w ∧
       (∀ root, F' !! (root ++ ".mp3") = F !! (root ++ ".mp3")) ∧
       Forall thumbnail_note note).
Proof.
  unfold thumbnail_fails, download_thumbnail.
  assert (∀ w, at_state F D L w →
            ∃ F' note, at_state F' D (L ++ note) w ∧
              (∀ root, F' !! (root ++ ".mp3") = F !! (root ++ ".mp3")) ∧
              Forall thumbnail_note note) as Hquiet.
  { intros w Hw. exists F, []. by rewrite app_nil_r. }
  destruct (last (default [] (info_thumbnails info))) as [t|].
  - destruct (thumb_url t) as [url|]; [|intros _; eapply runs_conseq; [apply runs_ret|done..]].
    destruct (String.eqb_spec url "") as [->|Hurl];
      [intros _; eapply runs_conseq; [apply runs_ret|done..]|].
    intros [? | Hfail]; [done|].
    destruct (fetch_thumbnail_raises url (thumbnail_path E out_folder title url) F D L Hfail)
      as [e Hraise].
    eapply runs_try_caught.
    { apply raises_bind_l. exact Hraise. }
    apply runs_exists_pre. intros F'.
    intros w [Hw Hother].
    destruct (runs_send_json E Halive F' D L
                (progress_msg (PInt 95) ("Не удалось скачать обложку: " ++ str_exn e)) w Hw)
      as (w1 & Hsend & Hw1).
    exists w1. split; [unfold bind; by rewrite Hsend|].
    exists F', [progress_msg (PInt 95) ("Не удалось скачать обложку: " ++ str_exn e)].
    split; [done|]. split.
    + intros root. apply Hother, mp3_not_thumbnail.
    + apply Forall_singleton. by eexists.
  - intros _. intros w Hw.
    destruct (runs_send_json E Halive F D L
                (progress_msg (PInt 95) "Миниатюра недоступна") w Hw) as (w1 & Hsend & Hw1).
    exists w1. split; [unfold bind; by rewrite Hsend|].
    exists F, [progress_msg (PInt 95) "Миниатюра недоступна"].
    split; [done|]. split; [done|]. apply Forall_singleton. by eexists.
Qed.

End ThumbnailFails.

(** *** Thumbnail failure is not fatal *)

Section ThumbnailNotFatal.
Import App DownloadYt.

Lemma within_limit (size : N) (m : Z) :
  (megabytes size <= inject_Z m)%Q → Qle_bool (megabytes size) (inject_Z m) = true.
Proof. apply Qle_bool_iff. Qed.

Lemma download_audio_thumbnail_fails (E : Env) url out_folder m F D L
    info1 calls F1 info2 fname size :
  connection_alive E →
  m ≠ 0 →
  ydl_extract_info E (ydl_opts out_folder (Some m)) url = Ok info1 →
  ydl_download E (ydl_opts out_folder (Some m)) url (ensure_dir out_folder F)
    = (calls, F1, Ok info2) →
  ydl_prepare_filename E info2 = Ok fname →
  F1 !! ((OsPath.splitext fname).1 ++ ".mp3") = Some (File size) →
  (megabytes size <= inject_Z m)%Q →
  thumbnail_fails E out_folder (safe_filename (default "audio" (info_title info1))) info2 →
  runs_to (download_audio E url RealWS out_folder (Some m))
    (at_state F D L) (Some ((OsPath.splitext fname).1 ++ ".mp3"), None)
    (fun w => ∃ F' L',
       at_state F' D L' w ∧
       (F' !! ((OsPath.splitext fname).1 ++ ".mp3") = Some (File size) ∧
        ∃ note,
          Forall thumbnail_note note ∧
          L' = (L ++ [progress_msg (PInt 5) "Получение информации о видео...";
                      progress_msg (PInt 10)
                        ("Начинаем скачивание: "
                           ++ safe_filename (default "audio" (info_title info1)));
                      progress_msg (PInt 90) "Скачивание миниатюры..."]
                  ++ note ++ [progress_msg (PInt 100) "Готово!"])%list)).
Proof.
  intros Halive Hm Hinfo Hdl Hname Hmp3 Hfits Hthumb. unfold download_audio.
  eapply runs_bind; [apply runs_ensure_dir|].
  apply runs_try_ok.
  eapply runs_bind; [by apply runs_send_json|].
  eapply runs_bind; [by apply runs_lift_ok|].
  eapply runs_bind; [by apply runs_send_json|].
  eapply runs_bind; [by eapply runs_extract_info_download, Hdl|].
  eapply runs_bind; [by apply runs_lift_ok|].
  eapply runs_bind; [apply runs_os_path_exists|].
  rewrite bool_decide_eq_true_2 by (rewrite lookup_path_mp3, Hmp3; eauto). cbn [negb].
  replace (m =? 0) with false by lia.
  eapply runs_bind; [by eapply runs_os_path_getsize|].
  rewrite within_limit by done. cbn [negb].
  eapply runs_bind; [by apply runs_send_json|].
  eapply runs_bind; [by apply download_thumbnail_fails|]. cbv beta.
  apply runs_exists_pre. intros F'. apply runs_exists_pre. intros note.
  intros w (Hw & Hroot & Hnote).
  destruct (runs_send_json E Halive _ _ _ (progress_msg (PInt 100) "Готово!") w Hw)
    as (w1 & Hsend & Hw1).
  exists w1. split; [unfold bind; by rewrite Hsend|].
  eexists _, _. split; [exact Hw1|]. split; [by rewrite Hroot|].
  exists note. split; [done|]. by rewrite <- !app_assoc.
Qed.

(** X26: when audio extraction succeeds (the file is there, within the
    limit) and the client stays connected, a failing thumbnail retrieval
    (no thumbnail listed, no url, request error or timeout, error status,
    unwritable file, broken body) leaves the job completed with
    [thumb_path] and [error] unset; the handler's messages are the
    progress steps, at most one note on the thumbnail, and the success
    payload, which has no [error] and no [thumbnail_url]. *)
Theorem thumbnail_failure_not_fatal (E : Env) (url : string) (maxsize : Z) (w : World)
    (info1 info2 : Info) (calls : list HookDict) (files : gmap string node)
    (fname : string) (size : N)
    (Hreq : accepted_request E url maxsize)
    (Halive : connection_alive E)
    (Hinfo : ydl_extract_info E (ydl_opts DOWNLOAD_FOLDER (Some maxsize)) url = Ok info1)
    (Hdl : ydl_download E (ydl_opts DOWNLOAD_FOLDER (Some maxsize)) url
             (files_at_download DOWNLOAD_FOLDER w) = (calls, files, Ok info2))
    (Hname : ydl_prepare_filename E info2 = Ok fname)
    (Hmp3 : files !! ((OsPath.splitext fname).1 ++ ".mp3") = Some (File size))
    (Hfits : (megabytes size <= inject_Z maxsize)%Q)
    (Hthumb : thumbnail_fails E DOWNLOAD_FOLDER
                (safe_filename (default "audio" (info_title info1))) info2) :
  let mp3_path := (OsPath.splitext fname).1 ++ ".mp3" in
  let task_id := uuid4 E (S (n_uuid w)) in
  let title := safe_filename (default "audio" (info_title info1)) in
  let success :=
    [("message", PStr "Загрузка завершена успешно! 🎵");
     ("download_url", PStr ("/api/file/" ++ OsPath.basename mp3_path));
     ("task_id", PStr task_id);
     ("file_size_mb", PFloat (round2 E (megabytes size)))] in
  let w' := (websocket_download E url maxsize w).2 in
  (websocket_download E url maxsize w).1 = Ok tt ∧
  job_field w' task_id "status" = Some (PStr "completed") ∧
  job_field w' task_id "mp3_path" = Some (PStr mp3_path) ∧
  job_field w' task_id "thumb_path" = Some PNone ∧
  job_field w' task_id "error" = Some PNone ∧
  fs w' !! mp3_path = Some (File size) ∧
  dict_get "error" success = None ∧
  dict_get "thumbnail_url" success = None ∧
  ∃ note,
    Forall thumbnail_note note ∧
    handler_msgs w' =
      (handler_msgs w
         ++ [[("status", PStr ("Начинаем загрузку с " ++ get_platform_from_url E url ++ "..."));
              ("progress", PInt 0); ("task_id", PStr task_id)];
             progress_msg (PInt 5) "Получение информации о видео...";
             progress_msg (PInt 10) ("Начинаем скачивание: " ++ title);
             progress_msg (PInt 90) "Скачивание миниатюры..."]
         ++ note
         ++ [progress_msg (PInt 100) "Готово!"; success])%list.
Proof.
  intros mp3_path task_id title success.
  assert (maxsize ≠ 0) as Hnz by (destruct Hreq as (_ & _ & ? & _); lia).
  edestruct (accepted_run_result E url maxsize w) as [Hret Hfinal]; [done| | |].
  - eapply download_and_report_completed with (mp3 := mp3_path) (size := size);
      [done | apply lookup_insert_eq | by apply append_nonempty |].
    eapply download_audio_thumbnail_fails; eauto.
  - intros g w0 Hw0. exact Hw0.
  - cbv beta in Hfinal.
    destruct Hfinal as (L' & (note & Hnote & ->) & Hfile & Hmsgs & Hstatus
                        & _ & Hpath & Hthumb_path & Herror).
    cbv zeta. split; [exact Hret|].
    split; [exact Hstatus|]. split; [exact Hpath|]. split; [exact Hthumb_path|].
    split; [exact Herror|]. split; [exact Hfile|]. split; [done|]. split; [done|].
    exists note. split; [done|]. rewrite Hmsgs.
    rewrite <- !app_assoc. reflexivity.
Qed.

Lemma thumbnail_failure_not_fatal_witness :
  let E := Demo.env Demo.always_delivered Demo.run_all [] (10 * 1048576) in
  let w' := (websocket_download E "https://youtu.be/abc123" 15 Demo.world0).2 in
  job_field w' "uuid-1" "status" = Some (PStr "completed") ∧
  job_field w' "uuid-1" "thumb_path" = Some PNone ∧
  job_field w' "uuid-1" "error" = Some PNone.
Proof.
  intros E w'.
  destruct (thumbnail_failure_not_fatal E "https://youtu.be/abc123" 15 Demo.world0
              Demo.info Demo.info []
              (<["download/My_Song_Title_.mp3" := File (10 * 1048576)]> (fs Demo.world0))
              "download/My_Song_Title_.webm" (10 * 1048576))
    as (_ & Hstatus & _ & Hthumb & Herror & _).
  - repeat split; reflexivity || (unfold MAX_FILE_SIZE_MB; lia).
  - intros n. reflexivity.
  - reflexivity.
  - vm_compute. reflexivity.
  - reflexivity.
  - apply lookup_insert_eq.
  - discriminate.
  - right. exact I.
  - split; [exact Hstatus | split; [exact Hthumb | exact Herror]].
Defined.

(** C9: the code on a thumbnail failure whose note cannot be sent.  The
    audio file is there, 10 MB for a limit of 15, the thumbnail request
    times out, and the client leaves before the note of line 130 goes
    out.  The exception leaves the thumbnail handler, the send of line
    139 fails as well, and the handler returns with the job still
    [created], not completed, although the audio file is in place; the
    client got neither the link nor an error. *)
Theorem thumbnail_note_disconnect_leaves_job_created :
  let size := (10 * 1048576)%N in
  let E := Demo.env (Demo.gone_from 4) Demo.run_all [] size in
  let run := websocket_download E "https://youtu.be/abc123" 15 Demo.world0 in
  accepted_request E "https://youtu.be/abc123" 15 ∧
  (megabytes size <= inject_Z 15)%Q ∧
  thumbnail_fails E DOWNLOAD_FOLDER "My_Song_Title_" Demo.info ∧
  run.1 = Ok tt ∧
  fs run.2 !! "download/My_Song_Title_.mp3" = Some (File size) ∧
  job_status run.2 "uuid-1" = Some (PStr "created") ∧
  omap (dict_get "progress") (dl_msg <$> delivered (ws_log run.2))
    = [PInt 0; PInt 5; PInt 10; PInt 90] ∧
  omap (dict_get "download_url") (dl_msg <$> delivered (ws_log run.2)) = [] ∧
  omap (dict_get "error") (dl_msg <$> delivered (ws_log run.2)) = [].
Proof.
  intros size E run. split.
  - repeat split; reflexivity || (unfold MAX_FILE_SIZE_MB; lia).
  - split; [discriminate|]. split; [right; exact I|].
    repeat (split; [vm_compute; reflexivity|]). vm_compute. reflexivity.
Qed.

End ThumbnailNotFatal.

(** *** Progress values of the handler's own messages *)

Section Monotone.




Context (E : Env).







End Monotone.

Section MonotoneDownload.
Import App DownloadYt.
Context (E : Env).








End MonotoneDownload.

Section MonotoneHandler.
Import App DownloadYt.
Context (E : Env).






End MonotoneHandler.

Section MonotoneTheorem.
Import App DownloadYt.
Context (E : Env).








End MonotoneTheorem.

(** The messages of the progress hook, from the extractor to the client *)

Section RelayedTraffic.
Import App DownloadYt.
Context (E : Env).












End RelayedTraffic.

Section ProgressClaim.
Import App.




End ProgressClaim.

(** *** The code on the scenarios of the specification *)

Section Scenarios.
Import App.

Example splitext_examples :
  OsPath.splitext "download/My Song.webm" = ("download/My Song", ".webm") ∧
  OsPath.splitext "download/.hidden" = ("download/.hidden", "") ∧
  OsPath.splitext "a.b/..c.d" = ("a.b/..c", ".d") ∧
  OsPath.join "download" "x.mp3" = "download/x.mp3" ∧
  OsPath.basename "download/x.mp3" = "x.mp3".
Proof. repeat split. Qed.

(** [url=https://youtu.be/abc123], [maxsize=15], a 10 MB result and a
    thumbnail request that times out: the handler's messages carry 0, 5,
    10, 90, 95, 100 and end with the download link. *)
Example youtube_request :
  let E := Demo.env Demo.always_delivered Demo.run_all [] (10 * 1048576) in
  let w' := (websocket_download E "https://youtu.be/abc123" 15 Demo.world0).2 in
  omap (dict_get "progress") (handler_msgs w') =
    [PInt 0; PInt 5; PInt 10; PInt 90; PInt 95; PInt 100] ∧
  (last (handler_msgs w') ≫= dict_get "download_url")
    = Some (PStr "/api/file/My_Song_Title_.mp3") ∧
  job_status w' "uuid-1" = Some (PStr "completed").
Proof. repeat (split; [vm_compute; reflexivity|]). vm_compute. reflexivity. Qed.

End Scenarios.

(** ** Further properties of the code *)

Local Set Warnings "-clear-no-such-hyp".

(** *** The job store *)

Section JobStoreMore.
Import App.
Context (E : Env).

Lemma dict_get_snoc k (l : pydict) k' v' :
  dict_get k (l ++ [(k', v')])%list =
  match dict_get k l with
  | Some v => Some v
  | None => if String.eqb k' k then Some v' else None
  end.
Proof.
  induction l as [|[k0 v0] l IH]; simpl; [done|].
  by destruct (String.eqb k0 k).
Qed.

Lemma dict_get_set k k' v d :
  dict_get k (dict_set k' v d) = if String.eqb k' k then Some v else dict_get k d.
Proof.
  destruct (String.eqb_spec k' k) as [->|Hne].
  - apply dict_get_set_eq.
  - by apply dict_get_set_ne.
Qed.

(** [d.update(kwargs)] read back: the last binding of the key in
    [kwargs], else the old value. *)
Lemma dict_get_update k d kwargs :
  dict_get k (dict_update d kwargs) =
  match dict_get k (reverse kwargs) with
  | Some v => Some v
  | None => dict_get k d
  end.
Proof.
  revert d. induction kwargs as [|[k' v'] kwargs IH]; intros d; [done|].
  rewrite dict_update_cons, IH, reverse_cons, dict_get_snoc, dict_get_set.
  destruct (dict_get k (reverse kwargs)); [done|].
  by destruct (String.eqb k' k).
Qed.

Lemma update_unknown_noop task_id kwargs w :
  downloads w !! task_id = None → update_download E task_id kwargs w = (Ok tt, w).
Proof. intros H. unfold update_download, bind, get_world. by rewrite H. Qed.

Lemma status_found task_id w field (fields : pydict) :
  downloads w !! task_id = Some ((field :: fields) : pydict) →
  get_download_status task_id w = (Ok (field :: fields), w).
Proof.
  intros H. unfold get_download_status, get_download, get_world, bind, ret.
  cbv beta iota. by rewrite H.
Qed.

(** X1: a job just created is found under the id that was returned, with
    status [created], progress 0, the url and size of the request and no
    paths or error; every other record of the store is as before. *)
Theorem create_then_get (url : string) (maxsize : Z) (w : World) :
  ∃ task_id w1 job,
    create_download_task E url maxsize w = (Ok task_id, w1) ∧
    get_download task_id w1 = (Ok (Some job), w1) ∧
    get_download_status task_id w1 = (Ok job, w1) ∧
    dict_get "url" job = Some (PStr url) ∧
    dict_get "maxsize" job = Some (PInt maxsize) ∧
    dict_get "status" job = Some (PStr "created") ∧
    dict_get "progress" job = Some (PInt 0) ∧
    dict_get "mp3_path" job = Some PNone ∧
    dict_get "thumb_path" job = Some PNone ∧
    dict_get "error" job = Some PNone ∧
    dict_get "updated_at" job = None ∧
    ∀ other, other ≠ task_id → downloads w1 !! other = downloads w !! other.
Proof.
  eexists (uuid4 E (n_uuid w)), _, _. split; [reflexivity|].
  split; [unfold get_download, get_world, bind, ret; simpl; by rewrite lookup_insert_eq|].
  split.
  { unfold get_download_status, get_download, get_world, bind, ret; simpl.
    by rewrite lookup_insert_eq. }
  repeat (split; [reflexivity|]).
  intros other Hne. simpl. by rewrite lookup_insert_ne.
Qed.

(** X2: [update_download] on an id that is not in the store does nothing
    at all: it returns, and the state (store, clock) is unchanged. *)
Theorem update_unknown_is_noop (task_id : string) (kwargs : pydict) (w : World)
    (Hunknown : downloads w !! task_id = None) :
  update_download E task_id kwargs w = (Ok tt, w).
Proof. by apply update_unknown_noop. Qed.

(** X3: [update_download] on a stored job merges the given fields into
    the record: a field read back has the last value given for it, or
    its old value when none was given; [updated_at] is the time of the
    call; the ids of the store and every other record are unchanged. *)
Theorem update_merges_fields (task_id : string) (kwargs job : pydict) (w : World)
    (Hjob : downloads w !! task_id = Some job) :
  let w' := (update_download E task_id kwargs w).2 in
  (update_download E task_id kwargs w).1 = Ok tt ∧
  (∀ field,
     job_field w' task_id field =
     if String.eqb "updated_at" field then Some (PStr (now_isoformat E (n_clock w)))
     else match dict_get field (reverse kwargs) with
          | Some v => Some v
          | None => dict_get field job
          end) ∧
  dom (downloads w') = dom (downloads w) ∧
  (∀ other, other ≠ task_id → downloads w' !! other = downloads w !! other).
Proof.
  intros w'. subst w'. rewrite (update_download_lookup E _ _ _ _ Hjob).
  cbn [fst snd downloads set_downloads tick_clock].
  split; [done|]. split; [|split].
  - intros field. unfold job_field. cbn [downloads set_downloads tick_clock].
    rewrite lookup_insert_eq. cbn [mbind option_bind].
    rewrite dict_get_set. destruct (String.eqb "updated_at" field); [done|].
    apply dict_get_update.
  - rewrite dom_insert_L. apply elem_of_dom_2 in Hjob.
    by apply subseteq_union_1_L, singleton_subseteq_l.
  - intros other Hne. by rewrite lookup_insert_ne.
Qed.

(** X4: the status endpoint answers an id that is not in the store with
    404 and returns the record of an id that is, leaving the state
    untouched in both cases. *)
Theorem status_lookup (task_id : string) (w : World) :
  match downloads w !! task_id with
  | Some (field :: fields) =>
      get_download_status task_id w = (Ok (field :: fields), w)
  | _ =>
      get_download_status task_id w
      = (Raise (HTTPException 404 "Задача загрузки не найдена"), w)
  end.
Proof.
  unfold get_download_status, get_download, get_world, bind, ret.
  by destruct (downloads w !! task_id) as [[|field fields]|].
Qed.

End JobStoreMore.

Section JobStoreWitnesses.
Import App.

Lemma update_unknown_is_noop_witness :
  update_download (Demo.env Demo.always_delivered Demo.run_all [] 0) "no-such-id"
    [("status", PStr "failed")] Demo.world0
  = (Ok tt, Demo.world0).
Proof. apply update_unknown_is_noop. reflexivity. Defined.

Lemma update_merges_fields_witness :
  let E := Demo.env Demo.always_delivered Demo.run_all [] 0 in
  let w := (create_download_task E "https://youtu.be/abc123" 15 Demo.world0).2 in
  job_field (update_download E "uuid-0" [("status", PStr "failed")] w).2 "uuid-0" "status"
  = Some (PStr "failed").
Proof.
  intros E w.
  destruct (update_merges_fields E "uuid-0" [("status", PStr "failed")]
              (new_job "https://youtu.be/abc123" 15 "t0") w) as (_ & Hfield & _).
  - reflexivity.
  - apply (Hfield "status").
Defined.

End JobStoreWitnesses.

(** *** Platform classification *)

Section Platforms.
Import PyStr App.

(** X5: [get_platform_from_url] agrees with the two tests the handlers
    use.  It answers [YouTube] exactly when [is_supported_platform]
    holds, even if the url also carries a coming-soon marker; otherwise
    the upper-cased first coming-soon marker of the url; and the
    unknown-platform text exactly when neither test holds. *)
Theorem platform_label_agrees (E : Env) (url : string) :
  get_platform_from_url E url =
    (if is_supported_platform E url then "YouTube"
     else if str_in "vk.com" (str_lower E url) then "VK.COM"
     else if str_in "soundcloud.com" (str_lower E url) then "SOUNDCLOUD.COM"
     else if str_in "spotify.com" (str_lower E url) then "SPOTIFY.COM"
     else "Неизвестная платформа") ∧
  (is_supported_platform E url || is_coming_soon E url =
   negb (String.eqb (get_platform_from_url E url) "Неизвестная платформа")).
Proof.
  unfold get_platform_from_url, is_supported_platform, is_coming_soon.
  destruct (existsb _ SUPPORTED_PLATFORMS); [done|].
  simpl.
  destruct (str_in "vk.com" _); [done|].
  destruct (str_in "soundcloud.com" _); [done|].
  by destruct (str_in "spotify.com" _).
Qed.

End Platforms.

(** *** The streaming handler on every path *)

Section HandlerAlways.
Import App.
Context (E : Env).

Lemma returns_raise_if_swallowed o : returns (swallow (raise_if o)).
Proof. intros w. destruct o; by eexists _, _. Qed.

Lemma returns_swallow (m : M unit) : returns (swallow m).
Proof. apply returns_try_except. intros e. apply returns_ret. Qed.

Lemma returns_on_error e : returns (on_error E e).
Proof. destruct e; simpl; [apply returns_ret | apply returns_swallow..]. Qed.

Lemma returns_teardown cid : returns (teardown E cid).
Proof.
  unfold teardown. apply returns_bind; [apply returns_modify|].
  intros ?. apply returns_swallow.
Qed.

(** X6: the streaming handler never lets an exception out: whatever the
    connection, the extractor and the request do, it returns. *)
Theorem websocket_download_never_raises (url : string) (maxsize : Z) (w : World) :
  (websocket_download E url maxsize w).1 = Ok tt.
Proof.
  unfold websocket_download, bind, uuid_uuid4, try_finally.
  match goal with
  | |- context [try_except ?m ?h ?w0] =>
      destruct (returns_try_except m h returns_on_error w0) as ([] & w1 & ->)
  end.
  match goal with
  | |- context [teardown E ?cid w1] =>
      destruct (returns_teardown cid w1) as ([] & w2 & ->)
  end.
  reflexivity.
Qed.

Lemma create_download_task_frames {T} (f : World -> T) url maxsize :
  (∀ g w, f (set_downloads g w) = f w) →
  (∀ w, f (tick_uuid w) = f w) → (∀ w, f (tick_clock w) = f w) →
  frames f (create_download_task E url maxsize).
Proof.
  intros Hd Hu Hc w. unfold create_download_task, bind, uuid_uuid4, datetime_now, modify.
  simpl. by rewrite Hd, Hc, Hu.
Qed.

Lemma update_download_frames {T} (f : World -> T) task_id kwargs :
  (∀ g w, f (set_downloads g w) = f w) → (∀ w, f (tick_clock w) = f w) →
  frames f (update_download E task_id kwargs).
Proof.
  intros Hd Hc w. unfold update_download, bind, get_world, datetime_now, modify.
  destruct (downloads w !! task_id); simpl; [|done].
  by rewrite Hd, Hc, Hd.
Qed.

Lemma download_and_report_frames {T} (f : World -> T) url maxsize platform task_id :
  ignores_io f →
  (∀ g w, f (set_downloads g w) = f w) → (∀ w, f (tick_clock w) = f w) →
  frames f (download_and_report E url maxsize platform task_id).
Proof.
  intros Hf Hd Hc.
  pose proof (download_audio_frames E f Hf) as Haudio.
  pose proof (@path_ready_frames T f) as Hready.
  pose proof (fun task_id kwargs => update_download_frames f task_id kwargs Hd Hc) as Hupdate.
  destruct Hf as (Hlog & Hq & Hfs).
  unfold download_and_report.
  repeat first
    [ match goal with
      | |- frames _ (update_download _ _ _) => apply Hupdate
      | |- frames _ (DownloadYt.download_audio _ _ _ _ _) => apply Haudio
      | |- frames _ (path_ready _) => apply Hready
      end
    | frames_step ].
Qed.

(** X7: when the streaming handler returns, its connection is no longer
    in the registry and every other registered connection still is: the
    registry is the one it started with, less the id drawn for this
    connection. *)
Theorem connection_always_unregistered (url : string) (maxsize : Z) (w : World) :
  active_connections (websocket_download E url maxsize w).2 =
  active_connections w ∖ {[uuid4 E (n_uuid w)]}.
Proof.
  set (cid := uuid4 E (n_uuid w)).
  pose (K := fun s : gset string => s ∖ {[cid]} = active_connections w ∖ {[cid]}).
  assert (keeps (fun w0 => K (active_connections w0))
            (try_except (websocket_download_body E cid url maxsize) (on_error E)))
    as Hbody.
  { assert (ignores_io active_connections) as Hio by done.
    apply keeps_try_except;
      [|intros e; by apply (frames_keeps active_connections K), on_error_frames].
    unfold websocket_download_body.
    apply keeps_bind; [apply (frames_keeps active_connections K), frames_raise_if|].
    intros ?. apply keeps_bind.
    { intros w0 Hw0. unfold K in *. simpl. rewrite <- Hw0. set_solver. }
    intros ?.
    assert (∀ msg, keeps (fun w0 => K (active_connections w0)) (send_json E RealWS msg))
      as Hsend.
    { intros msg. by apply (frames_keeps active_connections K), send_json_frames. }
    repeat match goal with
           | |- keeps _ (match ?x with _ => _ end) => destruct x
           | |- keeps _ (send_json _ _ _) => apply Hsend
           end.
    apply keeps_bind.
    - by apply (frames_keeps active_connections K), create_download_task_frames.
    - intros task_id.
      by apply (frames_keeps active_connections K), download_and_report_frames. }
  unfold websocket_download, bind, uuid_uuid4, try_finally. fold cid.
  specialize (Hbody (tick_uuid w) eq_refl).
  destruct (try_except _ _ (tick_uuid w)) as [r w1]. simpl in Hbody.
  unfold teardown, swallow, try_except, bind, modify.
  destruct (ws_close_error E); destruct r; simpl; unfold K in Hbody; rewrite <- Hbody;
    set_solver.
Qed.

End HandlerAlways.

Section HandlerValidation.
Import App.

Lemma on_error_frames_connection {T} E (f : World -> T) e :
  (∀ g w, f (set_ws_log g w) = f w) → (∀ g w, f (set_loop_queue g w) = f w) →
  frames f (on_error E e).
Proof. intros Hlog Hq. unfold on_error, swallow. destruct e; solve_frames. Qed.

(** X8: a blank url (empty, or empty once stripped) on an accepted
    connection is refused first, whatever the size: the handler's first
    message is the empty-url error and no job is created. *)
Theorem blank_url_rejected (E : Env) (url : string) (maxsize : Z) (w : World)
    (Hfresh : fresh_connection w)
    (Haccept : ws_accept_error E = None)
    (Hblank : (String.eqb url "" || String.eqb (str_strip E url) "") = true) :
  let w' := (websocket_download E url maxsize w).2 in
  downloads w' = downloads w ∧
  fs w' = fs w ∧
  head (ws_log w') =
    Some {| dl_origin := Handler;
            dl_msg := [("error", PStr "URL не может быть пустым")];
            dl_error := ws_send_error E 0 |}.
Proof.
  intros w'. subst w'.
  assert (fs (websocket_download E url maxsize w).2 = fs w) as Hfs.
  { unfold websocket_download, websocket_download_body. rewrite Haccept, Hblank.
    unfold bind at 1. unfold uuid_uuid4 at 1. cbv beta iota.
    change (fs w) with (fs (tick_uuid w)).
    apply frames_try_finally; [|by apply teardown_frames].
    apply frames_try_except; [|intros e; by apply on_error_frames_connection].
    pose proof (send_json_frames E fs RealWS) as Hsend.
    solve_frames. }
  split; [|split; [exact Hfs|]];
    unfold websocket_download, websocket_download_body; rewrite Haccept, Hblank;
    unfold bind at 1; unfold uuid_uuid4 at 1; cbv beta iota;
    apply (single_answer E _ (uuid4 E (n_uuid w)) w Hfresh).
Qed.

Lemma blank_url_rejected_witness :
  let E := Demo.env Demo.always_delivered Demo.run_all [] 0 in
  let w' := (websocket_download E "   " 500 Demo.world0).2 in
  downloads w' = downloads Demo.world0 ∧
  fs w' = fs Demo.world0 ∧
  head (ws_log w') =
    Some {| dl_origin := Handler;
            dl_msg := [("error", PStr "URL не может быть пустым")];
            dl_error := None |}.
Proof.
  intros E w'.
  apply (blank_url_rejected E "   " 500 Demo.world0); [done | reflexivity | reflexivity].
Defined.

End HandlerValidation.

(** *** The job of an accepted request, on every path *)

Section JobIdentity.
Import App.
Context (E : Env).

Lemma update_download_keeps_identity task_id url maxsize created_at other kwargs :
  keeps_identity kwargs →
  keeps (fun w => job_identity task_id url maxsize created_at (downloads w))
        (update_download E other kwargs).
Proof.
  intros (Hurl & Hsize & Hcreated) w (job & Hjob & Hu & Hm & Hc).
  destruct (downloads w !! other) as [job'|] eqn:Hother.
  - rewrite (update_download_lookup E _ _ _ _ Hother).
    cbn [snd downloads set_downloads tick_clock].
    destruct (decide (other = task_id)) as [->|Hne].
    + assert (job' = job) as -> by congruence.
      eexists. rewrite lookup_insert_eq. split; [done|].
      rewrite !dict_get_set, !dict_get_update, Hurl, Hsize, Hcreated.
      by rewrite Hu, Hm, Hc.
    + exists job. by rewrite lookup_insert_ne.
  - rewrite (update_unknown_noop E) by done. by exists job.
Qed.

Lemma download_and_report_keeps_identity url maxsize platform task_id u m c :
  keeps (fun w => job_identity task_id u m c (downloads w))
        (download_and_report E url maxsize platform task_id).
Proof.
  unfold download_and_report.
  pose (J := job_identity task_id u m c).
  repeat
    match goal with
    | |- forall _, _ => intro
    | |- keeps _ (match ?x with _ => _ end) => destruct x
    | |- keeps _ (bind _ _) => apply keeps_bind
    | |- keeps _ (update_download _ _ _) =>
        apply update_download_keeps_identity; by repeat split
    | |- keeps _ (send_json _ _ _) =>
        apply (frames_keeps downloads J); by apply send_json_frames
    | |- keeps _ (DownloadYt.download_audio _ _ _ _ _) =>
        apply (frames_keeps downloads J); by apply download_audio_frames
    | |- keeps _ (path_ready _) => apply (frames_keeps downloads J), path_ready_frames
    | |- keeps _ (os_path_getsize _) =>
        apply (frames_keeps downloads J), os_path_getsize_frames
    end.
Qed.

(** X9: the job of an accepted request stays in the store on every path
    of the handler, disconnects included, with the url, size and creation
    time it was created with; so the status endpoint finds it. *)
Theorem job_stays_pollable (url : string) (maxsize : Z) (w : World)
    (Hreq : accepted_request E url maxsize) :
  let task_id := uuid4 E (S (n_uuid w)) in
  let w' := (websocket_download E url maxsize w).2 in
  job_identity task_id url maxsize (now_isoformat E (n_clock w)) (downloads w') ∧
  ∃ job, get_download_status task_id w' = (Ok job, w').
Proof.
  intros task_id w'.
  pose (J := job_identity task_id url maxsize (now_isoformat E (n_clock w))).
  assert (J (downloads w')) as HJ.
  { subst w'. rewrite websocket_download_accepted by done.
    apply (keeps_try_finally (fun w => J (downloads w))).
    - apply keeps_try_except; [apply download_and_report_keeps_identity|].
      intros e. apply (frames_keeps downloads J), on_error_frames, downloads_ignores_io.
    - by apply (frames_keeps downloads J), teardown_frames.
    - eexists. simpl. fold task_id. by rewrite lookup_insert_eq. }
  split; [exact HJ|].
  destruct HJ as (job & Hjob & Hurl & _).
  destruct job as [|field fields]; [done|].
  eexists. by apply status_found.
Qed.

End JobIdentity.

(** *** Failures of the extractor *)

Section ExtractorFailures.
Import App DownloadYt.

Lemma download_audio_info_raises (E : Env) url out_folder max F D L e :
  connection_alive E →
  ydl_extract_info E (ydl_opts out_folder max) url = Raise e →
  runs_to (download_audio E url RealWS out_folder max)
    (at_state F D L) (None, None)
    (at_state (ensure_dir out_folder F) D
       (L ++ [progress_msg (PInt 5) "Получение информации о видео...";
              progress_msg (PInt 0) ("Ошибка: " ++ str_exn e)])).
Proof.
  intros Halive Hinfo. unfold download_audio.
  eapply runs_bind; [apply runs_ensure_dir|].
  eapply runs_try_caught.
  - eapply raises_bind_r; [by apply runs_send_json|].
    apply raises_bind_l. by apply raises_lift.
  - eapply runs_bind; [by apply runs_send_json|].
    eapply runs_conseq; [apply runs_ret | done |].
    intros w. by rewrite <- !app_assoc.
Qed.

Lemma download_audio_no_artifact (E : Env) url out_folder max F D L
    info1 calls F1 info2 fname :
  connection_alive E →
  ydl_extract_info E (ydl_opts out_folder max) url = Ok info1 →
  ydl_download E (ydl_opts out_folder max) url (ensure_dir out_folder F)
    = (calls, F1, Ok info2) →
  ydl_prepare_filename E info2 = Ok fname →
  F1 !! ((OsPath.splitext fname).1 ++ ".mp3") = None →
  runs_to (download_audio E url RealWS out_folder max)
    (at_state F D L) (None, None)
    (at_state F1 D
       (L ++ [progress_msg (PInt 5) "Получение информации о видео...";
              progress_msg (PInt 10)
                ("Начинаем скачивание: " ++ safe_filename (default "audio" (info_title info1)));
              progress_msg (PInt 0) "Ошибка: mp3 файл не был создан"])).
Proof.
  intros Halive Hinfo Hdl Hname Hmp3. unfold download_audio.
  eapply runs_bind; [apply runs_ensure_dir|].
  apply runs_try_ok.
  eapply runs_bind; [by apply runs_send_json|].
  eapply runs_bind; [by apply runs_lift_ok|].
  eapply runs_bind; [by apply runs_send_json|].
  eapply runs_bind; [by eapply runs_extract_info_download, Hdl|].
  eapply runs_bind; [by apply runs_lift_ok|].
  eapply runs_bind; [apply runs_os_path_exists|].
  rewrite bool_decide_eq_false_2 by (rewrite lookup_path_mp3, Hmp3; by intros [? ?]). cbn [negb].
  eapply runs_bind; [by apply runs_send_json|].
  eapply runs_conseq; [apply runs_ret | done |].
  intros w. by rewrite <- !app_assoc.
Qed.

(** X10: when the extractor raises while fetching the metadata and the
    client stays connected, nothing is downloaded, the exception text
    goes out as a progress-0 status, and the job of an accepted request
    ends failed with the generic error as last message. *)
Theorem extractor_exception_fails_job (E : Env) (url : string) (maxsize : Z) (w : World)
    (e : exn)
    (Hreq : accepted_request E url maxsize)
    (Halive : connection_alive E)
    (Hinfo : ydl_extract_info E (ydl_opts DOWNLOAD_FOLDER (Some maxsize)) url = Raise e) :
  let task_id := uuid4 E (S (n_uuid w)) in
  let w' := (websocket_download E url maxsize w).2 in
  fs w' = files_at_download DOWNLOAD_FOLDER w ∧
  job_field w' task_id "status" = Some (PStr "failed") ∧
  job_field w' task_id "error" = Some (PStr (failed_text maxsize)) ∧
  job_field w' task_id "mp3_path" = Some PNone ∧
  handler_msgs w' =
    (handler_msgs w
       ++ [[("status", PStr ("Начинаем загрузку с " ++ get_platform_from_url E url ++ "..."));
            ("progress", PInt 0); ("task_id", PStr task_id)];
           progress_msg (PInt 5) "Получение информации о видео...";
           progress_msg (PInt 0) ("Ошибка: " ++ str_exn e);
           [("error", PStr (failed_text maxsize)); ("task_id", PStr task_id)]])%list.
Proof.
  intros task_id w'.
  edestruct (accepted_run_result E url maxsize w) as [_ Hfinal]; [done| | |].
  - eapply download_and_report_failed; [done | apply lookup_insert_eq |].
    by apply download_audio_info_raises.
  - intros g w0 Hw0. exact Hw0.
  - cbv beta in Hfinal. destruct Hfinal as (Hfs & Hmsgs & Hstatus & Herror & Hpath).
    split; [exact Hfs|]. split; [exact Hstatus|]. split; [exact Herror|].
    split; [exact Hpath|]. subst w'. rewrite Hmsgs, <- !app_assoc. reflexivity.
Qed.

(** X11: when the extractor reports success but the mp3 file it should
    have left is not there, and the client stays connected, the job of an
    accepted request ends failed: the handler says that the mp3 file was
    not created, then sends the generic error. *)
Theorem missing_artifact_fails_job (E : Env) (url : string) (maxsize : Z) (w : World)
    (info1 info2 : Info) (calls : list HookDict) (files : gmap string node)
    (fname : string)
    (Hreq : accepted_request E url maxsize)
    (Halive : connection_alive E)
    (Hinfo : ydl_extract_info E (ydl_opts DOWNLOAD_FOLDER (Some maxsize)) url = Ok info1)
    (Hdl : ydl_download E (ydl_opts DOWNLOAD_FOLDER (Some maxsize)) url
             (files_at_download DOWNLOAD_FOLDER w) = (calls, files, Ok info2))
    (Hname : ydl_prepare_filename E info2 = Ok fname)
    (Hmp3 : files !! ((OsPath.splitext fname).1 ++ ".mp3") = None) :
  let task_id := uuid4 E (S (n_uuid w)) in
  let w' := (websocket_download E url maxsize w).2 in
  fs w' = files ∧
  job_field w' task_id "status" = Some (PStr "failed") ∧
  job_field w' task_id "mp3_path" = Some PNone ∧
  handler_msgs w' =
    (handler_msgs w
       ++ [[("status", PStr ("Начинаем загрузку с " ++ get_platform_from_url E url ++ "..."));
            ("progress", PInt 0); ("task_id", PStr task_id)];
           progress_msg (PInt 5) "Получение информации о видео...";
           progress_msg (PInt 10)
             ("Начинаем скачивание: " ++ safe_filename (default "audio" (info_title info1)));
           progress_msg (PInt 0) "Ошибка: mp3 файл не был создан";
           [("error", PStr (failed_text maxsize)); ("task_id", PStr task_id)]])%list.
Proof.
  intros task_id w'.
  edestruct (accepted_run_result E url maxsize w) as [_ Hfinal]; [done| | |].
  - eapply download_and_report_failed; [done | apply lookup_insert_eq |].
    eapply download_audio_no_artifact; eauto.
  - intros g w0 Hw0. exact Hw0.
  - cbv beta in Hfinal. destruct Hfinal as (Hfs & Hmsgs & Hstatus & Herror & Hpath).
    split; [exact Hfs|]. split; [exact Hstatus|]. split; [exact Hpath|].
    subst w'. rewrite Hmsgs, <- !app_assoc. reflexivity.
Qed.

End ExtractorFailures.

Section ExtractorFailuresWitnesses.
Import App DownloadYt.

Lemma extractor_exception_fails_job_witness :
  let E := Demo.with_extractor (Demo.env Demo.always_delivered Demo.run_all [] 0)
             (fun _ _ => Raise (Exception "Video unavailable"))
             (fun _ _ files => ([], files, Raise (Exception "Video unavailable"))) in
  let w' := (websocket_download E "https://youtu.be/abc123" 15 Demo.world0).2 in
  job_field w' "uuid-1" "status" = Some (PStr "failed") ∧
  omap (dict_get "status") (handler_msgs w') =
    [PStr "Начинаем загрузку с YouTube...";
     PStr "Получение информации о видео...";
     PStr "Ошибка: Video unavailable"].
Proof.
  intros E w'.
  destruct (extractor_exception_fails_job E "https://youtu.be/abc123" 15 Demo.world0
              (Exception "Video unavailable"))
    as (_ & Hstatus & _ & _ & Hmsgs).
  - repeat split; reflexivity || (unfold MAX_FILE_SIZE_MB; lia).
  - intros n. reflexivity.
  - reflexivity.
  - split; [exact Hstatus|]. subst w'. rewrite Hmsgs. reflexivity.
Defined.

Lemma missing_artifact_fails_job_witness :
  let E := Demo.with_extractor (Demo.env Demo.always_delivered Demo.run_all [] 0)
             (fun _ _ => Ok Demo.info)
             (fun _ _ files => ([], files, Ok Demo.info)) in
  let w' := (websocket_download E "https://youtu.be/abc123" 15 Demo.world0).2 in
  job_field w' "uuid-1" "status" = Some (PStr "failed") ∧
  job_field w' "uuid-1" "mp3_path" = Some PNone.
Proof.
  intros E w'.
  destruct (missing_artifact_fails_job E "https://youtu.be/abc123" 15 Demo.world0
              Demo.info Demo.info [] (fs Demo.world0) "download/My_Song_Title_.webm")
    as (_ & Hstatus & Hpath & _).
  - repeat split; reflexivity || (unfold MAX_FILE_SIZE_MB; lia).
  - intros n. reflexivity.
  - reflexivity.
  - vm_compute. reflexivity.
  - reflexivity.
  - vm_compute. reflexivity.
  - split; [exact Hstatus | exact Hpath].
Defined.

End ExtractorFailuresWitnesses.

(** *** A thumbnail that is fetched *)

Section ThumbnailSaved.
Import App DownloadYt.
Context (E : Env) (Halive : connection_alive E).

Lemma thumbnail_path_nonempty out_folder title url :
  thumbnail_path E out_folder title url ≠ "".
Proof.
  unfold thumbnail_path.
  destruct (join_suffix out_folder (title ++ "_thumbnail" ++ thumb_ext E url)) as [p ->].
  apply append_nonempty, append_nonempty. unfold thumb_ext.
  by repeat case_match.
Qed.

Lemma fetch_thumbnail_saves url thumb_path response F D L :
  requests_get E url = Ok response →
  resp_status_error response = None →
  open_wb_error E thumb_path = None →
  resp_stream_error response = None →
  runs_to (fetch_thumbnail E url thumb_path) (at_state F D L) tt
    (at_state (<[thumb_path := File (foldr N.add 0%N (resp_chunks response))]> F) D L).
Proof.
  intros Hget Hstatus Hopen Hstream. unfold fetch_thumbnail.
  eapply runs_bind; [by apply runs_lift_ok|].
  rewrite Hstatus, Hopen, Hstream.
  eapply runs_bind; [apply runs_raise_if_none|].
  eapply runs_bind; [apply runs_raise_if_none|].
  eapply runs_bind; [apply runs_set_fs|].
  eapply runs_bind; [apply runs_set_fs|].
  eapply runs_conseq; [apply runs_raise_if_none | done |].
  intros w. by rewrite insert_insert_eq.
Qed.

Lemma download_audio_with_thumbnail url out_folder m F D L
    info1 calls F1 info2 fname size t thumb response :
  m ≠ 0 →
  ydl_extract_info E (ydl_opts out_folder (Some m)) url = Ok info1 →
  ydl_download E (ydl_opts out_folder (Some m)) url (ensure_dir out_folder F)
    = (calls, F1, Ok info2) →
  ydl_prepare_filename E info2 = Ok fname →
  F1 !! ((OsPath.splitext fname).1 ++ ".mp3") = Some (File size) →
  (megabytes size <= inject_Z m)%Q →
  last (default [] (info_thumbnails info2)) = Some t →
  thumb_url t = Some thumb → thumb ≠ "" →
  requests_get E thumb = Ok response →
  resp_status_error response = None →
  open_wb_error E
    (thumbnail_path E out_folder (safe_filename (default "audio" (info_title info1))) thumb)
    = None →
  resp_stream_error response = None →
  let title := safe_filename (default "audio" (info_title info1)) in
  let thumb_path := thumbnail_path E out_folder title thumb in
  runs_to (download_audio E url RealWS out_folder (Some m))
    (at_state F D L)
    (Some ((OsPath.splitext fname).1 ++ ".mp3"), Some thumb_path)
    (at_state (<[thumb_path := File (foldr N.add 0%N (resp_chunks response))]> F1) D
       (L ++ [progress_msg (PInt 5) "Получение информации о видео...";
              progress_msg (PInt 10) ("Начинаем скачивание: " ++ title);
              progress_msg (PInt 90) "Скачивание миниатюры...";
              progress_msg (PInt 95) "Миниатюра сохранена";
              progress_msg (PInt 100) "Готово!"])).
Proof.
  intros Hm Hinfo Hdl Hname Hmp3 Hfits Hlast Hurl Hne Hget Hstatus Hopen Hstream
    title thumb_path.
  unfold download_audio.
  eapply runs_bind; [apply runs_ensure_dir|].
  apply runs_try_ok.
  eapply runs_bind; [by apply runs_send_json|].
  eapply runs_bind; [by apply runs_lift_ok|].
  eapply runs_bind; [by apply runs_send_json|].
  eapply runs_bind; [by eapply runs_extract_info_download, Hdl|].
  eapply runs_bind; [by apply runs_lift_ok|].
  eapply runs_bind; [apply runs_os_path_exists|].
  rewrite bool_decide_eq_true_2 by (rewrite lookup_path_mp3, Hmp3; eauto). cbn [negb].
  replace (m =? 0) with false by lia.
  eapply runs_bind; [by eapply runs_os_path_getsize|].
  rewrite within_limit by done. cbn [negb].
  eapply runs_bind; [by apply runs_send_json|].
  eapply runs_bind.
  { unfold download_thumbnail. rewrite Hlast, Hurl.
    destruct (String.eqb_spec thumb ""); [done|].
    apply runs_try_ok.
    eapply runs_bind; [by eapply fetch_thumbnail_saves|].
    eapply runs_bind; [by apply runs_send_json|].
    apply runs_ret. }
  eapply runs_bind; [by apply runs_send_json|].
  eapply runs_conseq; [apply runs_ret | done |].
  intros w. by rewrite <- !app_assoc.
Qed.

(** Lines 144-165 when both files are there. *)
Lemma download_and_report_with_thumbnail url maxsize platform task_id F D L F' L' job
    mp3 size thumb_path entry :
  D !! task_id = Some job →
  mp3 ≠ "" → F' !! mp3 = Some (File size) →
  thumb_path ≠ "" → F' !! thumb_path = Some entry →
  runs_to (download_audio E url RealWS DOWNLOAD_FOLDER (Some maxsize))
    (at_state F D
       (L ++ [[("status", PStr ("Начинаем загрузку с " ++ platform ++ "..."));
               ("progress", PInt 0); ("task_id", PStr task_id)]])%list)
    (Some mp3, Some thumb_path) (at_state F' D L') →
  runs_to (download_and_report E url maxsize platform task_id) (at_state F D L) tt
    (fun w =>
       fs w = F' ∧
       handler_msgs w =
         (L' ++ [[("message", PStr "Загрузка завершена успешно! 🎵");
                  ("download_url", PStr ("/api/file/" ++ OsPath.basename mp3));
                  ("task_id", PStr task_id);
                  ("file_size_mb", PFloat (round2 E (megabytes size)));
                  ("thumbnail_url", PStr ("/api/file/" ++ OsPath.basename thumb_path))]])%list ∧
       job_field w task_id "status" = Some (PStr "completed") ∧
       job_field w task_id "progress" = Some (PInt 100) ∧
       job_field w task_id "mp3_path" = Some (PStr mp3) ∧
       job_field w task_id "thumb_path" = Some (PStr thumb_path)).
Proof.
  intros Hjob Hne Hmp3 Htne Hthumb Haudio. unfold download_and_report.
  eapply runs_bind; [by apply runs_send_json|].
  eapply runs_bind; [exact Haudio|]. cbv beta iota.
  eapply runs_bind; [by eapply runs_path_ready_file|]. cbv iota.
  eapply runs_bind; [by apply runs_update_download|].
  apply runs_exists_pre. intros ts.
  eapply runs_bind; [by eapply runs_os_path_getsize|].
  eapply runs_bind; [by eapply runs_path_ready_file|]. cbv iota.
  eapply runs_conseq; [by apply runs_send_json | done |].
  intros w (Hfs & Hd & Hl). split; [done|]. split; [done|].
  unfold job_field. rewrite Hd, lookup_insert_eq. simpl.
  repeat split; by dict_simpl.
Qed.

End ThumbnailSaved.

Section ThumbnailSavedTheorem.
Import App DownloadYt.

(** X12: when the audio file is there within the limit, the last
    thumbnail of the metadata has a url, the request, the status, the
    file and the body are all fine, and the client stays connected, the
    thumbnail is written next to the audio file with the length of the
    body, the job ends completed with both paths, and the success payload
    carries [thumbnail_url]. *)
Theorem thumbnail_saved_with_audio (E : Env) (url : string) (maxsize : Z) (w : World)
    (info1 info2 : Info) (calls : list HookDict) (files : gmap string node)
    (fname : string) (size : N) (t : Thumbnail) (thumb : string) (response : Response)
    (Hreq : accepted_request E url maxsize)
    (Halive : connection_alive E)
    (Hinfo : ydl_extract_info E (ydl_opts DOWNLOAD_FOLDER (Some maxsize)) url = Ok info1)
    (Hdl : ydl_download E (ydl_opts DOWNLOAD_FOLDER (Some maxsize)) url
             (files_at_download DOWNLOAD_FOLDER w) = (calls, files, Ok info2))
    (Hname : ydl_prepare_filename E info2 = Ok fname)
    (Hmp3 : files !! ((OsPath.splitext fname).1 ++ ".mp3") = Some (File size))
    (Hfits : (megabytes size <= inject_Z maxsize)%Q)
    (Hlast : last (default [] (info_thumbnails info2)) = Some t)
    (Hurl : thumb_url t = Some thumb)
    (Hne : thumb ≠ "")
    (Hget : requests_get E thumb = Ok response)
    (Hstatus : resp_status_error response = None)
    (Hopen : open_wb_error E
               (thumbnail_path E DOWNLOAD_FOLDER
                  (safe_filename (default "audio" (info_title info1))) thumb) = None)
    (Hstream : resp_stream_error response = None) :
  let mp3_path := (OsPath.splitext fname).1 ++ ".mp3" in
  let thumb_path :=
    thumbnail_path E DOWNLOAD_FOLDER (safe_filename (default "audio" (info_title info1)))
      thumb in
  let task_id := uuid4 E (S (n_uuid w)) in
  let w' := (websocket_download E url maxsize w).2 in
  fs w' !! thumb_path = Some (File (foldr N.add 0%N (resp_chunks response))) ∧
  fs w' !! mp3_path = Some (File size) ∧
  job_field w' task_id "status" = Some (PStr "completed") ∧
  job_field w' task_id "mp3_path" = Some (PStr mp3_path) ∧
  job_field w' task_id "thumb_path" = Some (PStr thumb_path) ∧
  (last (handler_msgs w') ≫= dict_get "thumbnail_url")
    = Some (PStr ("/api/file/" ++ OsPath.basename thumb_path)) ∧
  (last (handler_msgs w') ≫= dict_get "download_url")
    = Some (PStr ("/api/file/" ++ OsPath.basename mp3_path)).
Proof.
  intros mp3_path thumb_path task_id w'.
  assert (maxsize ≠ 0) as Hnz by (destruct Hreq as (_ & _ & ? & _); lia).
  edestruct (accepted_run_result E url maxsize w) as [_ Hfinal]; [done| | |].
  - eapply download_and_report_with_thumbnail
      with (mp3 := mp3_path) (thumb_path := thumb_path) (size := size);
      [done | apply lookup_insert_eq | by apply append_nonempty | |
       apply thumbnail_path_nonempty | | ].
    3:{ eapply download_audio_with_thumbnail; eauto. }
    + rewrite lookup_insert_ne; [exact Hmp3|].
      intros Heq. symmetry in Heq. by apply mp3_not_thumbnail in Heq.
    + apply lookup_insert_eq.
  - intros g w0 Hw0. exact Hw0.
  - cbv beta in Hfinal.
    destruct Hfinal as (Hfs & Hmsgs & Hstatus' & _ & Hpath & Hthumb).
    subst w'. rewrite Hfs, Hmsgs, last_snoc.
    split; [apply lookup_insert_eq|]. split.
    { rewrite lookup_insert_ne; [exact Hmp3|].
      intros Heq. symmetry in Heq. by apply mp3_not_thumbnail in Heq. }
    done.
Qed.

Lemma thumbnail_saved_with_audio_witness :
  let E := Demo.with_requests
             (Demo.env Demo.always_delivered Demo.run_all [] (10 * 1048576))
             (fun _ => Ok {| resp_status_error := None; resp_chunks := [8192; 8192; 100]%N;
                             resp_stream_error := None |}) in
  let w' := (websocket_download E "https://youtu.be/abc123" 15 Demo.world0).2 in
  fs w' !! "download/My_Song_Title__thumbnail.webp" = Some (File 16484) ∧
  job_field w' "uuid-1" "thumb_path" = Some (PStr "download/My_Song_Title__thumbnail.webp") ∧
  (last (handler_msgs w') ≫= dict_get "thumbnail_url")
    = Some (PStr "/api/file/My_Song_Title__thumbnail.webp").
Proof.
  intros E w'.
  destruct (thumbnail_saved_with_audio E "https://youtu.be/abc123" 15 Demo.world0
              Demo.info Demo.info []
              (<["download/My_Song_Title_.mp3" := File (10 * 1048576)]> (fs Demo.world0))
              "download/My_Song_Title_.webm" (10 * 1048576)
              {| thumb_url := Some "https://i.ytimg.com/vi/abc123/hq.webp" |}
              "https://i.ytimg.com/vi/abc123/hq.webp"
              {| resp_status_error := None; resp_chunks := [8192; 8192; 100]%N;
                 resp_stream_error := None |})
    as (Hfile & _ & _ & _ & Hthumb & Hlink & _).
  - repeat split; reflexivity || (unfold MAX_FILE_SIZE_MB; lia).
  - intros n. reflexivity.
  - reflexivity.
  - vm_compute. reflexivity.
  - reflexivity.
  - apply lookup_insert_eq.
  - discriminate.
  - reflexivity.
  - reflexivity.
  - discriminate.
  - reflexivity.
  - reflexivity.
  - reflexivity.
  - reflexivity.
  - split; [exact Hfile | split; [exact Hthumb | exact Hlink]].
Defined.

End ThumbnailSavedTheorem.

(** *** What [download_audio] returns, on every path *)

Section AudioResult.
Import App DownloadYt.
Context (E : Env).

Lemma triple_true {A} (P : World -> Prop) (m : M A) :
  triple P m (fun _ _ => True) (fun _ _ => True).
Proof. intros w _. unfold post. by destruct (m w) as [[?|?] ?]. Qed.

Lemma triple_exists_pre {A X} (P : X -> World -> Prop) (m : M A) Q Y :
  (∀ x, triple (P x) m Q Y) → triple (fun w => ∃ x, P x w) m Q Y.
Proof. intros H w [x Hx]. by apply (H x). Qed.

Lemma triple_keep_fs {A} (I : gmap string node -> Prop) (m : M A) :
  frames fs m →
  triple (fun w => I (fs w)) m (fun _ w => I (fs w)) (fun _ w => I (fs w)).
Proof. intros Hm. by apply keeps_triple, (frames_keeps fs I). Qed.

Lemma fetch_thumbnail_keeps_audio url thumb_path mp3 entry :
  mp3 ≠ thumb_path →
  keeps (fun w => fs w !! mp3 = Some entry) (fetch_thumbnail E url thumb_path).
Proof.
  intros Hne. unfold fetch_thumbnail.
  repeat match goal with
         | |- forall _, _ => intro
         | |- keeps _ (bind _ _) => apply keeps_bind
         | |- keeps _ (lift_result _) => apply keeps_lift_result
         | |- keeps _ (raise_if ?o) => destruct o; [apply keeps_raise | apply keeps_ret]
         | |- keeps _ (modify _) => intros w Hw; simpl; by rewrite lookup_insert_ne
         end.
Qed.

Lemma fetch_thumbnail_writes url thumb_path w w' :
  fetch_thumbnail E url thumb_path w = (Ok tt, w') →
  ∃ n, fs w' !! thumb_path = Some (File n).
Proof.
  unfold fetch_thumbnail, bind, lift_result, raise_if, modify.
  destruct (requests_get E url) as [response|e]; [|done].
  destruct (resp_status_error response); [done|].
  destruct (open_wb_error E thumb_path); [done|]. simpl.
  destruct (resp_stream_error response); [done|].
  intros [= <-]. simpl. rewrite lookup_insert_eq. by eexists.
Qed.

Lemma download_thumbnail_result ws out_folder title info root entry :
  triple (fun w => fs w !! (root ++ ".mp3") = Some entry)
    (download_thumbnail E ws out_folder title info)
    (fun t w => fs w !! (root ++ ".mp3") = Some entry ∧
                ∀ tp, t = Some tp → ∃ n, fs w !! tp = Some (File n))
    (fun _ _ => True).
Proof.
  set (I := fun files : gmap string node => files !! (root ++ ".mp3") = Some entry).
  assert (∀ msg, triple (fun w => I (fs w)) (send_json E ws msg ;;; ret None)
            (fun (t : option string) w =>
               I (fs w) ∧ ∀ tp, t = Some tp → ∃ n, fs w !! tp = Some (File n))
            (fun _ _ => True)) as Hnote.
  { intros msg. eapply triple_bind with (R := fun _ w => I (fs w)).
    - eapply triple_conseq; [by apply (triple_keep_fs I), send_json_frames | done..].
    - intros ?. by apply triple_ret. }
  unfold download_thumbnail.
  destruct (last (default [] (info_thumbnails info))) as [t|]; [|apply Hnote].
  destruct (thumb_url t) as [url|]; [|by apply triple_ret].
  destruct (String.eqb url ""); [by apply triple_ret|].
  eapply triple_try_except with (X' := fun _ w => I (fs w)); [|intros e; apply Hnote].
  intros w Hw. unfold post, bind.
  pose proof (fetch_thumbnail_keeps_audio url (thumbnail_path E out_folder title url)
                (root ++ ".mp3") entry (mp3_not_thumbnail E root out_folder title url) w Hw)
    as Hkeep.
  pose proof (fetch_thumbnail_writes url (thumbnail_path E out_folder title url) w) as Hwrite.
  destruct (fetch_thumbnail E url (thumbnail_path E out_folder title url) w)
    as [[[]|e] w1]; [|exact Hkeep].
  destruct (Hwrite w1 eq_refl) as [n Hn]. simpl in Hkeep.
  match goal with
  | |- context [send_json E ws ?msg w1] =>
      pose proof (send_json_frames E fs ws msg
                    (fun _ _ => eq_refl) (fun _ _ => eq_refl) w1) as Hsend;
      destruct (send_json E ws msg w1) as [[[]|e] w2]
  end; simpl in Hsend |- *; unfold I; rewrite ?Hsend; [|done].
  split; [done|]. intros tp [= <-]. by exists n.
Qed.

Lemma download_audio_result url ws out_folder max_filesize_mb :
  triple (fun _ => True) (download_audio E url ws out_folder max_filesize_mb)
         (audio_result_ok max_filesize_mb) (fun _ _ => True).
Proof.
  assert (∀ w, audio_result_ok max_filesize_mb (None, None) w) as Hnone.
  { intros w. by repeat split. }
  assert (∀ (P : World -> Prop) msg,
            triple P (send_json E ws msg ;;; ret (None, None))
                   (audio_result_ok max_filesize_mb) (fun _ _ => True)) as Hfail.
  { intros P msg. eapply triple_bind; [apply triple_true|].
    intros ?. apply triple_ret. intros w _. apply Hnone. }
  unfold download_audio.
  eapply triple_bind; [apply triple_true|]. intros ?.
  eapply triple_try_except with (X' := fun _ _ => True); [|intros e; apply Hfail].
  eapply triple_bind; [apply triple_true|]. intros ?.
  eapply triple_bind; [apply triple_true|]. intros info.
  eapply triple_bind; [apply triple_true|]. intros ?.
  eapply triple_bind; [apply triple_true|]. intros info'.
  eapply triple_bind; [apply triple_true|]. intros original_filename.
  set (root := (OsPath.splitext original_filename).1).
  eapply triple_bind
    with (R := fun present w => present = true → ∃ entry, fs w !! (root ++ ".mp3") = Some entry).
  { intros w _. unfold post, os_path_exists.
    intros Hpresent. apply bool_decide_eq_true in Hpresent as [entry Hentry].
    rewrite lookup_path_mp3 in Hentry. by exists entry. }
  intros [|]; cbn [negb]; [|apply Hfail].
  eapply triple_conseq
    with (P' := fun w => ∃ entry, fs w !! (root ++ ".mp3") = Some entry);
    [|by auto|done|done].
  apply triple_exists_pre. intros entry.
  assert (within_size_limit max_filesize_mb entry →
    triple (fun w => fs w !! (root ++ ".mp3") = Some entry)
      (send_json E ws (progress_msg (PInt 90) "Скачивание миниатюры...") ;;;
       thumb_path <- download_thumbnail E ws out_folder
                       (safe_filename (default "audio" (info_title info))) info' ;;
       send_json E ws (progress_msg (PInt 100) "Готово!") ;;;
       ret (Some (root ++ ".mp3"), thumb_path))
      (audio_result_ok max_filesize_mb) (fun _ _ => True)) as Hfinish.
  { intros Hlimit.
    set (I := fun files : gmap string node => files !! (root ++ ".mp3") = Some entry).
    eapply triple_bind with (R := fun _ w => I (fs w)).
    { eapply triple_conseq; [by apply (triple_keep_fs I), send_json_frames | done..]. }
    intros ?. eapply triple_bind; [apply download_thumbnail_result|].
    intros thumb_path.
    pose (J := fun files : gmap string node =>
                 I files ∧ ∀ tp, thumb_path = Some tp → ∃ n, files !! tp = Some (File n)).
    eapply triple_bind with (R := fun _ w => J (fs w)).
    { eapply triple_conseq; [by apply (triple_keep_fs J), send_json_frames | done..]. }
    intros ?. apply triple_ret. intros w [Hmp3 Hthumb].
    split; [done|]. split; [|exact Hthumb].
    intros p [= <-]. split; [by exists root|]. by exists entry. }
  destruct max_filesize_mb as [m|]; [|by apply Hfinish].
  destruct (Z.eqb_spec m 0) as [->|Hm]; [apply Hfinish; by left|].
  eapply triple_bind
    with (R := fun size w => size = node_size entry ∧ fs w !! (root ++ ".mp3") = Some entry).
  { intros w Hw. unfold post, os_path_getsize. rewrite lookup_path_mp3, Hw.
    by destruct entry. }
  intros size.
  destruct (Qle_bool (megabytes size) (inject_Z m)) eqn:Hle; cbn [negb].
  - intros w [-> Hw]. apply Hfinish; [|done]. right. by apply Qle_bool_iff.
  - eapply triple_bind; [apply triple_true|]. intros ?. apply Hfail.
Qed.

End AudioResult.

Section AudioResultTheorems.
Import App DownloadYt.

(** X13: with the mock connection of the plain endpoint, or with a
    client that stays connected, [download_audio] always returns a pair
    (every exception inside it is caught and reported), and it changes
    neither the job store nor the connection registry. *)
Theorem download_audio_always_returns (E : Env) (url : string) (ws : WebSocket)
    (out_folder : string) (max_filesize_mb : option Z) (w : World)
    (Hws : ws = MockWS ∨ connection_alive E) :
  ∃ r w',
    download_audio E url ws out_folder max_filesize_mb w = (Ok r, w') ∧
    downloads w' = downloads w ∧
    active_connections w' = active_connections w.
Proof.
  destruct (download_audio_returns E url ws out_folder max_filesize_mb Hws w)
    as (r & w' & Hrun).
  exists r, w'. split; [done|].
  pose proof (download_audio_frames E downloads downloads_ignores_io
                url ws out_folder max_filesize_mb w) as Hd.
  assert (ignores_io active_connections) as Hio by done.
  pose proof (download_audio_frames E active_connections Hio
                url ws out_folder max_filesize_mb w) as Hac.
  rewrite Hrun in Hd, Hac. done.
Qed.

Lemma download_audio_always_returns_witness :
  ∃ r w',
    download_audio (Demo.env (Demo.gone_from 0) Demo.run_all [] 1000)
      "https://youtu.be/abc123" MockWS "download" (Some 15) Demo.world0 = (Ok r, w') ∧
    downloads w' = downloads Demo.world0 ∧
    active_connections w' = active_connections Demo.world0.
Proof. apply download_audio_always_returns. by left. Defined.

(** X14: a pair returned by [download_audio] is well formed, on every
    path and whatever the connection does.  A thumbnail path comes only
    with an audio path; a returned audio path ends in [.mp3], names an
    entry of the file system that is still there, and that entry is
    within the size limit when one applies; a returned thumbnail path
    names a file that was written. *)
Theorem download_audio_result_well_formed (E : Env) (url : string) (ws : WebSocket)
    (out_folder : string) (max_filesize_mb : option Z) (w w' : World)
    (mp3_path thumb_path : option string)
    (Hrun : download_audio E url ws out_folder max_filesize_mb w
            = (Ok (mp3_path, thumb_path), w')) :
  (mp3_path = None → thumb_path = None) ∧
  (∀ p, mp3_path = Some p →
        (∃ root, p = root ++ ".mp3") ∧
        ∃ entry, fs w' !! p = Some entry ∧ within_size_limit max_filesize_mb entry) ∧
  (∀ t, thumb_path = Some t → ∃ n, fs w' !! t = Some (File n)).
Proof.
  pose proof (download_audio_result E url ws out_folder max_filesize_mb w I) as Hres.
  rewrite Hrun in Hres. exact Hres.
Qed.

Lemma download_audio_result_well_formed_witness :
  let E := Demo.env Demo.always_delivered Demo.run_all [] 1000 in
  let run := download_audio E "https://youtu.be/abc123" MockWS "download" (Some 15)
               Demo.world0 in
  ∃ entry, fs run.2 !! "download/My_Song_Title_.mp3" = Some entry ∧
           within_size_limit (Some 15) entry.
Proof.
  intros E run.
  destruct (download_audio_result_well_formed E "https://youtu.be/abc123" MockWS
              "download" (Some 15) Demo.world0 run.2
              (Some "download/My_Song_Title_.mp3") None) as (_ & Hmp3 & _).
  - subst run. rewrite (surjective_pairing (download_audio _ _ _ _ _ _)) at 1.
    f_equal.
  - by destruct (Hmp3 _ eq_refl) as [_ Hentry].
Defined.

End AudioResultTheorems.

(** *** The plain endpoint *)

Section PlainEndpoint.
Import App DownloadYt.
Context (E : Env).

Lemma send_json_mock_frames {T} (f : World -> T) msg : frames f (send_json E MockWS msg).
Proof. by intros w. Qed.

(** With the mock connection only the file system and the queue of the
    loop can change. *)
Lemma download_audio_mock_frames {T} (f : World -> T) url out_folder max_filesize_mb :
  (∀ g w, f (set_fs g w) = f w) → (∀ g w, f (set_loop_queue g w) = f w) →
  frames f (download_audio E url MockWS out_folder max_filesize_mb).
Proof.
  intros Hfs Hq.
  unfold download_audio, download_thumbnail, fetch_thumbnail.
  repeat first
    [ match goal with
      | |- frames _ (send_json _ MockWS _) => apply send_json_mock_frames
      end
    | frames_step ].
Qed.

Lemma api_download_url_only_files {T} (f : World -> T) data :
  (∀ g w, f (set_fs g w) = f w) → (∀ g w, f (set_loop_queue g w) = f w) →
  frames f (api_download_url E data).
Proof.
  intros Hfs Hq.
  pose proof (fun url out max => download_audio_mock_frames f url out max Hfs Hq) as Haudio.
  pose proof (@path_ready_frames T f) as Hready.
  unfold api_download_url.
  repeat first
    [ match goal with
      | |- frames _ (download_audio _ _ _ _ _) => apply Haudio
      | |- frames _ (path_ready _) => apply Hready
      end
    | frames_step ].
Qed.

Lemma keeps_for_each {B} (I : World -> Prop) (l : list B) (body : B -> M unit) :
  (∀ x, keeps I (body x)) → keeps I (for_each l body).
Proof.
  intros Hbody. induction l as [|x l IH]; simpl; [apply keeps_ret|].
  apply keeps_bind; [apply Hbody | by intros _].
Qed.

Lemma progress_hook_mock_keeps base d :
  keeps (fun w => mock_only_since base (loop_queue w)) (progress_hook E MockWS d).
Proof.
  assert (∀ msg, keeps (fun w => mock_only_since base (loop_queue w))
                   (run_coroutine_threadsafe MockWS msg)) as Hqueue.
  { intros msg w (queued & Hq & Hmock). exists (queued ++ [(MockWS, msg)])%list.
    simpl. rewrite Hq, <- app_assoc. split; [done|].
    apply Forall_app. split; [done | by apply Forall_singleton]. }
  unfold progress_hook. repeat case_match; first [apply Hqueue | apply keeps_ret].
Qed.

Lemma download_audio_mock_keeps base url out_folder max_filesize_mb :
  keeps (fun w => mock_only_since base (loop_queue w))
        (download_audio E url MockWS out_folder max_filesize_mb).
Proof.
  pose (J := mock_only_since base).
  unfold download_audio, download_thumbnail, fetch_thumbnail, extract_info_download.
  repeat
    match goal with
    | |- forall _, _ => intro
    | |- keeps _ (match ?x with _ => _ end) => destruct x
    | |- keeps _ (bind _ _) => apply keeps_bind
    | |- keeps _ (try_except _ _) => apply keeps_try_except
    | |- keeps _ (for_each _ _) => apply keeps_for_each
    | |- keeps _ (progress_hook _ MockWS _) => apply progress_hook_mock_keeps
    | |- keeps _ (send_json _ MockWS _) =>
        apply (frames_keeps loop_queue J), send_json_mock_frames
    | |- keeps _ _ => apply (frames_keeps loop_queue J); solve [solve_frames]
    end.
Qed.

Lemma api_download_url_mock_keeps base data :
  keeps (fun w => mock_only_since base (loop_queue w)) (api_download_url E data).
Proof.
  pose (J := mock_only_since base).
  unfold api_download_url.
  repeat
    match goal with
    | |- forall _, _ => intro
    | |- keeps _ (download_audio _ _ MockWS _ _) => apply download_audio_mock_keeps
    | |- keeps _ (path_ready _) => apply (frames_keeps loop_queue J), path_ready_frames
    | |- keeps _ (match ?x with _ => _ end) => destruct x
    | |- keeps _ (bind _ _) => apply keeps_bind
    | |- keeps _ (try_except _ _) => apply keeps_try_except
    | |- keeps _ _ => apply (frames_keeps loop_queue J); solve [solve_frames]
    end.
Qed.

Lemma run_scheduled_mock k w :
  Forall (fun c => c.1 = MockWS) (loop_queue w) →
  ws_log (run_scheduled E k w) = ws_log w.
Proof.
  revert w. induction k as [|k IH]; intros w Hmock; simpl; [done|].
  destruct (loop_queue w) as [|[ws msg] queue]; [done|].
  apply Forall_cons in Hmock as [Hws Hrest]. simpl in Hws. subst ws.
  by rewrite IH.
Qed.

(** X15: the plain endpoint puts nothing on any connection and leaves
    the job store, the connection registry, the clock and the id
    generator as they were: it works on the file system, and on the
    event loop it only adds sends of its mock connection, which deliver
    nothing when the loop runs them. *)
Theorem plain_endpoint_touches_files_only (data : DownloadRequest) (w : World) :
  let w' := (api_download_url E data w).2 in
  ws_log w' = ws_log w ∧
  downloads w' = downloads w ∧ active_connections w' = active_connections w ∧
  n_uuid w' = n_uuid w ∧ n_clock w' = n_clock w ∧
  ∃ queued,
    loop_queue w' = (loop_queue w ++ queued)%list ∧
    Forall (fun c => c.1 = MockWS) queued ∧
    ∀ k, ws_log (run_scheduled E k (set_loop_queue (fun _ => queued) w')) = ws_log w.
Proof.
  intros w'. subst w'.
  do 5 (split; [by apply api_download_url_only_files|]).
  destruct (api_download_url_mock_keeps (loop_queue w) data w) as (queued & Hq & Hmock).
  { exists []. by rewrite app_nil_r. }
  exists queued. split; [exact Hq|]. split; [exact Hmock|].
  intros k. rewrite run_scheduled_mock by done.
  by apply api_download_url_only_files.
Qed.

(** The [try] block of lines 268-288 answers with a payload naming the
    file, or raises; whatever it raises leaves as status 500. *)
Lemma plain_download_outcome url maxsize :
  triple (fun _ => True)
    (try_except
       (paths <- download_audio E url MockWS DOWNLOAD_FOLDER (Some maxsize) ;;
        let '(mp3_path, thumb_path) := paths in
        ready <- path_ready mp3_path ;;
        if ready then
          let mp3 := default "" mp3_path in
          size <- os_path_getsize mp3 ;;
          let response_data :=
            [("message", PStr "Файл готов");
             ("download_url", PStr ("/api/file/" ++ OsPath.basename mp3));
             ("file_size_mb", PFloat (round2 E (megabytes size)))] in
          thumb_ready <- path_ready thumb_path ;;
          ret (if thumb_ready
               then dict_set "thumbnail_url"
                      (PStr ("/api/file/" ++ OsPath.basename (default "" thumb_path)))
                      response_data
               else response_data)
        else
          raise (HTTPException 400
                   ("Файл слишком большой или произошла ошибка. Максимум "
                      ++ pretty maxsize ++ " МБ.")))
       (fun e => raise (HTTPException 500 (str_exn e))))
    (fun body _ => is_Some (dict_get "download_url" body) ∧ dict_get "error" body = None)
    (fun e _ => ∃ detail, e = HTTPException 500 detail).
Proof.
  eapply triple_try_except with (X' := fun _ _ => True).
  - eapply triple_bind; [apply triple_true|]. intros [mp3_path thumb_path].
    eapply triple_bind; [apply triple_true|]. intros [|]; [|by apply triple_raise].
    eapply triple_bind; [apply triple_true|]. intros size.
    eapply triple_bind; [apply triple_true|]. intros thumb_ready.
    apply triple_ret. intros w _. by destruct thumb_ready.
  - intros e. apply triple_raise. intros w _. by eexists.
Qed.

(** X16: the answers of the plain endpoint.  Without a url (missing or
    empty) it raises 400 and changes nothing.  A url of no supported
    platform is answered, unchanged state again, with the coming-soon
    payload when it carries such a marker and with 400 otherwise.  A
    supported url is answered with a payload that names the file and has
    no [error], or with 500: inside the [try] even the endpoint's own
    400 for a missing file is caught and turned into 500. *)
Theorem plain_endpoint_answers (data : DownloadRequest) (w : World) :
  let run := api_download_url E data w in
  match req_url data with
  | None => run = (Raise (HTTPException 400 "URL обязателен"), w)
  | Some url =>
      if String.eqb url "" then run = (Raise (HTTPException 400 "URL обязателен"), w)
      else if is_supported_platform E url then
        match run.1 with
        | Ok body => is_Some (dict_get "download_url" body) ∧ dict_get "error" body = None
        | Raise e => ∃ detail, e = HTTPException 500 detail
        end
      else if is_coming_soon E url then
        run = (Ok (coming_soon_msg (get_platform_from_url E url)), w)
      else run = (Raise (HTTPException 400 "Неподдерживаемая платформа"), w)
  end.
Proof.
  intros run. subst run. unfold api_download_url.
  destruct (req_url data) as [url|]; [|done].
  destruct (String.eqb url ""); [done|].
  destruct (is_supported_platform E url); cbn [negb].
  - pose proof (plain_download_outcome url (default 15 (req_maxsize data)) w I) as Hrun.
    unfold post in Hrun.
    by destruct (try_except _ _ w) as [[body|e] w'].
  - by destruct (is_coming_soon E url).
Qed.

End PlainEndpoint.

Section PlainEndpointFailure.
Import App DownloadYt.

(** X17: when [download_audio] gives the plain endpoint no audio path,
    the client gets status 500 whose detail is the text of the 400 the
    endpoint raised inside its own [try] block. *)
Theorem plain_endpoint_failure_is_500 (E : Env) (url : string) (maxsize : option Z)
    (w w1 : World) (thumb_path : option string)
    (Hurl : url ≠ "")
    (Hplatform : is_supported_platform E url = true)
    (Haudio : download_audio E url MockWS DOWNLOAD_FOLDER (Some (default 15 maxsize)) w
              = (Ok (None, thumb_path), w1)) :
  api_download_url E {| req_url := Some url; req_maxsize := maxsize |} w =
  (Raise (HTTPException 500
            ("400: Файл слишком большой или произошла ошибка. Максимум "
               ++ pretty (default 15 maxsize) ++ " МБ.")),
   w1).
Proof.
  unfold api_download_url. cbn [req_url req_maxsize].
  destruct (String.eqb_spec url ""); [done|].
  rewrite Hplatform. cbn [negb].
  unfold try_except, bind. rewrite Haudio. reflexivity.
Qed.

Lemma plain_endpoint_failure_is_500_witness :
  let E := Demo.env Demo.always_delivered Demo.run_all [] (20 * 1048576) in
  (api_download_url E {| req_url := Some "https://youtu.be/abc123"; req_maxsize := None |}
     Demo.world0).1
  = Raise (HTTPException 500
             "400: Файл слишком большой или произошла ошибка. Максимум 15 МБ.").
Proof.
  intros E.
  rewrite (plain_endpoint_failure_is_500 E "https://youtu.be/abc123" None Demo.world0
             (download_audio E "https://youtu.be/abc123" MockWS DOWNLOAD_FOLDER (Some 15)
                Demo.world0).2 None).
  - reflexivity.
  - discriminate.
  - reflexivity.
  - rewrite (surjective_pairing (download_audio _ _ _ _ _ _)) at 1. f_equal.
Defined.

End PlainEndpointFailure.

(** *** The progress hook *)

Section ProgressHook.
Import App DownloadYt.

(** X18: a call of the progress hook never raises and never sends: it
    leaves the connection log, the files and the job store alone and only
    appends to the queue of the event loop, at most one coroutine, which
    is a send on the connection the hook was made for, mock or not, and
    always carries a progress value; an event whose status is neither
    [downloading] nor [finished] queues nothing. *)
Theorem progress_hook_only_queues (E : Env) (ws : WebSocket) (d : HookDict) (w : World) :
  let w' := (progress_hook E ws d w).2 in
  (progress_hook E ws d w).1 = Ok tt ∧
  ws_log w' = ws_log w ∧ fs w' = fs w ∧ downloads w' = downloads w ∧
  ∃ queued,
    loop_queue w' = (loop_queue w ++ queued)%list ∧
    (length queued ≤ 1)%nat ∧
    Forall (fun c => c.1 = ws ∧ is_Some (progress_of c.2)) queued ∧
    (queued = [] ↔
     ∃ status, hook_status d = Some status ∧
               status ≠ "downloading" ∧ status ≠ "finished").
Proof.
  intros w'. subst w'. unfold progress_hook.
  destruct (hook_status d) as [status|].
  - destruct (String.eqb_spec status "downloading") as [->|Hdl].
    { repeat (split; [done|]). eexists [_]. split; [done|]. split; [simpl; lia|].
      split; [apply Forall_singleton; split; [done | by eexists]|].
      split; [done|]. by intros (? & [= <-] & ? & ?). }
    destruct (String.eqb_spec status "finished") as [->|Hfin].
    { repeat (split; [done|]). eexists [_]. split; [done|]. split; [simpl; lia|].
      split; [apply Forall_singleton; split; [done | by eexists]|].
      split; [done|]. by intros (? & [= <-] & ? & ?). }
    simpl. repeat (split; [done|]). exists []. rewrite app_nil_r.
    split; [done|]. split; [simpl; lia|]. split; [done|].
    split; [|done]. intros _. by exists status.
  - repeat (split; [done|]). eexists [_]. split; [done|]. split; [simpl; lia|].
    split; [apply Forall_singleton; split; [done | by eexists]|].
    split; [done|]. by intros (? & [=] & _).
Qed.

End ProgressHook.

(** *** Artifact retrieval on every name *)

Section ServeFileMore.
Import PyStr App.

Lemma serve_file_eq (E : Env) (file_name : string) (w : World) :
  str_in ".." file_name = false → str_in "/" file_name = false →
  str_in "\" file_name = false →
  serve_file E file_name w =
  (match lookup_path (fs w) ("download/" ++ file_name) with
   | None => Raise (HTTPException 404 "Файл не найден")
   | Some _ =>
       Ok {| fr_path := "download/" ++ file_name;
             fr_filename := file_name;
             fr_media_type := media_type_of (str_lower E (OsPath.splitext file_name).2);
             fr_headers := [("Cache-Control", PStr "public, max-age=3600")] |}
   end,
   w).
Proof.
  intros Hdots Hslash Hback. unfold serve_file. rewrite Hdots, Hslash, Hback.
  cbn [orb]. unfold bind, os_path_exists. rewrite (join_download _ Hslash).
  destruct (lookup_path (fs w) ("download/" ++ file_name)) eqn:Hfile.
  - rewrite bool_decide_eq_true_2 by eauto. done.
  - rewrite bool_decide_eq_false_2 by (by intros [? ?]). done.
Qed.

(** X19: [serve_file] only reads.  On every name the state is unchanged;
    the answer is 400 for a name with [..], [/] or [\]; otherwise a
    response for the entry of that name in the download folder, under
    the name asked for, typed by the lower-cased extension and cacheable
    for an hour; without such an entry the answer is 404, except that
    the empty name and the dot name the download folder itself, which is
    answered when it is there. *)
Theorem serve_file_reads_only (E : Env) (file_name : string) (w : World) :
  let response :=
    Ok {| fr_path := "download/" ++ file_name;
          fr_filename := file_name;
          fr_media_type := media_type_of (str_lower E (OsPath.splitext file_name).2);
          fr_headers := [("Cache-Control", PStr "public, max-age=3600")] |} in
  let not_found := Raise (HTTPException 404 "Файл не найден") in
  serve_file E file_name w =
  (if str_in ".." file_name || str_in "/" file_name || str_in "\" file_name
   then Raise (HTTPException 400 "Недопустимое имя файла")
   else match fs w !! ("download/" ++ file_name) with
        | Some _ => response
        | None =>
            if String.eqb file_name "" || String.eqb file_name "."
            then match fs w !! DOWNLOAD_FOLDER with
                 | Some Dir => response
                 | _ => not_found
                 end
            else not_found
        end,
   w).
Proof.
  intros response not_found.
  destruct (str_in ".." file_name) eqn:Hdots; [by unfold serve_file; rewrite Hdots|].
  destruct (str_in "/" file_name) eqn:Hslash;
    [by unfold serve_file; rewrite Hdots, Hslash|].
  destruct (str_in "\" file_name) eqn:Hback;
    [by unfold serve_file; rewrite Hdots, Hslash, Hback|].
  rewrite serve_file_eq by done. cbn [orb]. unfold lookup_path.
  rewrite dir_alias_download_child by done.
  destruct (fs w !! ("download/" ++ file_name)); [done|].
  destruct (String.eqb file_name "" || String.eqb file_name "."); [|done].
  change DOWNLOAD_FOLDER with "download". by destruct (fs w !! "download") as [[]|].
Qed.

End ServeFileMore.

Section JobIdentityWitness.
Import App.

Lemma job_stays_pollable_witness :
  let E := Demo.env (Demo.gone_from 0) Demo.run_all [] 1000 in
  let w' := (websocket_download E "https://youtu.be/abc123" 15 Demo.world0).2 in
  job_identity "uuid-1" "https://youtu.be/abc123" 15 "t0" (downloads w') ∧
  ∃ job, get_download_status "uuid-1" w' = (Ok job, w').
Proof.
  intros E w'.
  apply (job_stays_pollable E "https://youtu.be/abc123" 15 Demo.world0).
  repeat split; reflexivity || (unfold MAX_FILE_SIZE_MB; lia).
Defined.

End JobIdentityWitness.

(** *** A completed job and its file *)

Section CompletedJob.
Import App DownloadYt PyStr.
Context (E : Env).

Lemma triple_pure_pre {A} (φ : Prop) (P : World -> Prop) (m : M A) Q X :
  (φ → triple P m Q X) → triple (fun w => P w ∧ φ) m Q X.
Proof. intros H w [Hw Hφ]. by apply H. Qed.

Lemma download_and_report_completed_has_file url maxsize platform task_id :
  triple (fun w => job_field w task_id "status" = Some (PStr "created"))
         (download_and_report E url maxsize platform task_id)
         (fun _ w => completed_has_file task_id maxsize (downloads w, fs w))
         (fun _ w => completed_has_file task_id maxsize (downloads w, fs w)).
Proof.
  pose (st := fun w : World => (downloads w, fs w)).
  pose (G := completed_has_file task_id maxsize).
  pose (C := fun d : gmap string pydict =>
               d !! task_id ≫= dict_get "status" = Some (PStr "created")).
  pose (F := fun d : gmap string pydict =>
               d !! task_id ≫= dict_get "status" = Some (PStr "failed")).
  assert (∀ d files, C d → G (d, files)) as HCG.
  { intros d files Hc Hdone. unfold C in Hc. simpl in Hdone. congruence. }
  assert (∀ d files, F d → G (d, files)) as HFG.
  { intros d files Hf Hdone. unfold F in Hf. simpl in Hdone. congruence. }
  unfold download_and_report.
  match goal with
  | |- triple _ ?m _ _ =>
      change (triple (fun w => C (downloads w)) m
                (fun _ w => G (st w)) (fun _ w => G (st w)))
  end.
  eapply triple_bind with (R := fun _ w => C (downloads w)).
  { eapply triple_conseq;
      [apply (keeps_triple (fun w => C (downloads w))), (frames_keeps downloads C);
       by apply send_json_frames
      | done | done |].
    intros e w Hw. by apply HCG. }
  intros ?.
  eapply triple_bind
    with (R := fun r w => audio_result_ok (Some maxsize) r w ∧ C (downloads w)).
  { eapply triple_conseq.
    - apply (triple_frame downloads C);
        [apply (download_audio_result E) | apply download_audio_frames, downloads_ignores_io].
    - by intros w Hw.
    - done.
    - intros e w [_ Hw]. by apply HCG. }
  intros [mp3_path thumb_path].
  eapply triple_bind
    with (R := fun ready w =>
                 (audio_result_ok (Some maxsize) (mp3_path, thumb_path) w ∧ C (downloads w)) ∧
                 (ready = true → is_Some mp3_path)).
  { intros w Hw. unfold post, path_ready.
    destruct mp3_path as [p|]; [|by split].
    destruct (String.eqb p ""); [by split|].
    unfold os_path_exists. split; [done|]. by exists p. }
  intros [|].
  - apply triple_pure_pre. intros Hp. destruct (Hp eq_refl) as [p ->].
    cbn [default opt_str].
    pose (D := fun s : gmap string pydict * gmap string node =>
                 ∃ entry,
                   (s.1 !! task_id ≫= dict_get "status") = Some (PStr "completed") ∧
                   (s.1 !! task_id ≫= dict_get "mp3_path") = Some (PStr p) ∧
                   (∃ root, p = root ++ ".mp3") ∧
                   s.2 !! p = Some entry ∧
                   within_size_limit (Some maxsize) entry).
    assert (∀ s, D s → G s) as HDG.
    { intros s (entry & Hs & Hm & Hroot & Hentry & Hlimit) _. by exists p, entry. }
    eapply triple_conseq
      with (Q' := fun _ w => D (st w)) (X' := fun _ w => D (st w));
      [| intros w Hw; exact Hw | intros ? w; apply HDG | intros ? w; apply HDG].
    eapply triple_bind with (R := fun _ w => D (st w)).
    + intros w [(_ & Hmp3 & _) Hc]. unfold post.
      destruct (Hmp3 p eq_refl) as [Hroot (entry & Hentry & Hlimit)].
      unfold C in Hc. destruct (downloads w !! task_id) as [job|] eqn:Hjob; [|done].
      match goal with
      | |- context [update_download E task_id ?kw w] =>
          pose proof (job_field_updated E task_id kw w job "status" Hjob) as Hs;
          pose proof (job_field_updated E task_id kw w job "mp3_path" Hjob) as Hm;
          pose proof (update_download_frames E fs task_id kw
                        (fun _ _ => eq_refl) (fun _ => eq_refl) w) as Hfs;
          destruct (update_download_returns E task_id kw w) as ([] & w' & Hw')
      end.
      rewrite Hw' in *. cbn [snd] in Hs, Hm, Hfs.
      exists entry. unfold st. cbn [fst snd]. rewrite Hfs.
      split; [etrans; [by apply Hs | by dict_simpl]|].
      split; [etrans; [by apply Hm | by dict_simpl]|]. done.
    + intros ?. apply (keeps_triple (fun w => D (st w))), (frames_keeps st D).
      pose proof (@path_ready_frames _ st) as Hready.
      pose proof (send_json_frames E st RealWS) as Hsend.
      solve_frames.
  - eapply triple_conseq
      with (P' := fun w => C (downloads w))
           (Q' := fun _ w => F (downloads w)) (X' := fun _ w => F (downloads w));
      [| by intros w [[_ Hc] _] | intros ? w; apply HFG | intros ? w; apply HFG].
    eapply triple_bind with (R := fun _ w => F (downloads w)).
    + intros w Hc. unfold post.
      unfold C in Hc. destruct (downloads w !! task_id) as [job|] eqn:Hjob; [|done].
      match goal with
      | |- context [update_download E task_id ?kw w] =>
          pose proof (job_field_updated E task_id kw w job "status" Hjob) as Hs;
          destruct (update_download_returns E task_id kw w) as ([] & w' & Hw')
      end.
      rewrite Hw' in *. cbn [snd] in Hs.
      unfold F. etrans; [by apply Hs | by dict_simpl].
    + intros ?. apply (keeps_triple (fun w => F (downloads w))), (frames_keeps downloads F).
      by apply send_json_frames.
Qed.

(** X20: on every path of the streaming handler, disconnects included,
    a job of an accepted request that ends completed points to its file:
    the stored [mp3_path] ends in [.mp3], names an entry that is there
    when the handler returns, and that entry is within the size limit of
    the request.  If the path lies directly in the download folder under
    a name free of [..], [/] and [\], the file endpoint serves exactly
    that path under that name. *)
Theorem completed_job_has_file (url : string) (maxsize : Z) (w : World)
    (Hreq : accepted_request E url maxsize) :
  let task_id := uuid4 E (S (n_uuid w)) in
  let w' := (websocket_download E url maxsize w).2 in
  job_field w' task_id "status" = Some (PStr "completed") →
  ∃ p entry,
    job_field w' task_id "mp3_path" = Some (PStr p) ∧
    (∃ root, p = root ++ ".mp3") ∧
    fs w' !! p = Some entry ∧
    within_size_limit (Some maxsize) entry ∧
    ∀ name,
      p = "download/" ++ name →
      str_in ".." name = false → str_in "/" name = false → str_in "\" name = false →
      ∃ r, serve_file E name w' = (Ok r, w') ∧ fr_path r = p ∧ fr_filename r = name.
Proof.
  intros task_id w' Hdone.
  pose (st := fun w : World => (downloads w, fs w)).
  pose (G := completed_has_file task_id maxsize).
  assert (G (st w')) as HG.
  { subst w'. rewrite websocket_download_accepted by done. fold task_id.
    assert (triple (fun w0 => w0 = job_created E url maxsize w)
              (try_finally
                 (try_except
                    (download_and_report E url maxsize (get_platform_from_url E url) task_id)
                    (on_error E))
                 (teardown E (uuid4 E (n_uuid w))))
              (fun _ w' => G (st w')) (fun _ w' => G (st w'))) as Hrun.
    { eapply triple_try_finally.
      - eapply triple_try_except.
        + eapply triple_conseq;
            [apply download_and_report_completed_has_file | | by auto..].
          intros w0 ->. unfold job_field. simpl. fold task_id. by rewrite lookup_insert_eq.
        + intros e. apply (keeps_triple (fun w => G (st w))).
          by apply (frames_keeps st G), on_error_frames_connection.
      - intros ?. apply (keeps_triple (fun w => G (st w))).
        by apply (frames_keeps st G), teardown_frames.
      - intros ?. apply (keeps_triple (fun w => G (st w))).
        by apply (frames_keeps st G), teardown_frames. }
    specialize (Hrun _ eq_refl). unfold post in Hrun.
    by destruct (try_finally _ _ _) as [[[]|e] w']. }
  destruct (HG Hdone) as (p & entry & Hpath & Hroot & Hentry & Hlimit).
  exists p, entry. split; [exact Hpath|]. split; [exact Hroot|].
  split; [exact Hentry|]. split; [exact Hlimit|].
  intros name -> Hdots Hslash Hback.
  rewrite serve_file_eq by done. simpl in Hentry.
  rewrite (lookup_path_Some _ _ _ Hentry). by eexists.
Qed.

End CompletedJob.

Section CompletedJobWitness.
Import App.

Lemma completed_job_has_file_witness :
  let E := Demo.env Demo.always_delivered Demo.run_all [] 1000 in
  let w' := (websocket_download E "https://youtu.be/abc123" 15 Demo.world0).2 in
  ∃ r, serve_file E "My_Song_Title_.mp3" w' = (Ok r, w') ∧
       fr_path r = "download/My_Song_Title_.mp3".
Proof.
  intros E w'.
  destruct (completed_job_has_file E "https://youtu.be/abc123" 15 Demo.world0)
    as (p & entry & Hpath & _ & _ & _ & Hserve).
  - repeat split; reflexivity || (unfold MAX_FILE_SIZE_MB; lia).
  - vm_compute. reflexivity.
  - assert (p = "download/My_Song_Title_.mp3") as ->.
    { assert (job_field w' (uuid4 E (S (n_uuid Demo.world0))) "mp3_path"
              = Some (PStr "download/My_Song_Title_.mp3"))
        as Hrun by (vm_compute; reflexivity).
      unfold w' in Hrun. congruence. }
    destruct (Hserve "My_Song_Title_.mp3") as (r & Hr & Hp & _); try reflexivity.
    by exists r.
Defined.

End CompletedJobWitness.

(** *** The download folder as a whole: cleanup and statistics *)

Section FolderListing.
Import App PyStr.

Lemma strip_prefix_app (pre s : string) : strip_prefix pre (pre ++ s) = Some s.
Proof.
  induction pre as [|a pre IH]; [done|].
  rewrite append_cons. simpl. by rewrite Ascii.eqb_refl.
Qed.

Lemma strip_prefix_Some (pre s r : string) : strip_prefix pre s = Some r → s = pre ++ r.
Proof.
  revert s. induction pre as [|a pre IH]; intros s; simpl.
  - by intros [= ->].
  - destruct s as [|b s]; [done|].
    destruct (Ascii.eqb_spec a b) as [->|]; [|done].
    intros H. rewrite append_cons. f_equal. by apply IH.
Qed.

Lemma child_name_Some folder path name :
  child_name folder path = Some name →
  path = folder ++ "/" ++ name ∧ name ≠ "" ∧ str_in "/" name = false.
Proof.
  unfold child_name. destruct (strip_prefix _ path) as [r|] eqn:Hr; [|done].
  apply strip_prefix_Some in Hr as ->.
  destruct (String.eqb_spec r ""); [done|]. cbn [orb].
  destruct (str_in "/" r) eqn:Hs; [done|]. intros [= <-].
  by rewrite append_assoc.
Qed.

Lemma child_name_join folder name :
  name ≠ "" → str_in "/" name = false →
  child_name folder (folder ++ "/" ++ name) = Some name.
Proof.
  intros Hne Hs. unfold child_name. rewrite <- append_assoc, strip_prefix_app.
  destruct (String.eqb_spec name ""); [done|]. by rewrite Hs.
Qed.

Lemma listdir_names (files : gmap string node) folder name :
  name ∈ omap (child_name folder) (map_to_list files).*1 ↔
  ∃ path, child_name folder path = Some name ∧ is_Some (files !! path).
Proof.
  rewrite list_elem_of_omap. split.
  - intros (path & Hin & Hname). exists path. split; [done|].
    apply list_elem_of_fmap in Hin as ([p e] & -> & Hin).
    apply elem_of_map_to_list in Hin. by exists e.
  - intros (path & Hname & [e He]). exists path. split; [|done].
    apply list_elem_of_fmap. exists (path, e). split; [done|].
    by apply elem_of_map_to_list.
Qed.

Lemma listdir_download_names (files : gmap string node) name :
  name ∈ omap (child_name DOWNLOAD_FOLDER) (map_to_list files).*1 ↔
  name ≠ "" ∧ str_in "/" name = false ∧ is_Some (files !! ("download/" ++ name)).
Proof.
  rewrite listdir_names. split.
  - intros (path & Hname & Hpath). apply child_name_Some in Hname as (-> & Hne & Hs). done.
  - intros (Hne & Hs & Hpath). exists ("download/" ++ name). split; [|done].
    by apply (child_name_join DOWNLOAD_FOLDER).
Qed.

Lemma NoDup_omap_inj {A B} (f : A -> option B) (l : list A) :
  (∀ x y z, f x = Some z → f y = Some z → x = y) → NoDup l → NoDup (omap f l).
Proof.
  intros Hinj. induction 1 as [|x l Hx Hl IH]; simpl; [constructor|].
  destruct (f x) as [z|] eqn:Hz; [|done].
  constructor; [|done]. rewrite list_elem_of_omap. intros (y & Hy & Hfy).
  by rewrite (Hinj _ _ _ Hz Hfy) in Hx.
Qed.

Lemma listdir_NoDup (files : gmap string node) folder :
  NoDup (omap (child_name folder) (map_to_list files).*1).
Proof.
  apply NoDup_omap_inj; [|apply NoDup_fst_map_to_list].
  intros x y z Hx Hy.
  apply child_name_Some in Hx as (-> & _). by apply child_name_Some in Hy as (-> & _).
Qed.

Lemma set_fs_same (w : World) : set_fs (fun _ => fs w) w = w.
Proof. by destruct w. Qed.

(** An alias names a directory, never a file. *)
Lemma os_path_isfile_eq (path : string) (w : World) :
  os_path_isfile path w =
  (Ok match fs w !! path with
      | Some (File _) => true
      | _ => false
      end, w).
Proof.
  unfold os_path_isfile, lookup_path. destruct (fs w !! path) as [[]|]; [done..|].
  destruct (dir_alias path) as [folder|]; [|done].
  by destruct (fs w !! folder) as [[]|].
Qed.

Lemma os_remove_file (path : string) (w : World) (size : N) :
  fs w !! path = Some (File size) →
  os_remove path w = (Ok tt, set_fs (fun m => delete path m) w).
Proof. intros H. unfold os_remove. by rewrite (lookup_path_Some _ _ _ H). Qed.

(** The loop of [cleanup_old_files]: of the listed names, exactly the
    files go; the counter grows by the number of entries gone. *)
Lemma remove_files_run (filenames : list string) :
  ∀ (files_deleted : nat) (w : World),
    ∃ n files',
      remove_files filenames files_deleted w = (Ok n, set_fs (fun _ => files') w) ∧
      (∀ path,
         files' !! path =
         match fs w !! path with
         | Some (File size) =>
             if bool_decide (path ∈ OsPath.join DOWNLOAD_FOLDER <$> filenames)
             then None else Some (File size)
         | entry => entry
         end) ∧
      (n + size files' = files_deleted + size (fs w))%nat.
Proof.
  induction filenames as [|filename rest IH]; intros k w.
  - exists k, (fs w). rewrite set_fs_same. split; [done|]. split; [|done].
    intros path. by destruct (fs w !! path) as [[]|].
  - cbn [remove_files]. unfold bind. rewrite os_path_isfile_eq.
    set (file_path := OsPath.join DOWNLOAD_FOLDER filename).
    destruct (fs w !! file_path) as [[size0|]|] eqn:Hfile;
      cbv beta iota; rewrite ?(os_remove_file _ _ _ Hfile); cbv beta iota.
    + destruct (IH (S k) (set_fs (fun m => delete file_path m) w))
        as (n & files' & Hrun & Hfiles & Hcount).
      exists n, files'. split; [exact Hrun|]. split.
      * intros path. rewrite Hfiles. cbn [fs set_fs]. rewrite fmap_cons. fold file_path.
        destruct (decide (path = file_path)) as [->|Hne].
        -- rewrite lookup_delete_eq, Hfile.
           rewrite bool_decide_eq_true_2 by set_solver. done.
        -- rewrite lookup_delete_ne by done.
           destruct (fs w !! path) as [[size1|]|]; [|done..].
           rewrite (bool_decide_ext (path ∈ file_path :: (OsPath.join DOWNLOAD_FOLDER <$> rest))
                      (path ∈ OsPath.join DOWNLOAD_FOLDER <$> rest)) by set_solver.
           done.
      * cbn [fs set_fs] in Hcount.
        rewrite map_size_delete_Some in Hcount by eauto.
        assert (size (fs w) ≠ 0%nat) as Hpos.
        { intros Hz. apply map_size_empty_inv in Hz. rewrite Hz in Hfile. done. }
        lia.
    + destruct (IH k w) as (n & files' & Hrun & Hfiles & Hcount).
      exists n, files'. split; [exact Hrun|]. split; [|exact Hcount].
      intros path. rewrite Hfiles, fmap_cons. fold file_path.
      destruct (fs w !! path) as [[size1|]|] eqn:Hpath; [|done..].
      assert (path ≠ file_path) as Hne by congruence.
      rewrite (bool_decide_ext (path ∈ file_path :: (OsPath.join DOWNLOAD_FOLDER <$> rest))
                 (path ∈ OsPath.join DOWNLOAD_FOLDER <$> rest)) by set_solver.
      done.
    + destruct (IH k w) as (n & files' & Hrun & Hfiles & Hcount).
      exists n, files'. split; [exact Hrun|]. split; [|exact Hcount].
      intros path. rewrite Hfiles, fmap_cons. fold file_path.
      destruct (fs w !! path) as [[size1|]|] eqn:Hpath; [|done..].
      assert (path ≠ file_path) as Hne by congruence.
      rewrite (bool_decide_ext (path ∈ file_path :: (OsPath.join DOWNLOAD_FOLDER <$> rest))
                 (path ∈ OsPath.join DOWNLOAD_FOLDER <$> rest)) by set_solver.
      done.
Qed.

End FolderListing.

Section Cleanup.
Import App PyStr.

Lemma listed_paths (files : gmap string node) path :
  path ∈ OsPath.join DOWNLOAD_FOLDER
           <$> omap (child_name DOWNLOAD_FOLDER) (map_to_list files).*1 ↔
  is_Some (child_name DOWNLOAD_FOLDER path) ∧ is_Some (files !! path).
Proof.
  rewrite list_elem_of_fmap. split.
  - intros (name & -> & Hname). apply listdir_names in Hname as (p & Hp & Hentry).
    pose proof (child_name_Some _ _ _ Hp) as (-> & Hne & Hs).
    rewrite (join_download _ Hs). split; [by exists name | exact Hentry].
  - intros ([name Hname] & Hentry). exists name.
    pose proof (child_name_Some _ _ _ Hname) as (-> & Hne & Hs).
    split; [symmetry; apply (join_download _ Hs) | apply listdir_names; eauto].
Qed.

Lemma os_listdir_download (w : World) :
  os_listdir DOWNLOAD_FOLDER w =
  match fs w !! DOWNLOAD_FOLDER with
  | Some Dir => (Ok (omap (child_name DOWNLOAD_FOLDER) (map_to_list (fs w)).*1), w)
  | Some (File _) =>
      (Raise (Exception ("[Errno 20] Not a directory: '" ++ DOWNLOAD_FOLDER ++ "'")), w)
  | None =>
      (Raise (Exception ("[Errno 2] No such file or directory: '" ++ DOWNLOAD_FOLDER ++ "'")),
       w)
  end.
Proof.
  unfold os_listdir, lookup_path. change (dir_alias DOWNLOAD_FOLDER) with (@None string).
  by destruct (fs w !! DOWNLOAD_FOLDER) as [[]|].
Qed.

Lemma cleanup_old_files_run (w : World) :
  fs w !! DOWNLOAD_FOLDER = Some Dir →
  ∃ n files',
    cleanup_old_files w =
      (Ok [("message", PStr ("Удалено " ++ pretty n ++ " файлов"))],
       set_fs (fun _ => files') w) ∧
    (∀ path,
       files' !! path = if file_in DOWNLOAD_FOLDER (fs w) path then None else fs w !! path) ∧
    (size (fs w) = n + size files')%nat.
Proof.
  intros Hdir.
  destruct (remove_files_run
              (omap (child_name DOWNLOAD_FOLDER) (map_to_list (fs w)).*1) 0 w)
    as (n & files' & Hrun & Hfiles & Hcount).
  exists n, files'. split; [|split; [|lia]].
  - unfold cleanup_old_files, try_except, bind. rewrite os_listdir_download, Hdir.
    cbv beta iota. rewrite Hrun. done.
  - intros path. rewrite Hfiles. unfold file_in.
    destruct (fs w !! path) as [[size1|]|] eqn:Hpath.
    + case_bool_decide as Hin.
      * apply listed_paths in Hin as [[name ->] _]. done.
      * destruct (child_name DOWNLOAD_FOLDER path) eqn:Hname; [|done].
        exfalso. apply Hin, listed_paths. rewrite Hname, Hpath. eauto.
    + by destruct (child_name _ _).
    + by destruct (child_name _ _).
Qed.

(** X21: [cleanup_old_files] empties the download folder of its files
    and of nothing else.  When the folder is there, it answers with the
    number [n] of files deleted; the state is the old one but for the
    files; exactly the files kept directly in the folder are gone
    (directories stay, and so does everything outside the folder), and
    [n] is the number of entries gone.  When the folder is missing, or
    is not a directory, the answer is 500 and nothing changes. *)
Theorem cleanup_removes_files (w : World) :
  match fs w !! DOWNLOAD_FOLDER with
  | Some Dir =>
      ∃ n files',
        cleanup_old_files w =
          (Ok [("message", PStr ("Удалено " ++ pretty n ++ " файлов"))],
           set_fs (fun _ => files') w) ∧
        (∀ path,
           files' !! path =
           if file_in DOWNLOAD_FOLDER (fs w) path then None else fs w !! path) ∧
        (size (fs w) = n + size files')%nat
  | _ => ∃ detail, cleanup_old_files w = (Raise (HTTPException 500 detail), w)
  end.
Proof.
  destruct (fs w !! DOWNLOAD_FOLDER) as [[size0|]|] eqn:Hdir.
  - eexists. unfold cleanup_old_files, try_except, bind.
    by rewrite os_listdir_download, Hdir.
  - by apply cleanup_old_files_run.
  - eexists. unfold cleanup_old_files, try_except, bind.
    by rewrite os_listdir_download, Hdir.
Qed.

(** X22: cleanup does not know about jobs.  A file of the download
    folder that the file endpoint served before the cleanup is answered
    with 404 after it, while the job store is exactly as it was: a
    completed job keeps its status and its [mp3_path], which now names
    nothing.  (The empty name and the dot are no files of the folder:
    they name the folder itself.) *)
Theorem cleanup_breaks_download_links (E : Env) (w : World) (name : string) (size : N)
    (Hdots : str_in ".." name = false)
    (Hslash : str_in "/" name = false)
    (Hback : str_in "\" name = false)
    (Hname : name ≠ "")
    (Hdot : name ≠ ".")
    (Hdir : fs w !! DOWNLOAD_FOLDER = Some Dir)
    (Hfile : fs w !! ("download/" ++ name) = Some (File size)) :
  let w' := (cleanup_old_files w).2 in
  (∃ r, serve_file E name w = (Ok r, w)) ∧
  downloads w' = downloads w ∧
  serve_file E name w' = (Raise (HTTPException 404 "Файл не найден"), w').
Proof.
  intros w'.
  split; [rewrite serve_file_eq, (lookup_path_Some _ _ _ Hfile) by done; by eexists|].
  destruct (cleanup_old_files_run w Hdir) as (n & files' & Hrun & Hfiles & _).
  subst w'. rewrite Hrun. cbn [snd]. split; [done|].
  rewrite serve_file_eq, lookup_path_download_child by done. cbn [fs set_fs].
  rewrite Hfiles. unfold file_in.
  rewrite (child_name_join DOWNLOAD_FOLDER name Hname Hslash : 
             child_name DOWNLOAD_FOLDER ("download/" ++ name) = Some name), Hfile.
  done.
Qed.

End Cleanup.

Section CleanupWitness.
Import App.

Lemma cleanup_breaks_download_links_witness :
  let E := Demo.env Demo.always_delivered Demo.run_all [] 1000 in
  let w := (websocket_download E "https://youtu.be/abc123" 15 Demo.world0).2 in
  let w' := (cleanup_old_files w).2 in
  job_field w' "uuid-1" "status" = Some (PStr "completed") ∧
  job_field w' "uuid-1" "mp3_path" = Some (PStr "download/My_Song_Title_.mp3") ∧
  serve_file E "My_Song_Title_.mp3" w' = (Raise (HTTPException 404 "Файл не найден"), w').
Proof.
  intros E w w'.
  destruct (cleanup_breaks_download_links E w "My_Song_Title_.mp3" 1000)
    as (_ & Hjobs & Hserve); try (vm_compute; reflexivity); [done..|].
  unfold job_field. fold w' in Hjobs, Hserve. rewrite Hjobs.
  split; [vm_compute; reflexivity|]. split; [vm_compute; reflexivity | exact Hserve].
Defined.

End CleanupWitness.

Section Stats.
Import App DownloadYt PyStr.
Context (E : Env).

Lemma NoDup_list_filter {A} (f : A -> bool) (l : list A) :
  NoDup l → NoDup (List.filter f l).
Proof.
  induction 1 as [|x l Hx Hl IH]; simpl; [constructor|].
  destruct (f x); [|done]. constructor; [|done].
  rewrite list_elem_of_In, filter_In, <- list_elem_of_In. tauto.
Qed.

Lemma total_size_run (names : list string) :
  ∀ (total : N) (w : World),
    (∀ name, name ∈ names →
             str_in "/" name = false ∧ is_Some (fs w !! ("download/" ++ name))) →
    total_size names total w =
    (Ok (total + foldr (fun name acc => size_in_downloads (fs w) name + acc) 0 names)%N, w).
Proof.
  induction names as [|name rest IH]; intros total w Hall.
  - simpl. by rewrite N.add_0_r.
  - cbn [total_size foldr]. unfold bind, os_path_getsize.
    destruct (Hall name) as [Hs [entry Hentry]]; [set_solver|].
    rewrite (join_download _ Hs), (lookup_path_Some _ _ _ Hentry).
    assert (size_in_downloads (fs w) name = node_size entry) as ->.
    { unfold size_in_downloads. by rewrite Hentry. }
    destruct entry as [size0|]; cbv beta iota; rewrite IH by set_solver;
      by rewrite N.add_assoc.
Qed.

(** X23: [get_stats] only reads, and answers whenever the download
    folder is there: no size lookup can fail, since every name it asks
    about was just listed.  The files it counts are, without repetition,
    the entries kept directly in the folder under a name ending in
    [.mp3], directories included; the size is the sum over those
    entries, and the connections are those registered.  Without the
    folder it raises, and changes nothing. *)
Theorem get_stats_reads_only (w : World) :
  match fs w !! DOWNLOAD_FOLDER with
  | Some Dir =>
      ∃ download_files,
        NoDup download_files ∧
        (∀ name,
           name ∈ download_files ↔
           endswith ".mp3" name = true ∧ name ≠ "" ∧ str_in "/" name = false ∧
           is_Some (fs w !! ("download/" ++ name))) ∧
        get_stats E w =
        (Ok [("total_downloads", PInt (Z.of_nat (List.length download_files)));
             ("total_size_mb",
              PFloat (round2 E (megabytes
                (foldr (fun name acc => size_in_downloads (fs w) name + acc)%N 0%N
                       download_files))));
             ("active_connections", PInt (Z.of_nat (size (active_connections w))));
             ("supported_platforms", PInt 2);
             ("coming_soon_platforms", PInt 3)],
         w)
  | _ => ∃ e, get_stats E w = (Raise e, w)
  end.
Proof.
  destruct (fs w !! DOWNLOAD_FOLDER) as [[size0|]|] eqn:Hdir;
    [eexists; unfold get_stats, bind; by rewrite os_listdir_download, Hdir | |
     eexists; unfold get_stats, bind; by rewrite os_listdir_download, Hdir].
  set (filenames := omap (child_name DOWNLOAD_FOLDER) (map_to_list (fs w)).*1).
  assert (∀ name,
            name ∈ List.filter (endswith ".mp3") filenames ↔
            endswith ".mp3" name = true ∧ name ≠ "" ∧ str_in "/" name = false ∧
            is_Some (fs w !! ("download/" ++ name))) as Hnames.
  { intros name. rewrite list_elem_of_In, filter_In, <- list_elem_of_In.
    unfold filenames. rewrite listdir_download_names. tauto. }
  exists (List.filter (endswith ".mp3") filenames).
  split; [apply NoDup_list_filter, listdir_NoDup|]. split; [exact Hnames|].
  unfold get_stats, bind. rewrite os_listdir_download, Hdir. cbv beta iota. fold filenames.
  rewrite total_size_run; [done|].
  intros name Hname. apply Hnames in Hname. tauto.
Qed.

End Stats.

(** *** The verdict a connected client gets *)

Section Verdict.
Import App DownloadYt.
Context (E : Env) (Halive : connection_alive E).

Lemma send_json_last (I : gmap string pydict -> Prop) msg :
  triple (fun w => I (downloads w)) (send_json E RealWS msg)
         (fun _ w => I (downloads w) ∧ last (handler_msgs w) = Some msg)
         (fun _ _ => False).
Proof.
  intros w Hw.
  destruct (runs_send_json E Halive (fs w) (downloads w) (handler_msgs w) msg w)
    as (w' & Hrun & _ & Hd & Hl); [done|].
  rewrite Hrun. unfold post. by rewrite Hd, Hl, last_snoc.
Qed.

Lemma download_and_report_verdict url maxsize platform task_id :
  triple (fun w => is_Some (downloads w !! task_id))
         (download_and_report E url maxsize platform task_id)
         (fun _ w => verdict_agrees task_id maxsize w)
         (fun _ _ => False).
Proof.
  pose (J := fun d : gmap string pydict => is_Some (d !! task_id)).
  assert (∀ {A} (m : M A), returns m → frames downloads m →
            triple (fun w => J (downloads w)) m
                   (fun _ w => J (downloads w)) (fun _ _ => False)) as Hpre.
  { intros A m Hret Hfr. by apply (returns_frames_triple downloads J). }
  unfold download_and_report.
  eapply triple_bind.
  { apply Hpre; [apply returns_send_json; auto | by apply send_json_frames]. }
  intros ?. eapply triple_bind.
  { apply Hpre; [apply download_audio_returns; auto
                | apply download_audio_frames, downloads_ignores_io]. }
  intros [mp3_path thumb_path].
  eapply triple_bind
    with (R := fun ready w =>
                 J (downloads w) ∧
                 (ready = true → ∃ p, mp3_path = Some p ∧ is_Some (lookup_path (fs w) p))).
  { intros w Hw. unfold post, path_ready.
    destruct mp3_path as [p|]; [|by split].
    destruct (String.eqb p ""); [by split|].
    unfold os_path_exists. split; [done|]. intros Hb.
    apply bool_decide_eq_true in Hb. eauto. }
  intros [|].
  - destruct mp3_path as [p|];
      [|intros w [_ Hp]; by destruct (Hp eq_refl) as (? & [=] & _)].
    cbn [default from_option id opt_str].
    pose (Dn := fun d : gmap string pydict =>
                  (d !! task_id ≫= dict_get "status") = Some (PStr "completed") ∧
                  (d !! task_id ≫= dict_get "mp3_path") = Some (PStr p)).
    eapply triple_bind with (R := fun _ w => Dn (downloads w) ∧ is_Some (lookup_path (fs w) p)).
    { intros w [[job Hjob] Hp]. destruct (Hp eq_refl) as (? & [= <-] & Hentry).
      unfold post.
      match goal with
      | |- context [update_download E task_id ?kw w] =>
          pose proof (job_field_updated E task_id kw w job "status" Hjob) as Hs;
          pose proof (job_field_updated E task_id kw w job "mp3_path" Hjob) as Hm;
          pose proof (update_download_frames E fs task_id kw
                        (fun _ _ => eq_refl) (fun _ => eq_refl) w) as Hfs;
          destruct (update_download_returns E task_id kw w) as ([] & w' & Hw')
      end.
      rewrite Hw' in *. cbn [snd] in Hs, Hm, Hfs. rewrite Hfs.
      split; [|done]. split; (etrans; [by (apply Hs || apply Hm) | by dict_simpl]). }
    intros ?. eapply triple_bind with (R := fun _ w => Dn (downloads w)).
    { intros w [HD [entry Hentry]]. unfold post, os_path_getsize.
      rewrite Hentry. by destruct entry. }
    intros size. eapply triple_bind with (R := fun _ w => Dn (downloads w)).
    { apply (returns_frames_triple downloads Dn);
        [apply returns_path_ready | apply path_ready_frames]. }
    intros thumb_ready.
    eapply triple_conseq; [apply (send_json_last Dn) | done | | done].
    intros _ w [[Hs Hm] Hlast]. eexists. split; [exact Hlast|].
    split; [by destruct thumb_ready|]. left.
    split; [exact Hs|]. split; [by destruct thumb_ready|].
    exists p. split; [exact Hm|]. by destruct thumb_ready.
  - pose (Fl := fun d : gmap string pydict =>
                  (d !! task_id ≫= dict_get "status") = Some (PStr "failed") ∧
                  (d !! task_id ≫= dict_get "error") = Some (PStr (failed_text maxsize))).
    eapply triple_bind with (R := fun _ w => Fl (downloads w)).
    { intros w [[job Hjob] _]. unfold post.
      match goal with
      | |- context [update_download E task_id ?kw w] =>
          pose proof (job_field_updated E task_id kw w job "status" Hjob) as Hs;
          pose proof (job_field_updated E task_id kw w job "error" Hjob) as Herr;
          destruct (update_download_returns E task_id kw w) as ([] & w' & Hw')
      end.
      rewrite Hw' in *. cbn [snd] in Hs, Herr.
      split; (etrans; [by (apply Hs || apply Herr) | by dict_simpl]). }
    intros ?.
    eapply triple_conseq; [apply (send_json_last Fl) | done | | done].
    intros _ w [[Hs Herr] Hlast]. eexists. split; [exact Hlast|].
    split; [done|]. right. done.
Qed.

(** X24: a client that stays connected always gets a verdict, and the
    verdict is the one in the job store.  For every accepted request the
    last message of the handler carries the id of the job; it is either
    the success payload, the job being completed and the link being the
    file name of the stored [mp3_path], or the generic error, the job
    being failed with that same error stored. *)
Theorem live_client_gets_verdict (url : string) (maxsize : Z) (w : World)
    (Hreq : accepted_request E url maxsize) :
  let task_id := uuid4 E (S (n_uuid w)) in
  let w' := (websocket_download E url maxsize w).2 in
  (websocket_download E url maxsize w).1 = Ok tt ∧
  verdict_agrees task_id maxsize w'.
Proof.
  intros task_id w'.
  apply (accepted_run_result E url maxsize w (verdict_agrees task_id maxsize)); [done| |].
  - intros w0 (_ & Hd & _). fold task_id in Hd |- *.
    pose proof (download_and_report_verdict url maxsize (get_platform_from_url E url)
                  task_id w0) as Hrun.
    unfold post in Hrun.
    destruct (download_and_report E url maxsize (get_platform_from_url E url) task_id w0)
      as [[[]|e] w1].
    + eexists. split; [done|]. apply Hrun. rewrite Hd.
      by rewrite lookup_insert_eq.
    + exfalso. apply Hrun. rewrite Hd. by rewrite lookup_insert_eq.
  - intros g w0 Hw0. exact Hw0.
Qed.

End Verdict.

Section VerdictWitness.
Import App.

Lemma live_client_gets_verdict_witness :
  let E := Demo.env Demo.always_delivered Demo.run_all [] 1000 in
  verdict_agrees "uuid-1" 15
    (websocket_download E "https://youtu.be/abc123" 15 Demo.world0).2.
Proof.
  intros E.
  apply (live_client_gets_verdict E (fun n => eq_refl) "https://youtu.be/abc123" 15
           Demo.world0).
  repeat split; reflexivity || (unfold MAX_FILE_SIZE_MB; lia).
Defined.

End VerdictWitness.
